(** * foboot booster: the validate-then-flash engine of [booster/src/main.c]

    A shallow embedding of [fobooster_main] and of the helpers it calls
    ([ftfl_busy_wait], [ftfl_begin_erase_sector], [erase_booster],
    [finish_flashing], [error], [reboot], [msleep]).

    The machine is single threaded.  Its state is the content of the SPI
    flash, the RAM array [cached_image] (with the RAM that follows it), the
    module-wide variables of [main.c], and the chronological log of the calls
    made to the drivers.  Functions that never return in C ([error],
    [reboot]) end a run; a run is therefore a function from the initial
    machine to an [outcome] and the final machine. *)

From Stdlib Require Import ZArith List Bool Lia Sorted.
From Stdlib Require Import Init.Byte Strings.Byte.
Import ListNotations.
Open Scope Z_scope.

(** ** Machine integers and memories *)

(** [uint32_t] and [uint8_t] arithmetic wraps around. *)
Definition wrap32 (z : Z) : Z := z mod 2 ^ 32.
Definition wrap8 (z : Z) : Z := z mod 2 ^ 8.

(** A byte-addressed memory.  The flash is indexed by flash offset, RAM by
    the byte offset from [&cached_image[0]]. *)
Definition mem : Type := Z -> byte.

Definition store (m : mem) (a : Z) (b : byte) : mem :=
  fun i => if i =? a then b else m i.

(** [memcpy (dst + d, src + s, n)]. *)
Definition memcpy (dst : mem) (d : Z) (src : mem) (s : Z) (n : Z) : mem :=
  fun i => if (d <=? i) && (i <? d + n) then src (s + (i - d)) else dst i.

(** [memcmp (a + pa, b + pb, n)]: zero when the [n] bytes agree, otherwise
    the difference of the first pair of bytes that differ. *)
Fixpoint memcmp (a : mem) (pa : Z) (b : mem) (pb : Z) (n : nat) : Z :=
  match n with
  | O => 0
  | S n' =>
      if Byte.eqb (a pa) (b pb)
      then memcmp a (pa + 1) b (pb + 1) n'
      else Z.of_N (Byte.to_N (a pa)) - Z.of_N (Byte.to_N (b pb))
  end.

(** The [n] bytes found at [p]. *)
Definition read_bytes (m : mem) (p : Z) (n : Z) : list byte :=
  map (fun j => m (p + Z.of_nat j)) (seq 0 (Z.to_nat n)).

(** ** Constants *)

(** [multiboot_reference] (main.c:26-36). *)
Definition multiboot_reference : list byte :=
  [ x7e; xaa; x99; x7e; x92; x00; x00; x44;
    x03; x04; x00; xa0; x82; x00; x00; x01;
    x08; x00; x00; x00; x00; x00; x00; x00;
    x00; x00; x00; x00; x00; x00; x00; x00;

    x7e; xaa; x99; x7e; x92; x00; x00; x44;
    x03; x00; x00; xa0; x82; x00; x00; x01;
    x08; x00; x00; x00; x00; x00; x00; x00;
    x00; x00; x00; x00; x00; x00; x00; x00 ].

Definition sizeof_multiboot_reference : Z := Z.of_nat (length multiboot_reference).

(** [sizeof(cached_image)], from [static uint32_t cached_image[0x1a000/4]]. *)
Definition sizeof_cached_image : Z := 0x1a000.

(** [spi.h] is not part of the sources at hand.  The two sizes are the ones
    the comments of main.c give: "Erase one 4096-byte block" (main.c:220)
    and "Program each 256-byte page" (main.c:223). *)
Definition SPI_ERASE_SECTOR_SIZE : Z := 4096.
Definition SPI_PROGRAM_PAGE_SIZE : Z := 256.

(** The flash is readable at this address while the SPI block is in
    memory-mapped mode (main.c:211 reads [target_addr + 0x20000000]). *)
Definition SPI_MAPPED_BASE : Z := 0x20000000.

(** Where the install image sits: [(const void * )0x20040000] (main.c:166,
    main.c:173), that is flash offset 0x40000. *)
Definition IMAGE_SOURCE : Z := 0x20040000.

(** Bound of the programming loop (main.c:207). *)
Definition MAX_TARGET_ADDR : Z := 131072.

(** The byte the loader patches (main.c:186) and the byte [erase_booster]
    clears (main.c:87). *)
Definition BOOT_SELECTOR : Z := 9.

(** Sector that holds Booster itself (main.c:101). *)
Definition BOOSTER_SECTOR : Z := 0x5a000.

(** ** Errors, events *)

(** [enum error_code] (main.c:111-117). *)
Inductive error_code : Type :=
| NO_ERROR
| INVALID_IMAGE_SIZE
| HASH_MISMATCH
| SPI_MISMATCH
| MISSING_MULTIBOOT.

Definition error_code_value (e : error_code) : Z :=
  match e with
  | NO_ERROR => 0
  | INVALID_IMAGE_SIZE => 1
  | HASH_MISMATCH => 2
  | SPI_MISMATCH => 3
  | MISSING_MULTIBOOT => 4
  end.

(** One constructor per driver entry point that main.c calls. *)
Inductive event : Type :=
| EvIrqSetmask (v : Z)
| EvIrqSetie (v : Z)
| EvRgbInit
| EvUsbInit
| EvUsbConnect
| EvCfg4Write (v : Z)             (* picorvspi_cfg4_write *)
| EvBusyWait                      (* spiIsBusy polled until it is false *)
| EvSpiId                         (* spiId *)
| EvErase4 (addr : Z)             (* spiBeginErase4 *)
| EvWrite (addr : Z) (data : list byte)  (* spiBeginWrite *)
| EvRgbWheel (c : Z)
| EvRgbModeError
| EvRgbModeWriting
| EvMsleep (ms : Z)
| EvRebootCtrlWrite (v : Z).      (* reboot_ctrl_write *)

(** The commands that change the non-volatile memory. *)
Definition is_nv_op (e : event) : bool :=
  match e with
  | EvErase4 _ | EvWrite _ _ => true
  | _ => false
  end.

Definition nv_ops (t : list event) : list event := filter is_nv_op t.

Definition is_erase (e : event) : bool :=
  match e with EvErase4 _ => true | _ => false end.

Definition is_write (e : event) : bool :=
  match e with EvWrite _ _ => true | _ => false end.

Definition is_skip_read (e : event) : bool :=
  match e with EvCfg4Write v => v =? 0x80 | _ => false end.

Definition is_reboot (e : event) : bool :=
  match e with EvRebootCtrlWrite _ => true | _ => false end.

Definition count (p : event -> bool) (t : list event) : nat :=
  length (filter p t).

Fixpoint erase_addrs (t : list event) : list Z :=
  match t with
  | [] => []
  | EvErase4 a :: t' => a :: erase_addrs t'
  | _ :: t' => erase_addrs t'
  end.

(** ** The machine *)

Record machine : Type := mkMachine {
  flash : mem;
  cached_image : mem;
  error_code_var : error_code;      (* volatile enum error_code error_code *)
  calculated_hash : Z;
  read_spi_id : Z;
  cached_spi_id : Z;
  cached_image_length : Z;
  trace : list event
}.

Definition set_flash (f : mem) (m : machine) : machine :=
  mkMachine f (cached_image m) (error_code_var m) (calculated_hash m)
            (read_spi_id m) (cached_spi_id m) (cached_image_length m) (trace m).

Definition set_cached_image (r : mem) (m : machine) : machine :=
  mkMachine (flash m) r (error_code_var m) (calculated_hash m)
            (read_spi_id m) (cached_spi_id m) (cached_image_length m) (trace m).

Definition set_error_code (e : error_code) (m : machine) : machine :=
  mkMachine (flash m) (cached_image m) e (calculated_hash m)
            (read_spi_id m) (cached_spi_id m) (cached_image_length m) (trace m).

Definition set_calculated_hash (h : Z) (m : machine) : machine :=
  mkMachine (flash m) (cached_image m) (error_code_var m) h
            (read_spi_id m) (cached_spi_id m) (cached_image_length m) (trace m).

Definition set_read_spi_id (v : Z) (m : machine) : machine :=
  mkMachine (flash m) (cached_image m) (error_code_var m) (calculated_hash m)
            v (cached_spi_id m) (cached_image_length m) (trace m).

Definition set_cached_spi_id (v : Z) (m : machine) : machine :=
  mkMachine (flash m) (cached_image m) (error_code_var m) (calculated_hash m)
            (read_spi_id m) v (cached_image_length m) (trace m).

Definition set_cached_image_length (v : Z) (m : machine) : machine :=
  mkMachine (flash m) (cached_image m) (error_code_var m) (calculated_hash m)
            (read_spi_id m) (cached_spi_id m) v (trace m).

Definition emit (e : event) (m : machine) : machine :=
  mkMachine (flash m) (cached_image m) (error_code_var m) (calculated_hash m)
            (read_spi_id m) (cached_spi_id m) (cached_image_length m)
            (trace m ++ [e]).

(** A read through the memory-mapped window. *)
Definition mapped (f : mem) : mem := fun addr => f (addr - SPI_MAPPED_BASE).

(** ** The flash chip behind the SPI driver *)

(** Modelled from the spec: the SPI driver ([spiBeginErase4],
    [spiBeginWrite], [spiIsBusy], [spiId]) is not among the sources.  The
    spec's glossary calls an erase block the "minimum-size region of
    non-volatile memory that must be erased as a unit before reprogramming"
    and a program page the region "written in a single program command".
    [byte_and] is what programming does to one cell of such a memory: bits can
    only be cleared, so a cell takes the written value when it was erased. *)
Definition byte_and (a b : byte) : byte :=
  match Byte.of_N (N.land (Byte.to_N a) (Byte.to_N b)) with
  | Some c => c
  | None => x00
  end.

(** Modelled from the spec: effect of [spiBeginErase4 (addr)] on the flash,
    the whole erase block that contains [addr] returns to the erased state
    (all ones). *)
Definition flash_erase4 (f : mem) (addr : Z) : mem :=
  fun i =>
    if i / SPI_ERASE_SECTOR_SIZE =? addr / SPI_ERASE_SECTOR_SIZE then xff else f i.

(** Modelled from the spec: effect of [spiBeginWrite (addr, src + p, count)]
    on the flash, the [count] cells from [addr] on are programmed with the
    bytes found at [src + p]; no cell outside that range changes. *)
Definition flash_program (f : mem) (addr : Z) (src : mem) (p : Z) (count : Z) : mem :=
  fun i =>
    if (addr <=? i) && (i <? addr + count)
    then byte_and (f i) (src (p + (i - addr)))
    else f i.

(** ** Driver calls *)

Definition picorvspi_cfg4_write (v : Z) (m : machine) : machine :=
  emit (EvCfg4Write v) m.

Definition spiBeginErase4 (addr : Z) (m : machine) : machine :=
  emit (EvErase4 addr) (set_flash (flash_erase4 (flash m) addr) m).

Definition spiBeginWrite (addr : Z) (src : mem) (p : Z) (count : Z) (m : machine)
  : machine :=
  emit (EvWrite addr (read_bytes src p count))
       (set_flash (flash_program (flash m) addr src p count) m).

Definition rgb_wheel (c : Z) (m : machine) : machine := emit (EvRgbWheel c) m.
Definition rgb_mode_error (m : machine) : machine := emit EvRgbModeError m.
Definition rgb_mode_writing (m : machine) : machine := emit EvRgbModeWriting m.

(** ** main.c *)

(** [msleep] (main.c:40-49).  The timer is an external collaborator; the
    delay is logged as one event. *)
Definition msleep (ms : Z) (m : machine) : machine := emit (EvMsleep ms) m.

(** [reboot] (main.c:51-58): [reboot_ctrl_write(0xac | (image_index & 3) << 0)]
    with [image_index = 2], then spins; it ends the run. *)
Definition reboot (m : machine) : machine :=
  let image_index := 2 in
  emit (EvRebootCtrlWrite (Z.lor 0xac (Z.shiftl (Z.land image_index 3) 0))) m.

(** [ftfl_busy_wait] (main.c:67-71): spins until [spiIsBusy ()] is false.
    The controller is taken to become idle eventually; the wait is logged. *)
Definition ftfl_busy_wait (m : machine) : machine := emit EvBusyWait m.

(** [ftfl_begin_erase_sector] (main.c:74-78). *)
Definition ftfl_begin_erase_sector (address : Z) (m : machine) : machine :=
  spiBeginErase4 address (ftfl_busy_wait m).

(** [erase_booster] (main.c:81-102). *)
Definition erase_booster (m : machine) : machine :=
  let m := ftfl_busy_wait m in
  let zero : mem := fun _ => x00 in
  let m := spiBeginWrite BOOT_SELECTOR zero 0 1 m in
  let m := ftfl_busy_wait m in
  ftfl_begin_erase_sector BOOSTER_SECTOR m.

(** [finish_flashing] (main.c:104-109); never returns. *)
Definition finish_flashing (m : machine) : machine :=
  let m := erase_booster m in
  let m := ftfl_busy_wait m in
  reboot m.

(** [error] (main.c:121-130): latches the code, shows the error pattern and
    spins in the first [while(1)]; the lines after it are never reached. *)
Definition error (code : error_code) (m : machine) : machine :=
  rgb_mode_error (set_error_code code m).

(** How a phase of [fobooster_main] ends: it falls through to the next
    statement, or it has called [error]. *)
Inductive phase : Type :=
| Continue (m : machine)
| Halt (code : error_code) (m : machine).

(** How a run ends. *)
Inductive outcome : Type :=
| Failed (code : error_code)
| Rebooted.

(** What [fobooster_main] reads from outside: the words the linker script
    places next to the image ([image_length], [hash_length], [image_seed],
    [spi_id], [booster_data.xxhash]) and the answer of [spiId ()]. *)
Record booster_input : Type := mkInput {
  image_length : Z;
  hash_length : Z;
  image_seed : Z;
  spi_id : Z;
  xxhash : Z;
  spiId_answer : Z
}.

(** Locals of [fobooster_main] that live across the programming loop. *)
Record locals : Type := mkLocals {
  bytes_left : Z;
  target_addr : Z;
  current_ptr : Z;     (* byte offset from [&cached_image[0]] *)
  c : Z
}.

Section Booster.

(** The hashing primitive, a pure function of the bytes and the seed. *)
Variable XXH32 : list byte -> Z -> Z.

(** main.c:151-156.  The wait on [should_continue] (main.c:157) is over when
    the run modelled here starts. *)
Definition startup (m : machine) : machine :=
  let m := emit (EvIrqSetmask 0) m in
  let m := emit (EvIrqSetie 1) m in
  let m := emit EvRgbInit m in
  let m := emit EvUsbInit m in
  emit EvUsbConnect m.

(** The descriptor loop of main.c:176-182, from index [target_addr] on for
    [n] more bytes; [false] when [error(MISSING_MULTIBOOT)] is reached. *)
Fixpoint multiboot_scan (n : nat) (target_addr : Z) (img : mem) : bool :=
  match n with
  | O => true
  | S n' =>
      if Byte.eqb (img target_addr)
                  (nth (Z.to_nat target_addr) multiboot_reference x00)
      then multiboot_scan n' (wrap32 (target_addr + 1)) img
      else false
  end.

Definition multiboot_ok (img : mem) : bool :=
  multiboot_scan (Z.to_nat sizeof_multiboot_reference) 0 img.

(** The hash the loader computes at main.c:166. *)
Definition hash_of_source (inp : booster_input) (m : machine) : Z :=
  XXH32 (read_bytes (mapped (flash m)) IMAGE_SOURCE (hash_length inp))
        (image_seed inp).

(** The copy of main.c:173. *)
Definition staged_copy (inp : booster_input) (m : machine) : mem :=
  memcpy (cached_image m) 0 (mapped (flash m)) IMAGE_SOURCE (image_length inp).

(** main.c:159-186: size check, hash check, copy, descriptor check, patch. *)
Definition validate (inp : booster_input) (m : machine) : phase :=
  if image_length inp >? sizeof_cached_image then
    Halt INVALID_IMAGE_SIZE (error INVALID_IMAGE_SIZE m)
  else
    let m := set_calculated_hash (hash_of_source inp m) m in
    if negb (calculated_hash m =? xxhash inp) then
      Halt HASH_MISMATCH (error HASH_MISMATCH m)
    else
      let m := set_cached_image (staged_copy inp m) m in
      if negb (multiboot_ok (cached_image m)) then
        Halt MISSING_MULTIBOOT (error MISSING_MULTIBOOT m)
      else
        Continue (set_cached_image (store (cached_image m) BOOT_SELECTOR x04) m).

(** main.c:188-198: leave memory-mapped mode and compare the identities. *)
Definition confirm_identity (inp : booster_input) (m : machine) : phase :=
  let m := set_cached_spi_id (spi_id inp) m in
  let m := set_cached_image_length (image_length inp) m in
  let m := picorvspi_cfg4_write 0 m in
  let m := ftfl_busy_wait m in
  let m := set_read_spi_id (spiId_answer inp) (emit EvSpiId m) in
  if negb (cached_spi_id m =? read_spi_id m) then
    Halt SPI_MISMATCH (error SPI_MISMATCH m)
  else Continue m.

(** main.c:200-206. *)
Definition loop_entry (m : machine) : locals :=
  mkLocals (cached_image_length m) 0 0 80.

(** Condition of the [for] of main.c:224-226. *)
Definition page_cond (page_offset : Z) (l : locals) : bool :=
  negb (bytes_left l =? 0) && (page_offset <? SPI_ERASE_SECTOR_SIZE).

(** Body of the [for] of main.c:227-237. *)
Definition page_body (l : locals) (m : machine) : locals * machine :=
  let c' := wrap8 (c l + 10) in
  let m := rgb_wheel c' m in
  let bytes_to_write := bytes_left l in
  let bytes_to_write :=
    if bytes_to_write >? SPI_PROGRAM_PAGE_SIZE then SPI_PROGRAM_PAGE_SIZE
    else bytes_to_write in
  let m := ftfl_busy_wait m in
  let m := spiBeginWrite (target_addr l) (cached_image m) (current_ptr l)
                         bytes_to_write m in
  (mkLocals (wrap32 (bytes_left l - bytes_to_write))
            (wrap32 (target_addr l + SPI_PROGRAM_PAGE_SIZE))
            (current_ptr l + SPI_PROGRAM_PAGE_SIZE)
            c',
   m).

(** The [for] loop of main.c:224-237, [None] when [fuel] runs out. *)
Fixpoint program_pages (fuel : nat) (page_offset : Z) (l : locals) (m : machine)
  : option (locals * machine) :=
  match fuel with
  | O => if page_cond page_offset l then None else Some (l, m)
  | S fuel' =>
      if page_cond page_offset l then
        let '(l', m') := page_body l m in
        program_pages fuel' (wrap32 (page_offset + SPI_PROGRAM_PAGE_SIZE)) l' m'
      else Some (l, m)
  end.

(** A sector holds this many pages; the [for] loop cannot run longer. *)
Definition PAGES_PER_SECTOR : nat := 16.

(** Condition of the [while] of main.c:207. *)
Definition block_cond (l : locals) : bool :=
  negb (bytes_left l =? 0) && (target_addr l <? MAX_TARGET_ADDR).

(** main.c:210-213: the sector is read back in memory-mapped mode into
    [check_block] and compared with the staged bytes. *)
Definition skip_check (l : locals) (m : machine) : bool :=
  let check_block : mem :=
    memcpy (fun _ => x00) 0 (mapped (flash m))
           (wrap32 (target_addr l + SPI_MAPPED_BASE)) SPI_ERASE_SECTOR_SIZE in
  memcmp check_block 0 (cached_image m) (current_ptr l)
         (Z.to_nat SPI_ERASE_SECTOR_SIZE) =? 0.

(** Body of the [while] of main.c:208-238. *)
Definition block_body (l : locals) (m : machine) : option (locals * machine) :=
  let m1 := picorvspi_cfg4_write 0x80 m in
  let same := skip_check l m1 in
  let m2 := picorvspi_cfg4_write 0x00 m1 in
  if same then
    Some (mkLocals (wrap32 (bytes_left l - SPI_ERASE_SECTOR_SIZE))
                   (wrap32 (target_addr l + SPI_ERASE_SECTOR_SIZE))
                   (current_ptr l + SPI_ERASE_SECTOR_SIZE)
                   (c l),
          m2)
  else
    let m3 := ftfl_begin_erase_sector (target_addr l) m2 in
    program_pages PAGES_PER_SECTOR 0 l m3.

(** The [while] loop of main.c:207-238, [None] when [fuel] runs out. *)
Fixpoint program_blocks (fuel : nat) (l : locals) (m : machine)
  : option (locals * machine) :=
  match fuel with
  | O => if block_cond l then None else Some (l, m)
  | S fuel' =>
      if block_cond l then
        match block_body l m with
        | Some (l', m') => program_blocks fuel' l' m'
        | None => None
        end
      else Some (l, m)
  end.

(** main.c:240-242. *)
Definition finish (m : machine) : machine :=
  let m := rgb_mode_writing m in
  let m := msleep 1000 m in
  finish_flashing m.

(** [fobooster_main] (main.c:144-243). *)
Definition fobooster_main (fuel : nat) (inp : booster_input) (m : machine)
  : option (outcome * machine) :=
  match validate inp (startup m) with
  | Halt code m1 => Some (Failed code, m1)
  | Continue m1 =>
      match confirm_identity inp m1 with
      | Halt code m2 => Some (Failed code, m2)
      | Continue m2 =>
          match program_blocks fuel (loop_entry m2) m2 with
          | Some (_, m3) => Some (Rebooted, finish m3)
          | None => None
          end
      end
  end.

(** One programming pass over the staged image [img] of [len] bytes, from a
    flash [f]: main.c:200-238 on its own. *)
Definition pass_machine (img : mem) (len : Z) (f : mem) : machine :=
  mkMachine f img NO_ERROR 0 0 0 len [].

Definition programming_pass (fuel : nat) (img : mem) (len : Z) (f : mem)
  : option (locals * machine) :=
  let m := pass_machine img len f in
  program_blocks fuel (loop_entry m) m.

End Booster.

(** ** The interrupt handler, the busy flag and the timer *)

(** What [isr] can call. *)
Inductive isr_call : Type :=
| CallUsbIsr.

(** [isr] (main.c:132-140).  [USB_INTERRUPT] comes from the generated
    [csr.h], which is not among the sources: it is a parameter.  The two
    other arguments are the answers of [irq_pending ()] and [irq_getmask ()]. *)
Definition isr (USB_INTERRUPT : Z) (irq_pending irq_getmask : Z) : list isr_call :=
  let irqs := Z.land irq_pending irq_getmask in
  if negb (Z.land irqs (Z.shiftl 1 USB_INTERRUPT) =? 0) then [CallUsbIsr] else [].

(** [ftfl_busy] (main.c:61-64), given the answer of [spiIsBusy ()]. *)
Definition ftfl_busy (spiIsBusy : bool) : bool := spiIsBusy.

(** The functions that spin on a device register, with the successive answers
    of the device given as a list.  [None]: the answers recorded so far do
    not let the loop end. *)
Module Polled.

(** [ftfl_busy_wait] (main.c:67-71): [while (ftfl_busy ()) ;].  Returns the
    answers it has not consumed. *)
Fixpoint ftfl_busy_wait (answers : list bool) : option (list bool) :=
  match answers with
  | [] => None
  | a :: rest => if ftfl_busy a then ftfl_busy_wait rest else Some rest
  end.

(** The writes [msleep] makes to the registers of timer 0. *)
Inductive timer_write : Type :=
| En (v : Z)
| Reload (v : Z)
| Load (v : Z)
| UpdateValue (v : Z).

(** [SYSTEM_CLOCK_FREQUENCY/1000*ms] (main.c:44): [int] arithmetic, the
    division first and truncating, the result converted to the 32-bit
    register. *)
Definition load_value (SYSTEM_CLOCK_FREQUENCY ms : Z) : Z :=
  wrap32 (Z.quot SYSTEM_CLOCK_FREQUENCY 1000 * ms).

(** [while (timer0_value_read ()) timer0_update_value_write (1);]
    (main.c:47-48), given the successive answers of [timer0_value_read]. *)
Fixpoint wait_for_zero (reads : list Z) : option (list timer_write * list Z) :=
  match reads with
  | [] => None
  | v :: rest =>
      if negb (v =? 0) then
        match wait_for_zero rest with
        | Some (ws, rest') => Some (UpdateValue 1 :: ws, rest')
        | None => None
        end
      else Some ([], rest)
  end.

(** [msleep] (main.c:40-49).  [SYSTEM_CLOCK_FREQUENCY] comes from the
    generated headers and is a parameter. *)
Definition msleep (SYSTEM_CLOCK_FREQUENCY ms : Z) (reads : list Z)
  : option (list timer_write * list Z) :=
  match wait_for_zero reads with
  | Some (ws, rest) =>
      Some ([En 0; Reload 0; Load (load_value SYSTEM_CLOCK_FREQUENCY ms);
             En 1; UpdateValue 1] ++ ws,
            rest)
  | None => None
  end.

End Polled.

(** * Vocabulary of the properties *)

(** ** The two loops, one step at a time *)

(** The variables of main.c other than the flash and the log are the same in
    both machines. *)
Definition same_ram (m m' : machine) : Prop :=
  cached_image m' = cached_image m /\
  error_code_var m' = error_code_var m /\
  calculated_hash m' = calculated_hash m /\
  read_spi_id m' = read_spi_id m /\
  cached_spi_id m' = cached_spi_id m /\
  cached_image_length m' = cached_image_length m.

(** The program command of page [j] of a sector that starts at [ta], with
    [bl] bytes left at the start of the sector and the data at [cp]. *)
Definition page_write (img : mem) (ta cp bl : Z) (j : nat) : event :=
  EvWrite (ta + SPI_PROGRAM_PAGE_SIZE * Z.of_nat j)
          (read_bytes img (cp + SPI_PROGRAM_PAGE_SIZE * Z.of_nat j)
                      (Z.min SPI_PROGRAM_PAGE_SIZE (bl - SPI_PROGRAM_PAGE_SIZE * Z.of_nat j))).

Definition page_writes (img : mem) (ta cp bl : Z) (k : nat) : list event :=
  map (page_write img ta cp bl) (seq 0 k).

(** The calls the page loop makes. *)
Definition page_event (e : event) : Prop :=
  match e with
  | EvRgbWheel _ | EvBusyWait | EvWrite _ _ => True
  | _ => False
  end.

(** State of the page loop, entered with locals [l0] on machine [m0], when
    [k] pages have been programmed. *)
Definition page_inv (l0 : locals) (m0 : machine)
           (k : nat) (l : locals) (m : machine) : Prop :=
  let po := SPI_PROGRAM_PAGE_SIZE * Z.of_nat k in
  (k <= PAGES_PER_SECTOR)%nat /\
  (k = O \/ po - SPI_PROGRAM_PAGE_SIZE < bytes_left l0) /\
  bytes_left l = Z.max 0 (bytes_left l0 - po) /\
  target_addr l = target_addr l0 + po /\
  current_ptr l = current_ptr l0 + po /\
  same_ram m0 m /\
  (forall i, flash m i =
             flash_program (flash m0) (target_addr l0) (cached_image m0)
                           (current_ptr l0) (Z.min po (bytes_left l0)) i) /\
  exists evs,
    trace m = trace m0 ++ evs /\
    Forall page_event evs /\
    nv_ops evs = page_writes (cached_image m0) (target_addr l0) (current_ptr l0)
                             (bytes_left l0) k.

(** What holds of the locals whenever the [while] condition is evaluated. *)
Definition block_ok (l : locals) : Prop :=
  0 <= bytes_left l < 4294967296 /\
  0 <= target_addr l <= MAX_TARGET_ADDR /\
  (bytes_left l = 0 \/ target_addr l mod SPI_ERASE_SECTOR_SIZE = 0).

(** The machine when the skip check has failed and the sector was erased. *)
Definition erased_for (l : locals) (m : machine) : machine :=
  ftfl_begin_erase_sector (target_addr l)
    (picorvspi_cfg4_write 0x00 (picorvspi_cfg4_write 0x80 m)).

(** The two ways through the body: the sector is skipped, or it is erased
    and [k] pages are programmed, [k] between 1 and 16. *)
Inductive block_step (l : locals) (m : machine) (l' : locals) (m' : machine) : Prop :=
| step_skip :
    skip_check l m = true ->
    l' = mkLocals (wrap32 (bytes_left l - SPI_ERASE_SECTOR_SIZE))
                  (target_addr l + SPI_ERASE_SECTOR_SIZE)
                  (current_ptr l + SPI_ERASE_SECTOR_SIZE) (c l) ->
    m' = picorvspi_cfg4_write 0x00 (picorvspi_cfg4_write 0x80 m) ->
    block_step l m l' m'
| step_program (k : nat) (evs : list event) :
    skip_check l m = false ->
    (1 <= k <= PAGES_PER_SECTOR)%nat ->
    SPI_PROGRAM_PAGE_SIZE * Z.of_nat k - SPI_PROGRAM_PAGE_SIZE < bytes_left l ->
    bytes_left l' = Z.max 0 (bytes_left l - SPI_PROGRAM_PAGE_SIZE * Z.of_nat k) ->
    (bytes_left l' = 0 \/ k = PAGES_PER_SECTOR) ->
    target_addr l' = target_addr l + SPI_PROGRAM_PAGE_SIZE * Z.of_nat k ->
    current_ptr l' = current_ptr l + SPI_PROGRAM_PAGE_SIZE * Z.of_nat k ->
    same_ram m m' ->
    trace m' = trace m ++ [EvCfg4Write 0x80; EvCfg4Write 0x00; EvBusyWait;
                           EvErase4 (target_addr l)] ++ evs ->
    Forall page_event evs ->
    nv_ops evs = page_writes (cached_image m) (target_addr l) (current_ptr l)
                             (bytes_left l) k ->
    (forall i, flash m' i =
               if (target_addr l <=? i) && (i <? target_addr l + SPI_ERASE_SECTOR_SIZE)
               then (if i <? target_addr l
                             + Z.min (SPI_PROGRAM_PAGE_SIZE * Z.of_nat k) (bytes_left l)
                     then cached_image m (current_ptr l + (i - target_addr l))
                     else xff)
               else flash m i) ->
    block_step l m l' m'.

(** ** Concrete machines for the examples *)

(** A stand-in for the hashing primitive in concrete runs. *)
Definition sum_hash (l : list byte) (seed : Z) : Z :=
  wrap32 (fold_left (fun a b => a + Z.of_N (Byte.to_N b)) l seed).

(** A flash that is erased everywhere except for [image], which sits at the
    offset the loader reads it from (0x40000). *)
Definition flash_with (image : list byte) : mem :=
  fun i =>
    if (0x40000 <=? i) && (i <? 0x40000 + Z.of_nat (length image))
    then nth (Z.to_nat (i - 0x40000)) image xff
    else xff.

(** The machine when [fobooster_main] starts: statics are zero. *)
Definition power_on (f : mem) : machine :=
  mkMachine f (fun _ => x00) NO_ERROR 0 0 0 0 [].

(** An install image that is the reference descriptor and nothing else. *)
Definition descriptor_only : booster_input :=
  mkInput 64 64 0 0xc2152815 (sum_hash multiboot_reference 0) 0xc2152815.

(** The same with a flash chip that answers with another identity. *)
Definition foreign_chip : booster_input :=
  mkInput 64 64 0 0xc2152815 (sum_hash multiboot_reference 0) 0xef401500.

(** A declared length one byte above the capacity of [cached_image]. *)
Definition oversized : booster_input :=
  mkInput 0x1a001 64 0 0xc2152815 (sum_hash multiboot_reference 0) 0xc2152815.

(** A declared hash that is off by one. *)
Definition wrong_hash : booster_input :=
  mkInput 64 64 0 0xc2152815 (sum_hash multiboot_reference 0 + 1) 0xc2152815.

(** ** Runs and their calls *)

(** How a run ended and the machine it left, read off a result. *)
Definition outcome_of (r : option (outcome * machine)) : option outcome :=
  option_map fst r.

Definition final_of (r : option (outcome * machine)) (d : machine) : machine :=
  match r with
  | Some (_, m) => m
  | None => d
  end.

(** An install image whose descriptor differs from the reference in the
    selector byte only: offset 9 holds 0x00 instead of 0x04. *)
Definition selector_cleared : list byte :=
  firstn 9 multiboot_reference ++ [x00] ++ skipn 10 multiboot_reference.

Definition selector_cleared_input : booster_input :=
  mkInput 64 64 0 0xc2152815 (sum_hash selector_cleared 0) 0xc2152815.

(** The first 64 bytes of [img] and the reference agree everywhere but at the
    selector byte. *)
Definition differs_in_selector_only (img : mem) : bool :=
  forallb (fun j => let i := Z.of_nat j in
                    if i =? BOOT_SELECTOR
                    then negb (Byte.eqb (img i) (nth j multiboot_reference x00))
                    else Byte.eqb (img i) (nth j multiboot_reference x00))
          (seq 0 (length multiboot_reference)).

(** The calls the loop makes: erases of whole sectors and programs of whole
    pages below the bound, mode switches, waits and the progress light. *)
Definition loop_event (e : event) : Prop :=
  match e with
  | EvErase4 a => 0 <= a < MAX_TARGET_ADDR /\ a mod SPI_ERASE_SECTOR_SIZE = 0
  | EvWrite a d =>
      0 <= a < MAX_TARGET_ADDR /\ a mod SPI_PROGRAM_PAGE_SIZE = 0 /\
      (length d <= Z.to_nat SPI_PROGRAM_PAGE_SIZE)%nat
  | EvCfg4Write _ | EvBusyWait | EvRgbWheel _ => True
  | _ => False
  end.

(** The calls made before the programming loop on a run that reaches it. *)
Definition prologue : list event :=
  [EvIrqSetmask 0; EvIrqSetie 1; EvRgbInit; EvUsbInit; EvUsbConnect;
   EvCfg4Write 0; EvBusyWait; EvSpiId].

(** The calls of [finish_flashing]: clear the selector byte, erase the
    sector of Booster, reboot into image 2. *)
Definition handoff : list event :=
  [EvBusyWait; EvWrite BOOT_SELECTOR [x00]; EvBusyWait;
   EvBusyWait; EvErase4 BOOSTER_SECTOR; EvBusyWait;
   EvRebootCtrlWrite 0xae].

(** The four checks pass. *)
Definition checks_pass (XXH32 : list byte -> Z -> Z)
           (inp : booster_input) (m : machine) : Prop :=
  image_length inp <= sizeof_cached_image /\
  hash_of_source XXH32 inp m = xxhash inp /\
  multiboot_ok (staged_copy inp m) = true /\
  spi_id inp = spiId_answer inp.

(** The machine at the head of the programming loop. *)
Definition at_loop_entry (inp : booster_input) (m m2 : machine) : Prop :=
  flash m2 = flash m /\
  cached_image m2 = store (staged_copy inp m) BOOT_SELECTOR x04 /\
  cached_image_length m2 = image_length inp /\
  error_code_var m2 = error_code_var m /\
  trace m2 = trace m ++ prologue.

(** The erase and the program command of the hand-off. *)
Definition is_booster_erase (e : event) : bool :=
  match e with EvErase4 a => a =? BOOSTER_SECTOR | _ => false end.

Definition is_selector_write (e : event) : bool :=
  match e with EvWrite a _ => a =? BOOT_SELECTOR | _ => false end.

(** ** Programming passes *)

(** [pass_run lo ops hi]: [ops] is a sequence of sector rewrites at ascending
    sector addresses between [lo] and [hi]; each rewrite is the erase of the
    sector followed by the program commands of its first [k] pages, in page
    order, [k] between 1 and 16. *)
Inductive pass_run : Z -> list event -> Z -> Prop :=
| pass_run_nil (lo hi : Z) :
    lo <= hi -> pass_run lo [] hi
| pass_run_block (lo a : Z) (img : mem) (cp bl : Z) (k : nat)
                 (rest : list event) (hi : Z) :
    lo <= a ->
    a mod SPI_ERASE_SECTOR_SIZE = 0 ->
    (1 <= k <= PAGES_PER_SECTOR)%nat ->
    pass_run (a + SPI_ERASE_SECTOR_SIZE) rest hi ->
    pass_run lo (EvErase4 a :: page_writes img a cp bl k ++ rest) hi.

(** The calls of [n] passes of the loop in which the skip check succeeded. *)
Definition skip_reads (n : nat) : list event :=
  concat (repeat [EvCfg4Write 0x80; EvCfg4Write 0x00] n).

(** State of a pass over the image [img] of [len] bytes, [len] a whole number
    of sectors. *)
Definition whole_sector_inv (img : mem) (len : Z)
           (l : locals) (m : machine) : Prop :=
  cached_image m = img /\
  current_ptr l = target_addr l /\
  target_addr l mod SPI_ERASE_SECTOR_SIZE = 0 /\
  bytes_left l = len - target_addr l.

(** What a pass left behind, read off its result. *)
Definition pass_flash (r : option (locals * machine)) (d : mem) : mem :=
  match r with Some (_, m) => flash m | None => d end.

Definition pass_ops (r : option (locals * machine)) : list event :=
  match r with Some (_, m) => nv_ops (trace m) | None => [] end.

Definition pass_locals (r : option (locals * machine)) : option locals :=
  option_map fst r.

(** [cached_image] at the head of the loop when the install image is the
    descriptor alone: the 64 bytes of the descriptor, then the zeros the
    array held before. *)
Definition staged_descriptor : mem :=
  store (staged_copy descriptor_only (power_on (flash_with multiboot_reference)))
        BOOT_SELECTOR x04.

(** The loop is at locals [l0] on machine [m0]: the sector at [a] does not
    hold what RAM holds at the matching offset from [current_ptr]. *)
Definition sector_differs (l0 : locals) (m0 : machine) (a : Z) : Prop :=
  exists j, 0 <= j < SPI_ERASE_SECTOR_SIZE /\
            flash m0 (a + j)
            <> cached_image m0 (current_ptr l0 + (a - target_addr l0) + j).

(** State of the loop once the tail sector, met at locals [l0] on machine
    [m0], has been skipped. *)
Definition overrun_inv (l0 : locals) (m0 : machine)
           (l : locals) (m : machine) : Prop :=
  target_addr l0 < target_addr l <= MAX_TARGET_ADDR /\
  target_addr l mod SPI_ERASE_SECTOR_SIZE = 0 /\
  current_ptr l - target_addr l = current_ptr l0 - target_addr l0 /\
  bytes_left l = bytes_left l0 + 4294967296 - (target_addr l - target_addr l0) /\
  cached_image m = cached_image m0 /\
  (exists evs,
      trace m = trace m0 ++ evs /\
      count is_skip_read evs
      = Z.to_nat ((target_addr l - target_addr l0) / SPI_ERASE_SECTOR_SIZE) /\
      (forall a, target_addr l0 < a < target_addr l ->
                 a mod SPI_ERASE_SECTOR_SIZE = 0 ->
                 sector_differs l0 m0 a -> In (EvErase4 a) evs)) /\
  (forall i, target_addr l0 <= i < target_addr l ->
             flash m i = cached_image m0 (current_ptr l0 + (i - target_addr l0))) /\
  (forall i, target_addr l <= i -> flash m i = flash m0 i).

(** The flash of the failing run: sector 0 already holds what is staged
    (the descriptor with its selector at 0x04, then zeros), everything else
    is erased, and the install image sits at 0x40000. *)
Definition padded_flash : mem :=
  fun i => if (0 <=? i) && (i <? SPI_ERASE_SECTOR_SIZE) then staged_descriptor i
           else flash_with multiboot_reference i.

(** ** Grammar of the calls of a run *)

(** Calls of the page loop: light, wait, program, once per page. *)
Inductive page_calls : list event -> Prop :=
| page_calls_nil : page_calls []
| page_calls_cons (c a : Z) (d : list byte) (rest : list event) :
    page_calls rest ->
    page_calls (EvRgbWheel c :: EvBusyWait :: EvWrite a d :: rest).

(** Calls of the [while] loop: per sector the two mode switches around the
    read-back, then either nothing more, or a wait, the erase and the pages. *)
Inductive pass_calls : list event -> Prop :=
| pass_calls_nil : pass_calls []
| pass_calls_skip (rest : list event) :
    pass_calls rest ->
    pass_calls (EvCfg4Write 0x80 :: EvCfg4Write 0x00 :: rest)
| pass_calls_rewrite (a : Z) (pages rest : list event) :
    page_calls pages ->
    pass_calls rest ->
    pass_calls (EvCfg4Write 0x80 :: EvCfg4Write 0x00 :: EvBusyWait :: EvErase4 a
                  :: pages ++ rest).

(** Calls of main.c:151-156. *)
Definition startup_calls : list event :=
  [EvIrqSetmask 0; EvIrqSetie 1; EvRgbInit; EvUsbInit; EvUsbConnect].

(** Calls of a whole run, by the way it ended. *)
Inductive run_calls : outcome -> list event -> Prop :=
| run_calls_validation (code : error_code) :
    code <> SPI_MISMATCH ->
    run_calls (Failed code) (startup_calls ++ [EvRgbModeError])
| run_calls_identity :
    run_calls (Failed SPI_MISMATCH)
              (startup_calls ++ [EvCfg4Write 0; EvBusyWait; EvSpiId; EvRgbModeError])
| run_calls_reboot (loop : list event) :
    pass_calls loop ->
    run_calls Rebooted
              (startup_calls ++ [EvCfg4Write 0; EvBusyWait; EvSpiId] ++ loop
                 ++ [EvRgbModeWriting; EvMsleep 1000] ++ handoff).

(** The calls that send a command to the flash chip. *)
Definition is_flash_command (e : event) : bool :=
  match e with
  | EvErase4 _ | EvWrite _ _ | EvSpiId => true
  | _ => false
  end.

Definition is_busy_wait (e : event) : bool :=
  match e with EvBusyWait => true | _ => false end.

(** Every flash command of [t] comes right after a busy wait; [waited] tells
    whether the call before [t] was one. *)
Fixpoint waits_first (waited : bool) (t : list event) : bool :=
  match t with
  | [] => true
  | e :: t' =>
      (if is_flash_command e then waited else true) && waits_first (is_busy_wait e) t'
  end.

(** The mode a write to the [cfg4] register selects: bit 7 (the 0x80 that
    main.c:210 writes) turns the memory-mapped window on, main.c:192 and
    main.c:212 write 0 to turn it off ("bit-banged mode"). *)
Definition selects_mapped (v : Z) : bool := Z.testbit v 7.

Definition is_cfg4_write (e : event) : bool :=
  match e with EvCfg4Write _ => true | _ => false end.

(** No flash command of [t] is sent while the window is on; [mapped] is the
    mode before [t]. *)
Fixpoint bitbang_only (mapped : bool) (t : list event) : bool :=
  match t with
  | [] => true
  | EvCfg4Write v :: t' => bitbang_only (selects_mapped v) t'
  | e :: t' => (if is_flash_command e then negb mapped else true) && bitbang_only mapped t'
  end.

(** ** Sectors of an image *)

(** The skip check of main.c:213 for the sector at [a], on a flash [f] and a
    staged image [img] that starts at target address 0. *)
Definition sector_same (f img : mem) (a : Z) : bool :=
  skip_check (mkLocals 0 a a 0) (pass_machine img 0 f).

(** Number of sectors that hold bytes of an image of [len] bytes. *)
Definition sectors_of (len : Z) : nat :=
  Z.to_nat ((len + (SPI_ERASE_SECTOR_SIZE - 1)) / SPI_ERASE_SECTOR_SIZE).

(** Start addresses of the first [n] sectors. *)
Definition sector_starts (n : nat) : list Z :=
  map (fun k => SPI_ERASE_SECTOR_SIZE * Z.of_nat k) (seq 0 n).

(** The sector that holds the last bytes of an image whose length is not a
    whole number of sectors does not match on the flash [f]. *)
Definition tail_differs (f img : mem) (len : Z) : Prop :=
  len mod SPI_ERASE_SECTOR_SIZE = 0 \/
  sector_same f img (len - len mod SPI_ERASE_SECTOR_SIZE) = false.

(** State of a pass over [img], [len] bytes, that started on the flash [f]
    with an empty log: [d] sectors are done, the sectors erased so far are
    those among them that did not match, and either the pass is at the start
    of sector [d] with the flash from there on untouched, or it has programmed
    the last bytes of the image. *)
Definition clean_pass_inv (f img : mem) (len : Z)
           (l : locals) (m : machine) : Prop :=
  cached_image m = img /\
  current_ptr l = target_addr l /\
  exists d,
    erase_addrs (trace m)
    = filter (fun a => negb (sector_same f img a)) (sector_starts d) /\
    count is_skip_read (trace m) = d /\
    ((target_addr l = SPI_ERASE_SECTOR_SIZE * Z.of_nat d /\
      target_addr l <= len /\
      bytes_left l = len - target_addr l /\
      (forall i, target_addr l <= i -> flash m i = f i))
     \/
     (d = sectors_of len /\ bytes_left l = 0 /\
      len <= target_addr l < len + SPI_PROGRAM_PAGE_SIZE)).

(** State of any pass over [img], [len] bytes: the image is in the flash
    below the target address. *)
Definition written_inv (img : mem) (len : Z) (l : locals) (m : machine) : Prop :=
  cached_image m = img /\
  current_ptr l = target_addr l /\
  (forall i, 0 <= i < Z.min (target_addr l) len -> flash m i = img i) /\
  (bytes_left l = len - target_addr l /\ target_addr l <= len
   \/ bytes_left l = 0 /\ len <= target_addr l
   \/ bytes_left l = len - target_addr l + 4294967296 /\ len < target_addr l).

(** State of any pass over [img], [len] bytes, that started on the flash [f]
    with an empty log: [d] sectors have been visited (one skip check each),
    the sectors erased so far are those among them whose 4096 bytes did not
    match, and either the image has been programmed to its end, or the pass
    is at the start of sector [d] with the flash from there on untouched and
    [bytes_left] the length less the address, wrapped once the address is
    past the length. *)
Definition visit_inv (f img : mem) (len : Z) (l : locals) (m : machine) : Prop :=
  cached_image m = img /\
  current_ptr l = target_addr l /\
  exists d,
    erase_addrs (trace m)
    = filter (fun a => negb (sector_same f img a)) (sector_starts d) /\
    count is_skip_read (trace m) = d /\
    SPI_ERASE_SECTOR_SIZE * Z.of_nat d <= MAX_TARGET_ADDR /\
    ((bytes_left l = 0 /\ len <= SPI_ERASE_SECTOR_SIZE * Z.of_nat d)
     \/
     (target_addr l = SPI_ERASE_SECTOR_SIZE * Z.of_nat d /\
      (forall i, target_addr l <= i -> flash m i = f i) /\
      (bytes_left l = len - target_addr l /\ target_addr l <= len
       \/ bytes_left l = len - target_addr l + 4294967296 /\ len < target_addr l))).

(** ** The variables left for inspection *)

(** The run has not written the three variables of the identity check. *)
Definition identity_untouched (m m' : machine) : Prop :=
  cached_spi_id m' = cached_spi_id m /\
  read_spi_id m' = read_spi_id m /\
  cached_image_length m' = cached_image_length m.

(** * Properties *)

(** ** Integers, bytes and memories *)

Ltac consts :=
  cbv [SPI_ERASE_SECTOR_SIZE SPI_PROGRAM_PAGE_SIZE SPI_MAPPED_BASE IMAGE_SOURCE
       MAX_TARGET_ADDR BOOT_SELECTOR BOOSTER_SECTOR sizeof_cached_image] in *.

Lemma wrap32_small (z : Z) : 0 <= z < 4294967296 -> wrap32 z = z.
Proof. intros H. unfold wrap32. change (2 ^ 32) with 4294967296. now apply Z.mod_small. Qed.

Lemma wrap32_underflow (z : Z) :
  -4294967296 <= z < 0 -> wrap32 z = z + 4294967296.
Proof.
  intros H. unfold wrap32. change (2 ^ 32) with 4294967296.
  symmetry. apply Z.mod_unique with (q := -1); lia.
Qed.

Lemma to_N_inj (a b : byte) : Byte.to_N a = Byte.to_N b -> a = b.
Proof.
  intros H. pose proof (Byte.of_to_N a) as Ha. pose proof (Byte.of_to_N b) as Hb.
  rewrite H in Ha. congruence.
Qed.

Lemma byte_and_erased (b : byte) : byte_and xff b = b.
Proof. destruct b; reflexivity. Qed.

Lemma byte_and_zero (b : byte) : byte_and b x00 = x00.
Proof. destruct b; reflexivity. Qed.

Lemma memcmp_zero_iff (a b : mem) (n : nat) : forall pa pb,
  memcmp a pa b pb n = 0 <->
  (forall j, 0 <= j < Z.of_nat n -> a (pa + j) = b (pb + j)).
Proof.
  induction n as [|n IH]; intros pa pb.
  - simpl. split; [intros _ j Hj; lia | reflexivity].
  - cbn [memcmp]. destruct (Byte.eqb (a pa) (b pb)) eqn:E.
    + apply Byte.byte_dec_bl in E. rewrite IH. split.
      * intros H j Hj. destruct (Z.eq_dec j 0) as [->|Hn].
        { now rewrite !Z.add_0_r. }
        { specialize (H (j - 1)).
          replace (pa + 1 + (j - 1)) with (pa + j) in H by lia.
          replace (pb + 1 + (j - 1)) with (pb + j) in H by lia.
          apply H. lia. }
      * intros H j Hj.
        replace (pa + 1 + j) with (pa + (j + 1)) by lia.
        replace (pb + 1 + j) with (pb + (j + 1)) by lia.
        apply H. lia.
    + apply Byte.eqb_false in E. split.
      * intros H. exfalso. apply E. apply to_N_inj. lia.
      * intros H. exfalso. apply E. specialize (H 0).
        rewrite !Z.add_0_r in H. apply H. lia.
Qed.

Lemma read_bytes_length (m : mem) (p n : Z) :
  length (read_bytes m p n) = Z.to_nat n.
Proof. unfold read_bytes. now rewrite length_map, length_seq. Qed.

Lemma nv_ops_app (s t : list event) : nv_ops (s ++ t) = nv_ops s ++ nv_ops t.
Proof. apply filter_app. Qed.

Lemma count_app (p : event -> bool) (s t : list event) :
  count p (s ++ t) = (count p s + count p t)%nat.
Proof. unfold count. now rewrite filter_app, length_app. Qed.

Lemma erase_addrs_app (s t : list event) :
  erase_addrs (s ++ t) = erase_addrs s ++ erase_addrs t.
Proof.
  induction s as [|e s IH]; [reflexivity|].
  destruct e; simpl; rewrite IH; reflexivity.
Qed.

(** What the skip check decides: the sector at [target_addr] holds the 4096
    bytes found at [current_ptr]. *)
Lemma skip_check_true_iff (l : locals) (m : machine) :
  0 <= target_addr l < 4294967296 - SPI_MAPPED_BASE ->
  (skip_check l m = true <->
   forall j, 0 <= j < SPI_ERASE_SECTOR_SIZE ->
             flash m (target_addr l + j) = cached_image m (current_ptr l + j)).
Proof.
  intros Hta. unfold skip_check. rewrite Z.eqb_eq, memcmp_zero_iff.
  rewrite wrap32_small by (consts; lia).
  split; intros H j Hj.
  - specialize (H j). rewrite Z2Nat.id in H by (consts; lia).
    specialize (H Hj). unfold memcpy, mapped in H.
    replace ((0 <=? 0 + j) && (0 + j <? 0 + SPI_ERASE_SECTOR_SIZE)) with true in H
      by (symmetry; apply andb_true_iff; split; [apply Z.leb_le | apply Z.ltb_lt]; lia).
    rewrite <- H. f_equal. lia.
  - rewrite Z2Nat.id in Hj by (consts; lia).
    unfold memcpy, mapped.
    replace ((0 <=? 0 + j) && (0 + j <? 0 + SPI_ERASE_SECTOR_SIZE)) with true
      by (symmetry; apply andb_true_iff; split; [apply Z.leb_le | apply Z.ltb_lt]; lia).
    rewrite <- H by exact Hj. f_equal. lia.
Qed.

(** Projections of a machine after driver calls. *)
Ltac msimpl :=
  cbn [flash cached_image trace error_code_var calculated_hash read_spi_id
       cached_spi_id cached_image_length
       emit set_flash set_cached_image set_error_code set_calculated_hash
       set_read_spi_id set_cached_spi_id set_cached_image_length
       spiBeginWrite spiBeginErase4 picorvspi_cfg4_write rgb_wheel
       rgb_mode_error rgb_mode_writing msleep reboot ftfl_busy_wait
       ftfl_begin_erase_sector erase_booster finish_flashing error
       bytes_left target_addr current_ptr c fst snd] in *.

(** ** The page loop (main.c:224-237) *)

Lemma same_ram_refl (m : machine) : same_ram m m.
Proof. repeat split. Qed.

Lemma same_ram_trans (m1 m2 m3 : machine) :
  same_ram m1 m2 -> same_ram m2 m3 -> same_ram m1 m3.
Proof. unfold same_ram. intuition congruence. Qed.

Section PageLoop.

Variables (l0 : locals) (m0 : machine).
Hypothesis bytes_left_range : 0 <= bytes_left l0 < 4294967296.
Hypothesis target_addr_range : 0 <= target_addr l0 < 4294967296 - SPI_ERASE_SECTOR_SIZE.

Lemma page_inv_start : page_inv l0 m0 0 l0 m0.
Proof.
  unfold page_inv. cbn [Z.of_nat]. rewrite Z.mul_0_r.
  split; [unfold PAGES_PER_SECTOR; lia|].
  split; [now left|].
  split; [lia|].
  split; [lia|].
  split; [lia|].
  split; [apply same_ram_refl|].
  split.
  - intros i. unfold flash_program.
    destruct ((target_addr l0 <=? i) && (i <? target_addr l0 + Z.min 0 (bytes_left l0))) eqn:E;
      [|reflexivity].
    apply andb_true_iff in E. destruct E as [E1 E2].
    apply Z.leb_le in E1. apply Z.ltb_lt in E2. lia.
  - exists []. rewrite app_nil_r. repeat split. constructor.
Qed.

Lemma page_inv_step (k : nat) (l : locals) (m : machine) :
  page_inv l0 m0 k l m ->
  page_cond (SPI_PROGRAM_PAGE_SIZE * Z.of_nat k) l = true ->
  page_inv l0 m0 (S k) (fst (page_body l m)) (snd (page_body l m)).
Proof.
  intros (Hk & Hlast & Hbl & Hta & Hcp & Hram & Hfl & evs & Htr & Hev & Hnv) Hc.
  unfold page_cond in Hc. apply andb_true_iff in Hc. destruct Hc as [Hc1 Hc2].
  apply negb_true_iff, Z.eqb_neq in Hc1. apply Z.ltb_lt in Hc2.
  unfold PAGES_PER_SECTOR in *.
  assert (Hbtw : (if bytes_left l >? SPI_PROGRAM_PAGE_SIZE
                  then SPI_PROGRAM_PAGE_SIZE else bytes_left l)
                 = Z.min SPI_PROGRAM_PAGE_SIZE
                         (bytes_left l0 - SPI_PROGRAM_PAGE_SIZE * Z.of_nat k)).
  { destruct (bytes_left l >? SPI_PROGRAM_PAGE_SIZE) eqn:E.
    - apply Z.gtb_lt in E. consts. lia.
    - rewrite Z.gtb_ltb in E. apply Z.ltb_ge in E. consts. lia. }
  unfold page_inv, page_body, PAGES_PER_SECTOR.
  cbn [fst snd bytes_left target_addr current_ptr].
  rewrite Hbtw. clear Hbtw.
  destruct Hram as (Hr1 & Hr2 & Hr3 & Hr4 & Hr5 & Hr6).
  split; [consts; lia|].
  split; [right; consts; lia|].
  split; [rewrite wrap32_small by (consts; lia); consts; lia|].
  split; [rewrite wrap32_small by (consts; lia); consts; lia|].
  split; [consts; lia|].
  split; [repeat split; assumption|].
  split.
  - intros i. msimpl. rewrite Hr1, Hta, Hcp.
    unfold flash_program at 1. rewrite Hfl. unfold flash_program.
    repeat match goal with
           | |- context [?a <=? ?b] => destruct (Z.leb_spec a b)
           | |- context [?a <? ?b] => destruct (Z.ltb_spec a b)
           end; cbn [andb]; try reflexivity; try (exfalso; consts; lia).
    f_equal. f_equal. lia.
  - exists (evs ++ [EvRgbWheel (wrap8 (c l + 10)); EvBusyWait;
                    page_write (cached_image m0) (target_addr l0) (current_ptr l0)
                               (bytes_left l0) k]).
    split; [|split].
    + msimpl. rewrite Htr, Hr1, Hta, Hcp. unfold page_write.
      rewrite <- !app_assoc. reflexivity.
    + apply Forall_app. split; [assumption|].
      repeat constructor.
    + rewrite nv_ops_app, Hnv. unfold page_writes. rewrite seq_S, map_app.
      reflexivity.
Qed.

Lemma program_pages_from (fuel : nat) : forall k l m,
  page_inv l0 m0 k l m ->
  (PAGES_PER_SECTOR - k <= fuel)%nat ->
  exists k' l' m',
    program_pages fuel (SPI_PROGRAM_PAGE_SIZE * Z.of_nat k) l m = Some (l', m') /\
    page_inv l0 m0 k' l' m' /\
    page_cond (SPI_PROGRAM_PAGE_SIZE * Z.of_nat k') l' = false.
Proof.
  induction fuel as [|fuel IH]; intros k l m Hinv Hfuel.
  - cbn [program_pages].
    destruct (page_cond (SPI_PROGRAM_PAGE_SIZE * Z.of_nat k) l) eqn:Hc.
    + exfalso. unfold page_cond in Hc. apply andb_true_iff in Hc.
      destruct Hc as [_ Hc]. apply Z.ltb_lt in Hc.
      unfold PAGES_PER_SECTOR in Hfuel. consts. lia.
    + exists k, l, m. auto.
  - cbn [program_pages].
    destruct (page_cond (SPI_PROGRAM_PAGE_SIZE * Z.of_nat k) l) eqn:Hc.
    + pose proof (page_inv_step k l m Hinv Hc) as Hstep.
      destruct (page_body l m) as [l1 m1]. cbn [fst snd] in Hstep.
      assert (Hk : (S k <= PAGES_PER_SECTOR)%nat) by (destruct Hstep as [H _]; exact H).
      replace (wrap32 (SPI_PROGRAM_PAGE_SIZE * Z.of_nat k + SPI_PROGRAM_PAGE_SIZE))
        with (SPI_PROGRAM_PAGE_SIZE * Z.of_nat (S k)).
      * apply IH; [exact Hstep | lia].
      * unfold PAGES_PER_SECTOR in Hk. rewrite wrap32_small by (consts; lia).
        consts. lia.
    + exists k, l, m. auto.
Qed.

(** The [for] loop always ends within the sixteen pages of a sector. *)
Lemma program_pages_sector :
  exists k l' m',
    program_pages PAGES_PER_SECTOR 0 l0 m0 = Some (l', m') /\
    page_inv l0 m0 k l' m' /\
    page_cond (SPI_PROGRAM_PAGE_SIZE * Z.of_nat k) l' = false.
Proof.
  change 0 with (SPI_PROGRAM_PAGE_SIZE * Z.of_nat 0) at 1.
  apply program_pages_from; [apply page_inv_start | lia].
Qed.

End PageLoop.

(** ** One pass of the [while] loop (main.c:208-238) *)

Lemma same_sector_iff (ta i : Z) :
  ta mod SPI_ERASE_SECTOR_SIZE = 0 ->
  (i / SPI_ERASE_SECTOR_SIZE = ta / SPI_ERASE_SECTOR_SIZE <->
   ta <= i < ta + SPI_ERASE_SECTOR_SIZE).
Proof. consts. intros H. Z.div_mod_to_equations. lia. Qed.

(** A sector that was erased and then programmed with [n] bytes. *)
Lemma sector_programmed (f img : mem) (ta cp n i : Z) :
  ta mod SPI_ERASE_SECTOR_SIZE = 0 ->
  0 <= n <= SPI_ERASE_SECTOR_SIZE ->
  flash_program (flash_erase4 f ta) ta img cp n i =
  if (ta <=? i) && (i <? ta + SPI_ERASE_SECTOR_SIZE)
  then (if i <? ta + n then img (cp + (i - ta)) else xff)
  else f i.
Proof.
  intros Hal Hn. unfold flash_program, flash_erase4.
  pose proof (same_sector_iff ta i Hal) as Hs.
  destruct (Z.eqb_spec (i / SPI_ERASE_SECTOR_SIZE) (ta / SPI_ERASE_SECTOR_SIZE)) as [E|E];
    repeat match goal with
           | |- context [?a <=? ?b] => destruct (Z.leb_spec a b)
           | |- context [?a <? ?b] => destruct (Z.ltb_spec a b)
           end; cbn [andb]; try reflexivity; try (exfalso; lia).
  apply byte_and_erased.
Qed.

Lemma block_cond_true (l : locals) :
  block_cond l = true <-> bytes_left l <> 0 /\ target_addr l < MAX_TARGET_ADDR.
Proof.
  unfold block_cond. rewrite andb_true_iff, negb_true_iff, Z.eqb_neq, Z.ltb_lt.
  reflexivity.
Qed.

Lemma block_cond_false (l : locals) :
  block_cond l = false <-> bytes_left l = 0 \/ MAX_TARGET_ADDR <= target_addr l.
Proof.
  unfold block_cond. rewrite andb_false_iff, negb_false_iff, Z.eqb_eq, Z.ltb_ge.
  reflexivity.
Qed.

Lemma block_ok_aligned (l : locals) :
  block_ok l -> block_cond l = true ->
  target_addr l mod SPI_ERASE_SECTOR_SIZE = 0 /\
  0 <= target_addr l <= MAX_TARGET_ADDR - SPI_ERASE_SECTOR_SIZE /\
  0 < bytes_left l < 4294967296.
Proof.
  intros (Hbl & Hta & Hal) Hc. apply block_cond_true in Hc. destruct Hc as [Hc1 Hc2].
  destruct Hal as [Hal|Hal]; [contradiction|].
  split; [exact Hal|]. split; [|lia].
  consts. Z.div_mod_to_equations. lia.
Qed.

Lemma block_body_step (l : locals) (m : machine) :
  block_ok l -> block_cond l = true ->
  exists l' m', block_body l m = Some (l', m') /\ block_step l m l' m'.
Proof.
  intros Hok Hc. destruct (block_ok_aligned l Hok Hc) as (Hal & Hta & Hbl).
  unfold block_body.
  change (skip_check l (picorvspi_cfg4_write 128 m)) with (skip_check l m).
  destruct (skip_check l m) eqn:Hs.
  - eexists _, _. split; [reflexivity|].
    apply step_skip; [exact Hs | | reflexivity].
    rewrite (wrap32_small (target_addr l + _)) by (consts; lia). reflexivity.
  - destruct (program_pages_sector l (erased_for l m)) as (k & l' & m' & Hrun & Hinv & Hend);
      [lia | consts; lia |].
    exists l', m'. split; [exact Hrun|].
    destruct Hinv as (Hk & Hlast & Hbl' & Hta' & Hcp' & Hram & Hfl & evs & Htr & Hev & Hnv).
    assert (Hk1 : (1 <= k)%nat).
    { destruct k; [|lia]. exfalso.
      unfold page_cond in Hend. apply andb_false_iff in Hend.
      rewrite negb_false_iff, Z.eqb_eq, Z.ltb_ge in Hend.
      cbn [Z.of_nat] in *. consts. lia. }
    apply step_program with (k := k) (evs := evs); try assumption.
    + lia.
    + destruct Hlast; lia.
    + unfold page_cond in Hend. apply andb_false_iff in Hend.
      rewrite negb_false_iff, Z.eqb_eq, Z.ltb_ge in Hend.
      destruct Hend as [H|H]; [now left|right].
      unfold PAGES_PER_SECTOR in *. consts. lia.
    + rewrite Htr. unfold erased_for. msimpl. rewrite <- !app_assoc. reflexivity.
    + intros i. rewrite Hfl. unfold erased_for. msimpl.
      apply sector_programmed; [exact Hal|].
      unfold PAGES_PER_SECTOR in *. consts. lia.
Qed.

Lemma block_step_ok (l : locals) (m : machine) (l' : locals) (m' : machine) :
  block_ok l -> block_cond l = true -> block_step l m l' m' ->
  block_ok l' /\
  (target_addr l' = target_addr l + SPI_ERASE_SECTOR_SIZE \/
   bytes_left l' = 0 /\
   target_addr l < target_addr l' <= target_addr l + SPI_ERASE_SECTOR_SIZE).
Proof.
  intros Hok Hc Hstep. destruct (block_ok_aligned l Hok Hc) as (Hal & Hta & Hbl).
  destruct Hstep as [Hs -> ->|k evs Hs Hk Hlast Hbl' Hend Hta' Hcp' Hram Htr Hev Hnv Hfl].
  - split; [|left; reflexivity].
    unfold block_ok. cbn [bytes_left target_addr].
    split; [unfold wrap32; change (2 ^ 32) with 4294967296; apply Z.mod_pos_bound; lia|].
    split; [consts; lia|].
    right. consts. Z.div_mod_to_equations. lia.
  - unfold PAGES_PER_SECTOR in *. split.
    + unfold block_ok. split; [consts; lia|]. split; [consts; lia|].
      destruct Hend as [H|H]; [now left|right].
      subst k. rewrite Hta'. consts. Z.div_mod_to_equations. lia.
    + destruct Hend as [H|H]; [right|left].
      * split; [exact H|]. consts. lia.
      * subst k. rewrite Hta'. consts. lia.
Qed.

Lemma block_step_same_ram (l : locals) (m : machine) (l' : locals) (m' : machine) :
  block_step l m l' m' -> same_ram m m'.
Proof.
  intros [Hs -> ->|k evs Hs Hk Hlast Hbl' Hend Hta' Hcp' Hram Htr Hev Hnv Hfl].
  - repeat split.
  - exact Hram.
Qed.

(** The rule of the [while] loop: thirty-two passes are always enough, and
    what every pass preserves holds at the exit. *)
Lemma program_blocks_rule (P : locals -> machine -> Prop) :
  (forall l m l' m',
      block_ok l -> block_cond l = true -> P l m ->
      block_step l m l' m' -> P l' m') ->
  forall fuel l m,
    block_ok l -> P l m ->
    (block_cond l = true ->
     MAX_TARGET_ADDR - target_addr l <= SPI_ERASE_SECTOR_SIZE * Z.of_nat fuel) ->
    exists l' m',
      program_blocks fuel l m = Some (l', m') /\
      P l' m' /\ block_ok l' /\ block_cond l' = false.
Proof.
  intros Hpres. induction fuel as [|fuel IH]; intros l m Hok HP Hfuel.
  - cbn [program_blocks]. destruct (block_cond l) eqn:Hc.
    + exfalso. specialize (Hfuel eq_refl). apply block_cond_true in Hc.
      cbn [Z.of_nat] in Hfuel. lia.
    + exists l, m. auto.
  - cbn [program_blocks]. destruct (block_cond l) eqn:Hc.
    + destruct (block_body_step l m Hok Hc) as (l1 & m1 & Hbody & Hstep).
      rewrite Hbody.
      destruct (block_step_ok l m l1 m1 Hok Hc Hstep) as (Hok1 & Hadv).
      apply IH; [exact Hok1 | exact (Hpres l m l1 m1 Hok Hc HP Hstep) |].
      intros Hc1. specialize (Hfuel eq_refl). apply block_cond_true in Hc1.
      destruct Hadv as [H|[H _]]; [|tauto].
      rewrite H. consts. lia.
    + exists l, m. auto.
Qed.

(** Running with more fuel than needed changes nothing. *)
Lemma program_pages_fuel_mono (fuel : nat) : forall po l m r,
  program_pages fuel po l m = Some r ->
  forall fuel', (fuel <= fuel')%nat -> program_pages fuel' po l m = Some r.
Proof.
  induction fuel as [|fuel IH]; intros po l m r H fuel' Hle.
  - cbn [program_pages] in H. destruct (page_cond po l) eqn:Hc; [discriminate|].
    destruct fuel'; cbn [program_pages]; rewrite Hc; exact H.
  - destruct fuel' as [|fuel']; [lia|].
    cbn [program_pages] in *. destruct (page_cond po l); [|exact H].
    destruct (page_body l m) as [l1 m1]. apply IH with (fuel' := fuel') in H; [exact H|lia].
Qed.

Lemma program_blocks_fuel_mono (fuel : nat) : forall l m r,
  program_blocks fuel l m = Some r ->
  forall fuel', (fuel <= fuel')%nat -> program_blocks fuel' l m = Some r.
Proof.
  induction fuel as [|fuel IH]; intros l m r H fuel' Hle.
  - cbn [program_blocks] in H. destruct (block_cond l) eqn:Hc; [discriminate|].
    destruct fuel'; cbn [program_blocks]; rewrite Hc; exact H.
  - destruct fuel' as [|fuel']; [lia|].
    cbn [program_blocks] in *. destruct (block_cond l); [|exact H].
    destruct (block_body l m) as [[l1 m1]|]; [|discriminate].
    apply IH with (fuel' := fuel') in H; [exact H|lia].
Qed.

(** The locals and the machine at the head of the loop (main.c:200-206). *)
Lemma loop_entry_ok (m : machine) :
  0 <= cached_image_length m < 4294967296 -> block_ok (loop_entry m).
Proof.
  intros H. unfold block_ok, loop_entry. cbn [bytes_left target_addr].
  split; [exact H|]. split; [consts; lia|]. right. reflexivity.
Qed.

Lemma fuel_from_zero (fuel : nat) (m : machine) :
  (32 <= fuel)%nat ->
  block_cond (loop_entry m) = true ->
  MAX_TARGET_ADDR - target_addr (loop_entry m) <= SPI_ERASE_SECTOR_SIZE * Z.of_nat fuel.
Proof. intros H _. cbn [loop_entry target_addr]. consts. lia. Qed.

(** ** Validation (main.c:159-186) and identity check (main.c:188-198) *)

Lemma startup_frame (m : machine) :
  flash (startup m) = flash m /\
  same_ram m (startup m) /\
  trace (startup m) =
  trace m ++ [EvIrqSetmask 0; EvIrqSetie 1; EvRgbInit; EvUsbInit; EvUsbConnect].
Proof.
  unfold startup. msimpl. split; [reflexivity|]. split; [repeat split|].
  rewrite <- !app_assoc. reflexivity.
Qed.

Section Validation.

Variable XXH32 : list byte -> Z -> Z.

(** The four ways [validate] can end. *)
Lemma validate_cases (inp : booster_input) (m : machine) :
  (image_length inp > sizeof_cached_image /\
   validate XXH32 inp m = Halt INVALID_IMAGE_SIZE (error INVALID_IMAGE_SIZE m))
  \/
  (image_length inp <= sizeof_cached_image /\
   hash_of_source XXH32 inp m <> xxhash inp /\
   validate XXH32 inp m =
   Halt HASH_MISMATCH
        (error HASH_MISMATCH (set_calculated_hash (hash_of_source XXH32 inp m) m)))
  \/
  (image_length inp <= sizeof_cached_image /\
   hash_of_source XXH32 inp m = xxhash inp /\
   multiboot_ok (staged_copy inp m) = false /\
   validate XXH32 inp m =
   Halt MISSING_MULTIBOOT
        (error MISSING_MULTIBOOT
               (set_cached_image (staged_copy inp m)
                  (set_calculated_hash (hash_of_source XXH32 inp m) m))))
  \/
  (image_length inp <= sizeof_cached_image /\
   hash_of_source XXH32 inp m = xxhash inp /\
   multiboot_ok (staged_copy inp m) = true /\
   validate XXH32 inp m =
   Continue (set_cached_image (store (staged_copy inp m) BOOT_SELECTOR x04)
               (set_calculated_hash (hash_of_source XXH32 inp m) m))).
Proof.
  unfold validate.
  destruct (image_length inp >? sizeof_cached_image) eqn:Esz.
  { left. split; [apply Z.gtb_lt in Esz; lia | reflexivity]. }
  right. rewrite Z.gtb_ltb in Esz. apply Z.ltb_ge in Esz.
  msimpl.
  destruct (Z.eqb_spec (hash_of_source XXH32 inp m) (xxhash inp)) as [Eh|Eh]; cbn [negb].
  2:{ left. auto. }
  right.
  change (staged_copy inp (set_calculated_hash (hash_of_source XXH32 inp m) m))
    with (staged_copy inp m).
  destruct (multiboot_ok (staged_copy inp m)) eqn:Emb; cbn [negb].
  - right. auto.
  - left. auto.
Qed.

(** [validate] never touches the flash and issues no flash command. *)
Lemma validate_frame (inp : booster_input) (m : machine) :
  match validate XXH32 inp m with
  | Continue m' => flash m' = flash m /\ trace m' = trace m
  | Halt code m' =>
      flash m' = flash m /\ trace m' = trace m ++ [EvRgbModeError] /\
      error_code_var m' = code /\ code <> NO_ERROR /\ code <> SPI_MISMATCH
  end.
Proof.
  destruct (validate_cases inp m)
    as [(_ & ->)|[(_ & _ & ->)|[(_ & _ & _ & ->)|(_ & _ & _ & ->)]]];
    msimpl; repeat split; discriminate.
Qed.

Lemma confirm_identity_cases (inp : booster_input) (m : machine) :
  let m' := set_read_spi_id (spiId_answer inp)
              (emit EvSpiId
                 (ftfl_busy_wait
                    (picorvspi_cfg4_write 0
                       (set_cached_image_length (image_length inp)
                          (set_cached_spi_id (spi_id inp) m))))) in
  (spi_id inp <> spiId_answer inp /\
   confirm_identity inp m = Halt SPI_MISMATCH (error SPI_MISMATCH m'))
  \/
  (spi_id inp = spiId_answer inp /\ confirm_identity inp m = Continue m').
Proof.
  unfold confirm_identity. msimpl.
  destruct (Z.eqb_spec (spi_id inp) (spiId_answer inp)) as [E|E]; cbn [negb]; auto.
Qed.

Lemma confirm_identity_frame (inp : booster_input) (m : machine) :
  match confirm_identity inp m with
  | Continue m' =>
      flash m' = flash m /\ cached_image m' = cached_image m /\
      cached_image_length m' = image_length inp /\
      trace m' = trace m ++ [EvCfg4Write 0; EvBusyWait; EvSpiId]
  | Halt code m' =>
      flash m' = flash m /\ cached_image m' = cached_image m /\
      trace m' = trace m ++ [EvCfg4Write 0; EvBusyWait; EvSpiId; EvRgbModeError] /\
      error_code_var m' = code /\ code = SPI_MISMATCH
  end.
Proof.
  destruct (confirm_identity_cases inp m) as [(_ & ->)|(_ & ->)];
    msimpl; rewrite <- !app_assoc; repeat split.
Qed.

End Validation.

(** ** Failure paths *)

Section Failures.

Variable XXH32 : list byte -> Z -> Z.

(** A run that ends in [error] has left the flash and its command log as
    they were, and has latched one of the four codes. *)
Lemma failed_run_frame (fuel : nat) (inp : booster_input) (m : machine)
      (code : error_code) (m' : machine) :
  fobooster_main XXH32 fuel inp m = Some (Failed code, m') ->
  flash m' = flash m /\
  nv_ops (trace m') = nv_ops (trace m) /\
  error_code_var m' = code /\
  code <> NO_ERROR /\
  exists t, trace m' = t ++ [EvRgbModeError].
Proof.
  unfold fobooster_main. intros H.
  destruct (startup_frame m) as (Hf0 & _ & Ht0).
  pose proof (validate_frame XXH32 inp (startup m)) as Hv.
  destruct (validate XXH32 inp (startup m)) as [m1|code1 m1].
  - destruct Hv as (Hf1 & Ht1).
    pose proof (confirm_identity_frame inp m1) as Hc.
    destruct (confirm_identity inp m1) as [m2|code2 m2].
    + destruct (program_blocks fuel (loop_entry m2) m2) as [[l3 m3]|]; discriminate.
    + injection H as <- <-. destruct Hc as (Hf2 & _ & Ht2 & He & ->).
      split; [congruence|]. split.
      * rewrite Ht2, Ht1, Ht0, !nv_ops_app. cbn. now rewrite !app_nil_r.
      * split; [exact He|]. split; [discriminate|].
        exists (trace m1 ++ [EvCfg4Write 0; EvBusyWait; EvSpiId]).
        rewrite Ht2, <- app_assoc. reflexivity.
  - injection H as <- <-. destruct Hv as (Hf1 & Ht1 & He & Hne & _).
    split; [congruence|]. split.
    + rewrite Ht1, Ht0, !nv_ops_app. cbn. now rewrite !app_nil_r.
    + split; [exact He|]. split; [exact Hne|]. now exists (trace (startup m)).
Qed.

End Failures.

(** C1.  Whenever a run ends in [error] -- with INVALID_IMAGE_SIZE,
    HASH_MISMATCH, MISSING_MULTIBOOT or SPI_MISMATCH -- no erase and no
    program command has been issued since the run started, the flash holds
    what it held at the start, the code is latched, and the last call is the
    error indication after which [error] spins.  All four checks therefore
    come before the first command that changes the non-volatile memory. *)
Theorem failure_precedes_flash_commands
        (XXH32 : list byte -> Z -> Z) (fuel : nat) (inp : booster_input)
        (m : machine) (code : error_code) (m' : machine) :
  fobooster_main XXH32 fuel inp m = Some (Failed code, m') ->
  nv_ops (trace m') = nv_ops (trace m) /\
  flash m' = flash m /\
  error_code_var m' = code /\
  (code = INVALID_IMAGE_SIZE \/ code = HASH_MISMATCH \/
   code = SPI_MISMATCH \/ code = MISSING_MULTIBOOT) /\
  exists t, trace m' = t ++ [EvRgbModeError].
Proof.
  intros H. destruct (failed_run_frame XXH32 fuel inp m code m' H)
    as (Hf & Hnv & He & Hne & Ht).
  repeat split; try assumption.
  destruct code; auto. contradiction.
Qed.

Lemma run_result (r : option (outcome * machine)) (o : outcome) (d : machine) :
  outcome_of r = Some o -> r = Some (o, final_of r d).
Proof.
  destruct r as [[o' m']|]; cbn; [|discriminate].
  intros H. injection H as ->. reflexivity.
Qed.

(** A run on a chip that reports a foreign identity: it fails with
    SPI_MISMATCH, the last of the four checks. *)
Lemma failure_precedes_flash_commands_witness :
  let m := power_on (flash_with multiboot_reference) in
  let r := fobooster_main sum_hash 32 foreign_chip m in
  outcome_of r = Some (Failed SPI_MISMATCH) /\
  nv_ops (trace (final_of r m)) = nv_ops (trace m) /\
  flash (final_of r m) = flash m.
Proof.
  intros m r.
  assert (Hrun : outcome_of r = Some (Failed SPI_MISMATCH)) by (vm_compute; reflexivity).
  split; [exact Hrun|].
  pose proof (failure_precedes_flash_commands sum_hash 32 foreign_chip m
                SPI_MISMATCH (final_of r m) (run_result r _ m Hrun)) as H.
  destruct H as (H1 & H2 & _). split; [exact H1 | exact H2].
Defined.

(** C7.  When the declared length exceeds [sizeof(cached_image)] (0x1a000)
    the run ends with INVALID_IMAGE_SIZE; [cached_image] then still holds
    what it held before (nothing was copied), no hash was computed, the flash
    is unchanged and no erase or program command was issued. *)
Theorem oversized_image_is_rejected
        (XXH32 : list byte -> Z -> Z) (fuel : nat) (inp : booster_input)
        (m : machine) :
  image_length inp > sizeof_cached_image ->
  exists m',
    fobooster_main XXH32 fuel inp m = Some (Failed INVALID_IMAGE_SIZE, m') /\
    error_code_var m' = INVALID_IMAGE_SIZE /\
    cached_image m' = cached_image m /\
    calculated_hash m' = calculated_hash m /\
    flash m' = flash m /\
    nv_ops (trace m') = nv_ops (trace m).
Proof.
  intros Hsz. unfold fobooster_main.
  destruct (validate_cases XXH32 inp (startup m))
    as [(_ & ->)|[(H & _)|[(H & _)|(H & _)]]]; try lia.
  eexists. split; [reflexivity|]. msimpl.
  repeat split.
  unfold startup. msimpl. rewrite !nv_ops_app. cbn. now rewrite !app_nil_r.
Qed.

Lemma oversized_image_is_rejected_witness :
  let m := power_on (flash_with multiboot_reference) in
  exists m',
    fobooster_main sum_hash 32 oversized m = Some (Failed INVALID_IMAGE_SIZE, m') /\
    cached_image m' = cached_image m /\
    flash m' = flash m /\
    nv_ops (trace m') = [].
Proof.
  intros m.
  destruct (oversized_image_is_rejected sum_hash 32 oversized m)
    as (m' & Hrun & _ & Hram & _ & Hfl & Hnv).
  - cbn. reflexivity.
  - exists m'. repeat split; assumption.
Defined.

(** C8.  When the size check has passed, the hash is [XXH32] of the
    [hash_length] bytes found at 0x20040000, seeded with [image_seed]; it is
    stored in [calculated_hash]; [image_length] has no part in it; and when
    it differs from [booster_data.xxhash] the run ends with HASH_MISMATCH. *)
Theorem hash_mismatch_is_rejected
        (XXH32 : list byte -> Z -> Z) (fuel : nat) (inp : booster_input)
        (m : machine) :
  image_length inp <= sizeof_cached_image ->
  XXH32 (read_bytes (mapped (flash m)) IMAGE_SOURCE (hash_length inp)) (image_seed inp)
  <> xxhash inp ->
  (exists m',
      fobooster_main XXH32 fuel inp m = Some (Failed HASH_MISMATCH, m') /\
      error_code_var m' = HASH_MISMATCH /\
      calculated_hash m' =
      XXH32 (read_bytes (mapped (flash m)) IMAGE_SOURCE (hash_length inp))
            (image_seed inp)) /\
  length (read_bytes (mapped (flash m)) IMAGE_SOURCE (hash_length inp))
  = Z.to_nat (hash_length inp) /\
  (forall len' : Z,
      hash_of_source XXH32
        (mkInput len' (hash_length inp) (image_seed inp) (spi_id inp)
                 (xxhash inp) (spiId_answer inp)) m
      = hash_of_source XXH32 inp m).
Proof.
  intros Hsz Hh. split; [|split].
  - unfold fobooster_main.
    destruct (validate_cases XXH32 inp (startup m))
      as [(H & _)|[(_ & _ & ->)|[(_ & H & _)|(_ & H & _)]]];
      try lia; try (exfalso; apply Hh; exact H).
    eexists. split; [reflexivity|]. msimpl. split; reflexivity.
  - apply read_bytes_length.
  - intros len'. reflexivity.
Qed.

Lemma hash_mismatch_is_rejected_witness :
  let m := power_on (flash_with multiboot_reference) in
  exists m',
    fobooster_main sum_hash 32 wrong_hash m = Some (Failed HASH_MISMATCH, m') /\
    calculated_hash m' = 2186.
Proof.
  intros m.
  destruct (hash_mismatch_is_rejected sum_hash 32 wrong_hash m)
    as ((m' & Hrun & _ & Hh) & _).
  - cbn. discriminate.
  - vm_compute. discriminate.
  - exists m'. split; [exact Hrun|]. rewrite Hh. vm_compute. reflexivity.
Defined.

(** ** The boot descriptor (main.c:176-186) *)

Lemma multiboot_scan_true (img : mem) (n : nat) : forall ta,
  0 <= ta -> ta + Z.of_nat n < 4294967296 ->
  (multiboot_scan n ta img = true <->
   forall i, ta <= i < ta + Z.of_nat n ->
             img i = nth (Z.to_nat i) multiboot_reference x00).
Proof.
  induction n as [|n IH]; intros ta H0 Hn.
  - cbn. split; [intros _ i Hi; lia | reflexivity].
  - cbn [multiboot_scan].
    destruct (Byte.eqb (img ta) (nth (Z.to_nat ta) multiboot_reference x00)) eqn:E.
    + apply Byte.byte_dec_bl in E.
      rewrite wrap32_small by lia. rewrite IH by lia. split.
      * intros H i Hi. destruct (Z.eq_dec i ta) as [->|Hne]; [exact E|].
        apply H. lia.
      * intros H i Hi. apply H. lia.
    + apply Byte.eqb_false in E. split; [discriminate|].
      intros H. exfalso. apply E. apply H. lia.
Qed.

Lemma multiboot_scan_false (img : mem) (n : nat) : forall ta,
  0 <= ta -> ta + Z.of_nat n < 4294967296 ->
  multiboot_scan n ta img = false ->
  exists i, ta <= i < ta + Z.of_nat n /\
            img i <> nth (Z.to_nat i) multiboot_reference x00.
Proof.
  induction n as [|n IH]; intros ta H0 Hn H.
  - discriminate.
  - cbn [multiboot_scan] in H.
    destruct (Byte.eqb (img ta) (nth (Z.to_nat ta) multiboot_reference x00)) eqn:E.
    + rewrite wrap32_small in H by lia.
      apply IH in H; [|lia|lia]. destruct H as (i & Hi & Hd).
      exists i. split; [lia|exact Hd].
    + apply Byte.eqb_false in E. exists ta. split; [lia|exact E].
Qed.

(** The descriptor check passes exactly when all 64 bytes are the ones of
    [multiboot_reference]. *)
Lemma multiboot_ok_true (img : mem) :
  multiboot_ok img = true <->
  forall i, 0 <= i < sizeof_multiboot_reference ->
            img i = nth (Z.to_nat i) multiboot_reference x00.
Proof.
  unfold multiboot_ok.
  change (Z.to_nat sizeof_multiboot_reference) with 64%nat.
  change sizeof_multiboot_reference with (0 + Z.of_nat 64).
  apply multiboot_scan_true; lia.
Qed.

Lemma multiboot_ok_false (img : mem) :
  multiboot_ok img = false <->
  exists i, 0 <= i < sizeof_multiboot_reference /\
            img i <> nth (Z.to_nat i) multiboot_reference x00.
Proof.
  split.
  - intros H. unfold multiboot_ok in H.
    change (Z.to_nat sizeof_multiboot_reference) with 64%nat in H.
    change sizeof_multiboot_reference with (0 + Z.of_nat 64).
    apply multiboot_scan_false in H; [exact H | lia | lia].
  - intros (i & Hi & Hd). destruct (multiboot_ok img) eqn:E; [|reflexivity].
    exfalso. apply Hd. now apply (proj1 (multiboot_ok_true img) E).
Qed.

(** C2, as stated, fails: an image that differs from the reference in the
    selector byte alone passes the size and hash checks, is staged, and is
    then refused with MISSING_MULTIBOOT. *)
Lemma selector_byte_is_compared :
  let m := power_on (flash_with selector_cleared) in
  differs_in_selector_only (staged_copy selector_cleared_input m) = true /\
  outcome_of (fobooster_main sum_hash 32 selector_cleared_input m)
  = Some (Failed MISSING_MULTIBOOT).
Proof. intros m. split; vm_compute; reflexivity. Qed.

(** C2, amended.  A staged image (one that passed the size and the hash
    check) is refused with MISSING_MULTIBOOT exactly when one of its first 64
    bytes differs from [multiboot_reference]; offset 9, where the reference
    holds 0x04, is compared like every other offset. *)
Theorem descriptor_is_compared_exactly
        (XXH32 : list byte -> Z -> Z) (fuel : nat) (inp : booster_input)
        (m : machine) :
  image_length inp <= sizeof_cached_image ->
  hash_of_source XXH32 inp m = xxhash inp ->
  ((exists i, 0 <= i < sizeof_multiboot_reference /\
              staged_copy inp m i <> nth (Z.to_nat i) multiboot_reference x00)
   <->
   exists m', fobooster_main XXH32 fuel inp m = Some (Failed MISSING_MULTIBOOT, m'))
  /\ nth (Z.to_nat BOOT_SELECTOR) multiboot_reference x00 = x04.
Proof.
  intros Hsz Hh. split; [|reflexivity].
  rewrite <- multiboot_ok_false. unfold fobooster_main.
  change (staged_copy inp m) with (staged_copy inp (startup m)).
  destruct (validate_cases XXH32 inp (startup m))
    as [(H & _)|[(_ & H & _)|[(_ & _ & Hmb & ->)|(_ & _ & Hmb & ->)]]];
    try lia; try (exfalso; apply H; exact Hh).
  - split; [intros _; eexists; reflexivity | intros _; exact Hmb].
  - split; [rewrite Hmb; discriminate|].
    intros (m' & H). exfalso.
    match type of H with
    | context [confirm_identity ?i ?m1] =>
        pose proof (confirm_identity_frame i m1) as Hc;
        destruct (confirm_identity i m1) as [m2|code2 m2]
    end.
    + destruct (program_blocks fuel (loop_entry m2) m2) as [[l3 m3]|]; discriminate.
    + destruct Hc as (_ & _ & _ & _ & ->). discriminate.
Qed.

Lemma descriptor_is_compared_exactly_witness :
  let m := power_on (flash_with selector_cleared) in
  exists m',
    fobooster_main sum_hash 32 selector_cleared_input m
    = Some (Failed MISSING_MULTIBOOT, m').
Proof.
  intros m.
  destruct (descriptor_is_compared_exactly sum_hash 32 selector_cleared_input m)
    as (H & _).
  - cbn. discriminate.
  - vm_compute. reflexivity.
  - apply H. exists 9. split; [cbn; lia|]. vm_compute. discriminate.
Defined.

(** ** What the programming loop can do *)

Lemma page_writes_in (img : mem) (ta cp bl : Z) (k : nat) (e : event) :
  In e (page_writes img ta cp bl k) ->
  exists j, (j < k)%nat /\ e = page_write img ta cp bl j.
Proof.
  unfold page_writes. rewrite in_map_iff. intros (j & <- & Hj).
  apply in_seq in Hj. exists j. split; [lia|reflexivity].
Qed.

Lemma page_events_in_range (img : mem) (ta cp bl : Z) (k : nat) (evs : list event) :
  ta mod SPI_ERASE_SECTOR_SIZE = 0 ->
  0 <= ta <= MAX_TARGET_ADDR - SPI_ERASE_SECTOR_SIZE ->
  (k <= PAGES_PER_SECTOR)%nat ->
  Forall page_event evs ->
  nv_ops evs = page_writes img ta cp bl k ->
  Forall loop_event evs.
Proof.
  intros Hal Hta Hk Hev Hnv. rewrite Forall_forall in *. intros e He.
  specialize (Hev e He). destruct e; cbn in Hev; try contradiction; cbn; auto.
  assert (Hin : In (EvWrite addr data) (nv_ops evs)).
  { unfold nv_ops. apply filter_In. split; [exact He|reflexivity]. }
  rewrite Hnv in Hin. apply page_writes_in in Hin. destruct Hin as (j & Hj & E).
  unfold page_write in E.
  assert (Ea : addr = ta + SPI_PROGRAM_PAGE_SIZE * Z.of_nat j) by congruence.
  assert (Ed : data = read_bytes img (cp + SPI_PROGRAM_PAGE_SIZE * Z.of_nat j)
                        (Z.min SPI_PROGRAM_PAGE_SIZE
                               (bl - SPI_PROGRAM_PAGE_SIZE * Z.of_nat j)))
    by congruence.
  clear E He. subst addr data.
  unfold PAGES_PER_SECTOR in *. rewrite read_bytes_length.
  split; [consts; lia|]. split.
  - consts. Z.div_mod_to_equations. lia.
  - consts. lia.
Qed.

Lemma block_step_events (l : locals) (m : machine) (l' : locals) (m' : machine) :
  block_ok l -> block_cond l = true -> block_step l m l' m' ->
  (exists evs, trace m' = trace m ++ evs /\ Forall loop_event evs) /\
  (forall i, i < target_addr l \/ target_addr l + SPI_ERASE_SECTOR_SIZE <= i ->
             flash m' i = flash m i).
Proof.
  intros Hok Hc Hstep. destruct (block_ok_aligned l Hok Hc) as (Hal & Hta & Hbl).
  destruct Hstep as [Hs -> ->|k evs Hs Hk Hlast Hbl' Hend Hta' Hcp' Hram Htr Hev Hnv Hfl].
  - split; [|reflexivity].
    exists [EvCfg4Write 0x80; EvCfg4Write 0x00]. split.
    + msimpl. rewrite <- app_assoc. reflexivity.
    + repeat constructor.
  - split.
    + eexists. split; [exact Htr|].
      apply Forall_app. split.
      * do 3 (constructor; [exact I|]). constructor; [|constructor].
        split; [consts; lia | exact Hal].
      * apply page_events_in_range
          with (img := cached_image m) (ta := target_addr l) (cp := current_ptr l)
               (bl := bytes_left l) (k := k);
          [exact Hal | exact Hta | lia | exact Hev | exact Hnv].
    + intros i Hi. rewrite Hfl.
      destruct (Z.leb_spec (target_addr l) i); destruct (Z.ltb_spec i (target_addr l + SPI_ERASE_SECTOR_SIZE));
        cbn [andb]; try reflexivity; lia.
Qed.

(** From any state in which the [while] condition can be evaluated, the loop
    ends; it changes the flash only from the current target address up to
    the bound, and only through [loop_event]s. *)
Lemma program_blocks_frame (fuel : nat) (l : locals) (m : machine) :
  block_ok l ->
  (block_cond l = true ->
   MAX_TARGET_ADDR - target_addr l <= SPI_ERASE_SECTOR_SIZE * Z.of_nat fuel) ->
  exists l' m',
    program_blocks fuel l m = Some (l', m') /\
    block_cond l' = false /\ block_ok l' /\
    same_ram m m' /\
    (exists evs, trace m' = trace m ++ evs /\ Forall loop_event evs) /\
    (forall i, i < target_addr l \/ MAX_TARGET_ADDR <= i -> flash m' i = flash m i).
Proof.
  intros Hok Hfuel.
  destruct (program_blocks_rule
              (fun l1 m1 =>
                 target_addr l <= target_addr l1 /\
                 same_ram m m1 /\
                 (exists evs, trace m1 = trace m ++ evs /\ Forall loop_event evs) /\
                 (forall i, i < target_addr l \/ MAX_TARGET_ADDR <= i ->
                            flash m1 i = flash m i)))
    with (fuel := fuel) (l := l) (m := m) as (l' & m' & Hrun & HP & Hok' & Hc');
    try assumption.
  - intros l1 m1 l2 m2 Hok1 Hc1 (Hle & Hram & (evs & Htr & Hev) & Hfl) Hstep.
    destruct (block_step_ok l1 m1 l2 m2 Hok1 Hc1 Hstep) as (_ & Hadv).
    destruct (block_step_events l1 m1 l2 m2 Hok1 Hc1 Hstep) as ((evs' & Htr' & Hev') & Hfl').
    destruct (block_ok_aligned l1 Hok1 Hc1) as (_ & Hta1 & _).
    split; [consts; lia|].
    split; [eapply same_ram_trans; [exact Hram | eapply block_step_same_ram; exact Hstep]|].
    split.
    + exists (evs ++ evs'). split; [rewrite Htr', Htr, app_assoc; reflexivity|].
      apply Forall_app. auto.
    + intros i Hi. rewrite Hfl', Hfl; [reflexivity|exact Hi|consts; lia].
  - split; [lia|]. split; [apply same_ram_refl|]. split; [|reflexivity].
    exists []. rewrite app_nil_r. split; [reflexivity|constructor].
  - exists l', m'. destruct HP as (_ & Hram & Hev & Hfl). auto 10.
Qed.

(** The same, for any amount of fuel that let the loop end. *)
Lemma program_blocks_result (fuel : nat) (l : locals) (m : machine)
      (l' : locals) (m' : machine) :
  block_ok l ->
  program_blocks fuel l m = Some (l', m') ->
  block_cond l' = false /\ block_ok l' /\
  same_ram m m' /\
  (exists evs, trace m' = trace m ++ evs /\ Forall loop_event evs) /\
  (forall i, i < target_addr l \/ MAX_TARGET_ADDR <= i -> flash m' i = flash m i).
Proof.
  intros Hok Hrun.
  destruct (program_blocks_frame (fuel + 32) l m Hok)
    as (l1 & m1 & Hrun1 & Hrest).
  - intros _. destruct Hok as (_ & Hta & _). consts. lia.
  - apply program_blocks_fuel_mono with (fuel' := (fuel + 32)%nat) in Hrun; [|lia].
    rewrite Hrun in Hrun1. injection Hrun1 as <- <-. exact Hrest.
Qed.

(** ** Whole runs *)

Section Runs.

Variable XXH32 : list byte -> Z -> Z.

Lemma run_reaches_loop (inp : booster_input) (m : machine) :
  checks_pass XXH32 inp m ->
  exists m2,
    at_loop_entry inp m m2 /\
    forall fuel,
      fobooster_main XXH32 fuel inp m =
      match program_blocks fuel (loop_entry m2) m2 with
      | Some (_, m3) => Some (Rebooted, finish m3)
      | None => None
      end.
Proof.
  intros (Hsz & Hh & Hmb & Hid). unfold fobooster_main.
  change (staged_copy inp m) with (staged_copy inp (startup m)) in Hmb.
  change (hash_of_source XXH32 inp m) with (hash_of_source XXH32 inp (startup m)) in Hh.
  destruct (validate_cases XXH32 inp (startup m))
    as [(H & _)|[(_ & H & _)|[(_ & _ & H & _)|(_ & _ & _ & ->)]]];
    try lia; try contradiction; try congruence.
  match goal with
  | |- context [confirm_identity inp ?m1] =>
      destruct (confirm_identity_cases inp m1) as [(H & _)|(_ & ->)];
      [contradiction|]
  end.
  eexists. split; [|intros fuel; reflexivity].
  unfold at_loop_entry, startup, prologue. msimpl.
  repeat split. rewrite <- !app_assoc. reflexivity.
Qed.

Lemma rebooted_run (fuel : nat) (inp : booster_input) (m m' : machine) :
  fobooster_main XXH32 fuel inp m = Some (Rebooted, m') ->
  checks_pass XXH32 inp m /\
  exists m2 l3 m3,
    at_loop_entry inp m m2 /\
    program_blocks fuel (loop_entry m2) m2 = Some (l3, m3) /\
    m' = finish m3.
Proof.
  intros H.
  assert (Hp : checks_pass XXH32 inp m).
  { unfold fobooster_main in H. unfold checks_pass.
    change (staged_copy inp m) with (staged_copy inp (startup m)).
    change (hash_of_source XXH32 inp m) with (hash_of_source XXH32 inp (startup m)).
    destruct (validate_cases XXH32 inp (startup m))
      as [(_ & E)|[(_ & _ & E)|[(_ & _ & _ & E)|(H1 & H2 & H3 & E)]]];
      rewrite E in H; try discriminate.
    match type of H with
    | context [confirm_identity inp ?m1] =>
        destruct (confirm_identity_cases inp m1) as [(_ & E')|(H4 & E')];
        rewrite E' in H; [discriminate|]
    end.
    auto. }
  split; [exact Hp|].
  destruct (run_reaches_loop inp m Hp) as (m2 & Hentry & Hrun).
  rewrite Hrun in H.
  destruct (program_blocks fuel (loop_entry m2) m2) as [[l3 m3]|] eqn:E; [|discriminate].
  injection H as <-. exists m2, l3, m3. auto.
Qed.

(** What [finish] does to the machine. *)
Lemma finish_effect (m : machine) :
  trace (finish m) = trace m ++ [EvRgbModeWriting; EvMsleep 1000] ++ handoff /\
  same_ram m (finish m) /\
  flash (finish m) BOOT_SELECTOR = x00 /\
  (forall i, BOOSTER_SECTOR <= i < BOOSTER_SECTOR + SPI_ERASE_SECTOR_SIZE ->
             flash (finish m) i = xff) /\
  (forall i, i <> BOOT_SELECTOR ->
             ~ BOOSTER_SECTOR <= i < BOOSTER_SECTOR + SPI_ERASE_SECTOR_SIZE ->
             flash (finish m) i = flash m i).
Proof.
  unfold finish, handoff. msimpl.
  split; [rewrite <- !app_assoc; reflexivity|].
  split; [repeat split|].
  assert (Hsec : forall i, (i / SPI_ERASE_SECTOR_SIZE =? BOOSTER_SECTOR / SPI_ERASE_SECTOR_SIZE) = true
                           <-> BOOSTER_SECTOR <= i < BOOSTER_SECTOR + SPI_ERASE_SECTOR_SIZE).
  { intros i. rewrite Z.eqb_eq. apply same_sector_iff. reflexivity. }
  split; [|split].
  - unfold flash_erase4, flash_program.
    destruct (BOOT_SELECTOR / SPI_ERASE_SECTOR_SIZE =? BOOSTER_SECTOR / SPI_ERASE_SECTOR_SIZE) eqn:E;
      [discriminate E|].
    cbn [Z.leb Z.ltb andb]. change (BOOT_SELECTOR <=? BOOT_SELECTOR) with true.
    change (BOOT_SELECTOR <? BOOT_SELECTOR + 1) with true. cbn [andb].
    apply byte_and_zero.
  - intros i Hi. unfold flash_erase4. apply Hsec in Hi. rewrite Hi. reflexivity.
  - intros i Hn9 Hns. unfold flash_erase4, flash_program.
    destruct (i / SPI_ERASE_SECTOR_SIZE =? BOOSTER_SECTOR / SPI_ERASE_SECTOR_SIZE) eqn:E.
    + apply Hsec in E. contradiction.
    + destruct (Z.leb_spec BOOT_SELECTOR i); destruct (Z.ltb_spec i (BOOT_SELECTOR + 1));
        cbn [andb]; try reflexivity. lia.
Qed.

End Runs.

(** ** The patch of the selector byte and the hand-off *)

Lemma loop_event_not_handoff (e : event) :
  loop_event e ->
  is_reboot e = false /\ is_booster_erase e = false /\ is_selector_write e = false.
Proof.
  destruct e; cbn; try tauto; try (intros; repeat split; reflexivity).
  - intros (H & _). repeat split. apply Z.eqb_neq. consts. lia.
  - intros (_ & H & _). repeat split. apply Z.eqb_neq. intros ->.
    discriminate H.
Qed.

Lemma count_loop_events (p : event -> bool) (evs : list event) :
  (forall e, loop_event e -> p e = false) ->
  Forall loop_event evs -> count p evs = 0%nat.
Proof.
  intros Hp Hev. unfold count. induction Hev as [|e evs He _ IH]; [reflexivity|].
  cbn [filter]. rewrite (Hp e He). exact IH.
Qed.

(** The descriptor check has required 0x04 at offset 9, so the patch stores
    the value that is already there. *)
Lemma patch_keeps_value (img : mem) :
  multiboot_ok img = true -> forall i, store img BOOT_SELECTOR x04 i = img i.
Proof.
  intros H i. unfold store. destruct (Z.eqb_spec i BOOT_SELECTOR) as [->|_]; [|reflexivity].
  symmetry. apply (proj1 (multiboot_ok_true img) H).
  change (0 <= 9 < 64). lia.
Qed.

(** C9.  For every run: when it got past the descriptor check (it rebooted,
    or stopped at the identity check) [cached_image] is the staged copy with
    offset 9 set to 0x04 and nothing else changed; when the descriptor check
    failed, [cached_image] is the staged copy without the patch; when an
    earlier check failed, [cached_image] was not written at all.  The source
    of the copy, the [image_length] bytes at 0x20040000, reads the same after
    the run as before it. *)
Theorem selector_patch_frame
        (XXH32 : list byte -> Z -> Z) (fuel : nat) (inp : booster_input)
        (m : machine) (out : outcome) (m' : machine) :
  0 <= image_length inp ->
  fobooster_main XXH32 fuel inp m = Some (out, m') ->
  match out with
  | Rebooted | Failed SPI_MISMATCH =>
      multiboot_ok (staged_copy inp m) = true /\
      cached_image m' = store (staged_copy inp m) BOOT_SELECTOR x04
  | Failed MISSING_MULTIBOOT =>
      multiboot_ok (staged_copy inp m) = false /\
      cached_image m' = staged_copy inp m
  | Failed _ => cached_image m' = cached_image m
  end /\
  store (staged_copy inp m) BOOT_SELECTOR x04 BOOT_SELECTOR = x04 /\
  (forall i, i <> BOOT_SELECTOR ->
             store (staged_copy inp m) BOOT_SELECTOR x04 i = staged_copy inp m i) /\
  (forall j, 0 <= j < image_length inp ->
             mapped (flash m') (IMAGE_SOURCE + j) = mapped (flash m) (IMAGE_SOURCE + j)).
Proof.
  intros Hlen H.
  assert (Hstore : store (staged_copy inp m) BOOT_SELECTOR x04 BOOT_SELECTOR = x04 /\
                   forall i, i <> BOOT_SELECTOR ->
                             store (staged_copy inp m) BOOT_SELECTOR x04 i
                             = staged_copy inp m i).
  { unfold store. split; [reflexivity|]. intros i Hi.
    destruct (Z.eqb_spec i BOOT_SELECTOR); [contradiction|reflexivity]. }
  destruct Hstore as (Hs1 & Hs2).
  destruct out as [code|].
  - (* the run ended in [error] *)
    pose proof (failed_run_frame XXH32 fuel inp m code m' H) as (Hfl & _).
    split; [|split; [exact Hs1|split; [exact Hs2|intros j _; now rewrite Hfl]]].
    unfold fobooster_main in H.
    change (staged_copy inp m) with (staged_copy inp (startup m)).
    destruct (validate_cases XXH32 inp (startup m))
      as [(_ & E)|[(_ & _ & E)|[(_ & _ & Hmb & E)|(_ & _ & Hmb & E)]]];
      rewrite E in H.
    + injection H as <- <-. reflexivity.
    + injection H as <- <-. reflexivity.
    + injection H as <- <-. split; [exact Hmb|reflexivity].
    + match type of H with
      | context [confirm_identity inp ?m1] =>
          destruct (confirm_identity_cases inp m1) as [(_ & E')|(_ & E')];
          rewrite E' in H
      end.
      * injection H as <- <-. split; [exact Hmb|reflexivity].
      * match type of H with
        | context [program_blocks fuel ?l ?m2] =>
            destruct (program_blocks fuel l m2) as [[l3 m3]|]; discriminate
        end.
  - (* the run rebooted *)
    destruct (rebooted_run XXH32 fuel inp m m' H)
      as ((Hsz & _ & Hmb & _) & m2 & l3 & m3 & (Hf2 & Hr2 & Hl2 & _ & _) & Hloop & ->).
    assert (Hok : block_ok (loop_entry m2)).
    { apply loop_entry_ok. rewrite Hl2. consts. lia. }
    destruct (program_blocks_result fuel _ _ _ _ Hok Hloop)
      as (_ & _ & (Hr3 & _) & _ & Hf3).
    destruct (finish_effect m3) as (_ & (Hr4 & _) & _ & _ & Hf4).
    split; [split; [exact Hmb|congruence]|].
    split; [exact Hs1|]. split; [exact Hs2|].
    intros j Hj. unfold mapped.
    rewrite Hf4, Hf3, Hf2; [reflexivity| | |]; consts; lia.
Qed.

(** A run that reboots, on the image that is just the descriptor. *)
Lemma selector_patch_frame_witness :
  let m := power_on (flash_with multiboot_reference) in
  let r := fobooster_main sum_hash 32 descriptor_only m in
  outcome_of r = Some Rebooted /\
  cached_image (final_of r m) = store (staged_copy descriptor_only m) BOOT_SELECTOR x04.
Proof.
  intros m r.
  assert (Hrun : outcome_of r = Some Rebooted) by (vm_compute; reflexivity).
  split; [exact Hrun|].
  assert (Hlen : 0 <= image_length descriptor_only) by (cbn; lia).
  pose proof (selector_patch_frame sum_hash 32 descriptor_only m Rebooted
                (final_of r m) Hlen (run_result r _ m Hrun)) as H.
  destruct H as ((_ & H) & _). exact H.
Defined.

(** C10.  When the four checks pass the run reboots.  Its calls are the
    prologue, the calls of the programming loop, the "writing" light and the
    one second delay, and then the hand-off: a program command that writes
    0x00 to flash offset 9, an erase of the sector at 0x5a000, and the write
    of 0xae (boot image 2) to the reboot register, which is the last call of
    the run.  Each of the three happens once in the whole run.  Afterwards
    offset 9 reads 0x00 and the sector at 0x5a000 reads erased. *)
Theorem safe_reboot_handoff_once
        (XXH32 : list byte -> Z -> Z) (fuel : nat) (inp : booster_input)
        (m : machine) :
  (32 <= fuel)%nat ->
  0 <= image_length inp ->
  checks_pass XXH32 inp m ->
  exists loop_calls m',
    fobooster_main XXH32 fuel inp m = Some (Rebooted, m') /\
    Forall loop_event loop_calls /\
    trace m' = trace m ++ prologue ++ loop_calls
                       ++ [EvRgbModeWriting; EvMsleep 1000] ++ handoff /\
    (let run_calls := prologue ++ loop_calls
                      ++ [EvRgbModeWriting; EvMsleep 1000] ++ handoff in
     count is_reboot run_calls = 1%nat /\
     count is_booster_erase run_calls = 1%nat /\
     count is_selector_write run_calls = 1%nat) /\
    error_code_var m' = error_code_var m /\
    flash m' BOOT_SELECTOR = x00 /\
    (forall i, BOOSTER_SECTOR <= i < BOOSTER_SECTOR + SPI_ERASE_SECTOR_SIZE ->
               flash m' i = xff).
Proof.
  intros Hfuel Hlen Hp.
  destruct (run_reaches_loop XXH32 inp m Hp) as (m2 & (Hf2 & Hr2 & Hl2 & He2 & Ht2) & Hrun).
  assert (Hok : block_ok (loop_entry m2)).
  { apply loop_entry_ok. rewrite Hl2. destruct Hp as (Hsz & _). consts. lia. }
  destruct (program_blocks_frame fuel (loop_entry m2) m2 Hok (fuel_from_zero fuel m2 Hfuel))
    as (l3 & m3 & Hloop & _ & _ & (_ & He3 & _) & (evs & Ht3 & Hev) & _).
  destruct (finish_effect m3) as (Ht4 & (_ & He4 & _) & Hsel & Hsec & _).
  exists evs, (finish m3).
  split; [rewrite Hrun, Hloop; reflexivity|].
  split; [exact Hev|].
  split; [rewrite Ht4, Ht3, Ht2, <- !app_assoc; reflexivity|].
  split.
  - cbv zeta. rewrite !count_app.
    rewrite !(count_loop_events _ evs) by
        (try exact Hev; intros e He; apply loop_event_not_handoff in He; tauto).
    repeat split; reflexivity.
  - split; [congruence|]. split; [exact Hsel | exact Hsec].
Qed.

Lemma safe_reboot_handoff_once_witness :
  let m := power_on (flash_with multiboot_reference) in
  exists m',
    fobooster_main sum_hash 32 descriptor_only m = Some (Rebooted, m') /\
    flash m' BOOT_SELECTOR = x00.
Proof.
  intros m.
  destruct (safe_reboot_handoff_once sum_hash 32 descriptor_only m)
    as (evs & m' & Hrun & _ & _ & _ & _ & Hsel & _).
  - lia.
  - cbn. lia.
  - unfold checks_pass. repeat split; vm_compute; try reflexivity. discriminate.
  - exists m'. split; [exact Hrun | exact Hsel].
Defined.

(** ** Shape of the commands of a programming pass *)

Lemma pass_run_bounds (lo hi : Z) (ops : list event) :
  pass_run lo ops hi -> lo <= hi.
Proof. induction 1; consts; lia. Qed.

Lemma pass_run_lower (lo lo' hi : Z) (ops : list event) :
  pass_run lo ops hi -> lo' <= lo -> pass_run lo' ops hi.
Proof.
  intros H Hle. destruct H.
  - apply pass_run_nil. lia.
  - apply pass_run_block; try assumption. lia.
Qed.

Lemma pass_run_app (lo mid hi : Z) (xs ys : list event) :
  pass_run lo xs mid -> pass_run mid ys hi -> pass_run lo (xs ++ ys) hi.
Proof.
  intros Hx Hy. induction Hx as [lo mid Hle|lo a img cp bl k rest mid Hlo Hal Hk Hrest IH].
  - cbn. eapply pass_run_lower; eassumption.
  - cbn [app]. rewrite <- app_assoc. apply pass_run_block; auto.
Qed.

Lemma erase_addrs_page_writes (img : mem) (ta cp bl : Z) (k : nat) :
  erase_addrs (page_writes img ta cp bl k) = [].
Proof.
  unfold page_writes. induction (seq 0 k) as [|j js IH]; [reflexivity|exact IH].
Qed.

Lemma erase_addrs_nv_ops (t : list event) : erase_addrs (nv_ops t) = erase_addrs t.
Proof.
  induction t as [|e t IH]; [reflexivity|].
  unfold nv_ops in *. destruct e; cbn; rewrite ?IH; reflexivity.
Qed.

Lemma pass_run_erase_addrs (lo hi : Z) (ops : list event) :
  pass_run lo ops hi ->
  StronglySorted Z.lt (erase_addrs ops) /\
  Forall (fun a => lo <= a < hi) (erase_addrs ops).
Proof.
  induction 1 as [lo hi Hle|lo a img cp bl k rest hi Hlo Hal Hk Hrest (IHs & IHb)].
  - cbn. split; constructor.
  - cbn [erase_addrs]. rewrite erase_addrs_app, erase_addrs_page_writes. cbn [app].
    apply pass_run_bounds in Hrest. split.
    + constructor; [exact IHs|].
      eapply Forall_impl; [|exact IHb]. cbn. intros b Hb. consts. lia.
    + constructor; [consts; lia|].
      eapply Forall_impl; [|exact IHb]. cbn. intros b Hb. consts. lia.
Qed.

Lemma sorted_lt_NoDup (l : list Z) : StronglySorted Z.lt l -> NoDup l.
Proof.
  induction 1 as [|a l Hs IH Hall]; constructor; [|exact IH].
  intros Hin. rewrite Forall_forall in Hall. specialize (Hall a Hin). lia.
Qed.

Lemma page_writes_first (img : mem) (ta cp bl : Z) (k : nat) :
  (1 <= k)%nat ->
  exists d ws, page_writes img ta cp bl k = EvWrite ta d :: ws /\
               Forall (fun e => is_write e = true) ws.
Proof.
  intros Hk. destruct k as [|k]; [lia|].
  unfold page_writes. cbn [seq map]. unfold page_write at 1.
  cbn [Z.of_nat]. rewrite Z.mul_0_r, !Z.add_0_r.
  eexists _, _. split; [reflexivity|].
  apply Forall_forall. intros e He. apply in_map_iff in He.
  destruct He as (j & <- & _). reflexivity.
Qed.

Lemma writes_then_erase (ws rest pre post : list event) (a : Z) :
  Forall (fun e => is_write e = true) ws ->
  ws ++ rest = pre ++ EvErase4 a :: post ->
  exists pre', rest = pre' ++ EvErase4 a :: post.
Proof.
  intros Hws. revert pre. induction Hws as [|w ws Hw _ IH]; intros pre E.
  - exists pre. exact E.
  - destruct pre as [|e pre]; cbn in E.
    + injection E as E _. subst w. discriminate Hw.
    + injection E as _ E. eapply IH. exact E.
Qed.

(** In a pass, the command right after an erase programs the first page of
    the sector just erased. *)
Lemma pass_run_erase_then_write (lo hi : Z) (ops : list event) :
  pass_run lo ops hi ->
  forall pre a post,
    ops = pre ++ EvErase4 a :: post ->
    exists d post', post = EvWrite a d :: post'.
Proof.
  induction 1 as [lo hi Hle|lo a0 img cp bl k rest hi Hlo Hal Hk Hrest IH];
    intros pre a post E.
  - destruct pre; discriminate.
  - destruct (page_writes_first img a0 cp bl k) as (d & ws & Epw & Hws); [lia|].
    rewrite Epw in E. destruct pre as [|e pre]; cbn in E.
    + injection E as -> <-. eexists _, _. reflexivity.
    + injection E as _ E.
      change (EvWrite a0 d :: ws ++ rest) with ((EvWrite a0 d :: ws) ++ rest) in E.
      apply writes_then_erase in E; [|constructor; [reflexivity|exact Hws]].
      destruct E as (pre' & E). eapply IH. exact E.
Qed.

(** The commands of a whole pass have that shape. *)
Lemma program_blocks_pass_run (fuel : nat) (l : locals) (m : machine) :
  block_ok l ->
  (block_cond l = true ->
   MAX_TARGET_ADDR - target_addr l <= SPI_ERASE_SECTOR_SIZE * Z.of_nat fuel) ->
  exists l' m' evs,
    program_blocks fuel l m = Some (l', m') /\
    trace m' = trace m ++ evs /\
    pass_run (target_addr l) (nv_ops evs) MAX_TARGET_ADDR.
Proof.
  intros Hok Hfuel.
  destruct (program_blocks_rule
              (fun l1 m1 =>
                 exists evs hi,
                   trace m1 = trace m ++ evs /\
                   pass_run (target_addr l) (nv_ops evs) hi /\
                   hi <= MAX_TARGET_ADDR /\
                   (bytes_left l1 <> 0 -> hi <= target_addr l1)))
    with (fuel := fuel) (l := l) (m := m) as (l' & m' & Hrun & HP & _ & _);
    try assumption.
  - intros l1 m1 l2 m2 Hok1 Hc1 (evs & hi & Htr & Hpr & Hhi & Hnext) Hstep.
    destruct (block_ok_aligned l1 Hok1 Hc1) as (Hal & Hta & Hbl).
    assert (Hhi1 : hi <= target_addr l1) by (apply Hnext; lia).
    destruct Hstep as [Hs -> ->|k pevs Hs Hk Hlast Hbl' Hend Hta' Hcp' Hram Htr' Hev Hnv Hfl].
    + exists (evs ++ [EvCfg4Write 0x80; EvCfg4Write 0x00]), hi.
      split; [msimpl; rewrite Htr, <- !app_assoc; reflexivity|].
      split; [rewrite nv_ops_app; cbn; rewrite app_nil_r; exact Hpr|].
      split; [exact Hhi|]. intros _. cbn [target_addr]. consts. lia.
    + exists (evs ++ [EvCfg4Write 0x80; EvCfg4Write 0x00; EvBusyWait;
                      EvErase4 (target_addr l1)] ++ pevs),
             (target_addr l1 + SPI_ERASE_SECTOR_SIZE).
      split; [rewrite Htr', Htr, <- !app_assoc; reflexivity|].
      split.
      * rewrite !nv_ops_app, Hnv. cbn [nv_ops filter is_nv_op app].
        apply pass_run_app with (mid := hi); [exact Hpr|].
        rewrite <- (app_nil_r (page_writes _ _ _ _ _)).
        apply pass_run_block; [exact Hhi1 | exact Hal | exact Hk |].
        apply pass_run_nil. lia.
      * split; [consts; lia|]. intros Hne.
        destruct Hend as [H|H]; [contradiction|]. subst k.
        rewrite Hta'. unfold PAGES_PER_SECTOR. consts. lia.
  - exists [], (target_addr l). rewrite app_nil_r.
    destruct Hok as (_ & Hta & _).
    split; [reflexivity|]. split; [apply pass_run_nil; lia|]. split; lia.
  - destruct HP as (evs & hi & Htr & Hpr & Hhi & _).
    exists l', m', evs. split; [exact Hrun|]. split; [exact Htr|].
    pose proof (pass_run_app _ hi MAX_TARGET_ADDR _ [] Hpr (pass_run_nil _ _ Hhi)) as H.
    rewrite app_nil_r in H. exact H.
Qed.

(** ** Running the programming pass twice *)

Lemma skip_reads_S (n : nat) :
  skip_reads (S n) = skip_reads n ++ [EvCfg4Write 0x80; EvCfg4Write 0x00].
Proof.
  unfold skip_reads.
  change (repeat [EvCfg4Write 128; EvCfg4Write 0] (S n))
    with ([EvCfg4Write 128; EvCfg4Write 0] :: repeat [EvCfg4Write 128; EvCfg4Write 0] n).
  rewrite repeat_cons, concat_app. cbn [concat]. rewrite app_nil_r. reflexivity.
Qed.

Lemma nv_ops_skip_reads (n : nat) : nv_ops (skip_reads n) = [].
Proof.
  induction n as [|n IH]; [reflexivity|].
  rewrite skip_reads_S, nv_ops_app, IH. reflexivity.
Qed.

Lemma whole_sectors_left (len ta : Z) :
  len mod SPI_ERASE_SECTOR_SIZE = 0 ->
  ta mod SPI_ERASE_SECTOR_SIZE = 0 ->
  0 < len - ta ->
  SPI_ERASE_SECTOR_SIZE <= len - ta.
Proof. consts. intros H1 H2 H3. Z.div_mod_to_equations. lia. Qed.

Section TwoPasses.

Variables (img : mem) (len : Z).
Hypothesis len_range : 0 <= len < 4294967296.
Hypothesis len_whole_sectors : len mod SPI_ERASE_SECTOR_SIZE = 0.

Lemma whole_sector_step (l : locals) (m : machine) (l' : locals) (m' : machine) :
  block_ok l -> block_cond l = true -> whole_sector_inv img len l m ->
  block_step l m l' m' ->
  whole_sector_inv img len l' m' /\
  target_addr l' = target_addr l + SPI_ERASE_SECTOR_SIZE /\
  (forall i, target_addr l <= i < target_addr l + SPI_ERASE_SECTOR_SIZE ->
             flash m' i = img i).
Proof.
  intros Hok Hc (Hram & Hcp & Hal & Hbl) Hstep.
  destruct (block_ok_aligned l Hok Hc) as (_ & Hta & Hpos).
  assert (Hfull : SPI_ERASE_SECTOR_SIZE <= bytes_left l).
  { rewrite Hbl. apply whole_sectors_left; [assumption|assumption|lia]. }
  destruct Hstep as [Hs -> ->|k evs Hs Hk Hlast Hbl' Hend Hta' Hcp' Hr Htr Hev Hnv Hfl].
  - assert (Hrange : 0 <= target_addr l < 4294967296 - SPI_MAPPED_BASE)
      by (consts; lia).
    pose proof (proj1 (skip_check_true_iff l m Hrange) Hs) as Hsame.
    clear Hs. rename Hsame into Hs.
    split; [|split; [reflexivity|]].
    + unfold whole_sector_inv. msimpl.
      split; [exact Hram|]. split; [lia|].
      split; [consts; Z.div_mod_to_equations; lia|].
      rewrite wrap32_small by (consts; lia). lia.
    + intros i Hi. msimpl. specialize (Hs (i - target_addr l)).
      replace (target_addr l + (i - target_addr l)) with i in Hs by lia.
      rewrite Hs by lia. rewrite Hram, Hcp. f_equal. lia.
  - assert (Ek : k = PAGES_PER_SECTOR).
    { destruct Hend as [H|H]; [|exact H].
      unfold PAGES_PER_SECTOR in *. consts. lia. }
    subst k. unfold PAGES_PER_SECTOR in *.
    destruct Hr as (Hr & _).
    split; [|split].
    + unfold whole_sector_inv.
      split; [congruence|]. split; [lia|].
      split; [rewrite Hta'; consts; Z.div_mod_to_equations; lia|].
      consts. lia.
    + rewrite Hta'. consts. lia.
    + intros i Hi. rewrite Hfl.
      destruct (Z.leb_spec (target_addr l) i); [|lia].
      destruct (Z.ltb_spec i (target_addr l + SPI_ERASE_SECTOR_SIZE)); [|lia].
      cbn [andb].
      destruct (Z.ltb_spec i (target_addr l + Z.min (SPI_PROGRAM_PAGE_SIZE * Z.of_nat 16)
                                                    (bytes_left l))) as [_|Hge].
      * rewrite Hram, Hcp. f_equal. lia.
      * exfalso. consts. lia.
Qed.

Lemma whole_sector_exit (l : locals) :
  block_ok l -> block_cond l = false ->
  current_ptr l = target_addr l -> bytes_left l = len - target_addr l ->
  target_addr l = Z.min len MAX_TARGET_ADDR.
Proof.
  intros (Hbl & Hta & _) Hc _ Hb. apply block_cond_false in Hc. lia.
Qed.

(** After a pass over an image of whole sectors the flash holds the image,
    up to the bound of the loop. *)
Lemma first_pass_writes_image (fuel : nat) (f : mem) :
  (32 <= fuel)%nat ->
  exists l1 m1,
    programming_pass fuel img len f = Some (l1, m1) /\
    forall i, 0 <= i < Z.min len MAX_TARGET_ADDR -> flash m1 i = img i.
Proof.
  intros Hfuel. unfold programming_pass.
  set (m := pass_machine img len f).
  assert (Hok : block_ok (loop_entry m)) by (apply loop_entry_ok; exact len_range).
  destruct (program_blocks_rule
              (fun l1 m1 =>
                 whole_sector_inv img len l1 m1 /\
                 forall i, 0 <= i < target_addr l1 -> flash m1 i = img i))
    with (fuel := fuel) (l := loop_entry m) (m := m)
    as (l1 & m1 & Hrun & ((_ & Hcp & _ & Hbl) & Hfl) & Hok1 & Hc1).
  - intros l1 m1 l2 m2 Hok1 Hc1 (Hinv & Hfl) Hstep.
    destruct (whole_sector_step l1 m1 l2 m2 Hok1 Hc1 Hinv Hstep) as (Hinv2 & Hta2 & Hnew).
    split; [exact Hinv2|]. intros i Hi.
    destruct (Z.lt_ge_cases i (target_addr l1)) as [Hlt|Hge].
    + destruct (block_step_events l1 m1 l2 m2 Hok1 Hc1 Hstep) as (_ & Hframe).
      rewrite Hframe by lia. apply Hfl. lia.
    + apply Hnew. lia.
  - exact Hok.
  - split.
    + unfold whole_sector_inv. cbn. repeat split. lia.
    + cbn [loop_entry target_addr]. intros i Hi. lia.
  - apply fuel_from_zero. exact Hfuel.
  - exists l1, m1. split; [exact Hrun|]. intros i Hi. apply Hfl.
    rewrite (whole_sector_exit l1 Hok1 Hc1 Hcp Hbl). exact Hi.
Qed.

(** A pass over a flash that already holds the image rewrites nothing:
    every skip check succeeds. *)
Lemma pass_over_written_image (fuel : nat) (f : mem) :
  (32 <= fuel)%nat ->
  (forall i, 0 <= i < Z.min len MAX_TARGET_ADDR -> f i = img i) ->
  exists l2 m2,
    programming_pass fuel img len f = Some (l2, m2) /\
    flash m2 = f /\
    trace m2 = skip_reads (Z.to_nat (Z.min len MAX_TARGET_ADDR / SPI_ERASE_SECTOR_SIZE)).
Proof.
  intros Hfuel Hsame. unfold programming_pass.
  set (m := pass_machine img len f).
  assert (Hok : block_ok (loop_entry m)) by (apply loop_entry_ok; exact len_range).
  destruct (program_blocks_rule
              (fun l1 m1 =>
                 whole_sector_inv img len l1 m1 /\
                 flash m1 = f /\
                 trace m1 = skip_reads (Z.to_nat (target_addr l1 / SPI_ERASE_SECTOR_SIZE))))
    with (fuel := fuel) (l := loop_entry m) (m := m)
    as (l2 & m2 & Hrun & ((_ & Hcp & _ & Hbl) & Hfl & Htr) & Hok2 & Hc2).
  - intros l1 m1 l2 m2 Hok1 Hc1 (Hinv & Hfl & Htr) Hstep.
    destruct (whole_sector_step l1 m1 l2 m2 Hok1 Hc1 Hinv Hstep) as (Hinv2 & Hta2 & _).
    split; [exact Hinv2|].
    destruct (block_ok_aligned l1 Hok1 Hc1) as (Hal & Hta & Hpos).
    destruct Hinv as (Hram & Hcp & _ & Hbl).
    assert (Hfull : SPI_ERASE_SECTOR_SIZE <= len - target_addr l1)
      by (apply whole_sectors_left; [exact len_whole_sectors | exact Hal | lia]).
    assert (Hs : skip_check l1 m1 = true).
    { apply skip_check_true_iff; [consts; lia|].
      intros j Hj. rewrite Hfl, Hram, Hcp. apply Hsame. consts. lia. }
    destruct Hstep as [_ -> ->|k evs Hs']; [|congruence].
    msimpl. split; [exact Hfl|].
    rewrite Htr, <- app_assoc. cbn [app]. rewrite <- skip_reads_S. f_equal.
    replace ((target_addr l1 + SPI_ERASE_SECTOR_SIZE) / SPI_ERASE_SECTOR_SIZE)
      with (target_addr l1 / SPI_ERASE_SECTOR_SIZE + 1).
    + rewrite Z2Nat.inj_add; [|apply Z.div_pos; consts; lia|lia].
      rewrite Nat.add_1_r. reflexivity.
    + consts. Z.div_mod_to_equations. lia.
  - exact Hok.
  - split; [|split; reflexivity].
    unfold whole_sector_inv. cbn. repeat split. lia.
  - apply fuel_from_zero. exact Hfuel.
  - exists l2, m2. split; [exact Hrun|]. split; [exact Hfl|].
    rewrite Htr, (whole_sector_exit l2 Hok2 Hc2 Hcp Hbl). reflexivity.
Qed.

End TwoPasses.

(** C3, as stated, fails.  The install image that is the descriptor alone is
    validated (the run reboots).  The first pass over an erased target erases
    sector 0 and programs the 64 bytes; the rest of the sector stays erased
    (0xff) while [cached_image] holds zeros there.  The second pass,
    started on the flash the first one left, therefore finds sector 0
    different and erases and programs it again. *)
Lemma second_pass_rewrites_partial_sector :
  let f0 := flash_with multiboot_reference in
  let first := programming_pass 32 staged_descriptor 64 f0 in
  let second := programming_pass 32 staged_descriptor 64 (pass_flash first f0) in
  outcome_of (fobooster_main sum_hash 32 descriptor_only (power_on f0)) = Some Rebooted /\
  pass_locals first = Some (mkLocals 0 256 256 90) /\
  pass_ops first = [EvErase4 0; EvWrite 0 (read_bytes staged_descriptor 0 64)] /\
  pass_locals second = Some (mkLocals 0 256 256 90) /\
  pass_ops second = [EvErase4 0; EvWrite 0 (read_bytes staged_descriptor 0 64)] /\
  pass_ops second <> [].
Proof.
  intros f0 first second.
  assert (H : pass_ops second = [EvErase4 0; EvWrite 0 (read_bytes staged_descriptor 0 64)])
    by (vm_compute; reflexivity).
  repeat split; try (vm_compute; reflexivity).
  rewrite H. discriminate.
Qed.

(** C3, amended.  For a staged image whose length is a whole number of
    sectors (a multiple of 4096), the pass run a second time on the flash the
    first pass left issues no erase and no program command and leaves the
    flash as it is: its calls are the two mode switches of the skip check,
    once per sector of the image below the bound, and nothing else. *)
Theorem second_pass_idle_on_whole_sectors
        (fuel : nat) (img : mem) (len : Z) (f : mem) :
  (32 <= fuel)%nat ->
  0 <= len < 4294967296 ->
  len mod SPI_ERASE_SECTOR_SIZE = 0 ->
  exists l1 m1 l2 m2,
    programming_pass fuel img len f = Some (l1, m1) /\
    programming_pass fuel img len (flash m1) = Some (l2, m2) /\
    nv_ops (trace m2) = [] /\
    flash m2 = flash m1 /\
    trace m2 = skip_reads (Z.to_nat (Z.min len MAX_TARGET_ADDR / SPI_ERASE_SECTOR_SIZE)).
Proof.
  intros Hfuel Hlen Hal.
  destruct (first_pass_writes_image img len Hlen Hal fuel f Hfuel)
    as (l1 & m1 & Hrun1 & Hfl1).
  destruct (pass_over_written_image img len Hlen Hal fuel (flash m1) Hfuel Hfl1)
    as (l2 & m2 & Hrun2 & Hfl2 & Htr2).
  exists l1, m1, l2, m2.
  split; [exact Hrun1|]. split; [exact Hrun2|].
  split; [rewrite Htr2; apply nv_ops_skip_reads|].
  split; [exact Hfl2 | exact Htr2].
Qed.

(** The descriptor followed by zeros, declared as one whole sector. *)
Lemma second_pass_idle_on_whole_sectors_witness :
  exists l1 m1 l2 m2,
    programming_pass 32 staged_descriptor 4096 (flash_with multiboot_reference)
    = Some (l1, m1) /\
    programming_pass 32 staged_descriptor 4096 (flash m1) = Some (l2, m2) /\
    nv_ops (trace m2) = [] /\
    trace m2 = [EvCfg4Write 0x80; EvCfg4Write 0x00].
Proof.
  destruct (second_pass_idle_on_whole_sectors 32 staged_descriptor 4096
              (flash_with multiboot_reference))
    as (l1 & m1 & l2 & m2 & H1 & H2 & Hnv & _ & Htr).
  - lia.
  - lia.
  - reflexivity.
  - exists l1, m1, l2, m2. repeat split; assumption.
Defined.

(** ** A skipped sector with less than a sector of image left *)

Lemma count_page_events (evs : list event) :
  Forall page_event evs -> count is_skip_read evs = 0%nat.
Proof.
  intros H. unfold count. induction H as [|e evs He _ IH]; [reflexivity|].
  destruct e; cbn in He; try contradiction; exact IH.
Qed.

Lemma next_sector_index (ta ta0 : Z) :
  ta mod SPI_ERASE_SECTOR_SIZE = 0 -> ta0 mod SPI_ERASE_SECTOR_SIZE = 0 ->
  ta0 <= ta ->
  Z.to_nat ((ta + SPI_ERASE_SECTOR_SIZE - ta0) / SPI_ERASE_SECTOR_SIZE)
  = S (Z.to_nat ((ta - ta0) / SPI_ERASE_SECTOR_SIZE)).
Proof.
  intros H1 H2 Hle.
  replace ((ta + SPI_ERASE_SECTOR_SIZE - ta0) / SPI_ERASE_SECTOR_SIZE)
    with ((ta - ta0) / SPI_ERASE_SECTOR_SIZE + 1)
    by (consts; Z.div_mod_to_equations; lia).
  rewrite Z2Nat.inj_add; [|apply Z.div_pos; consts; lia|lia].
  rewrite Nat.add_1_r. reflexivity.
Qed.

Section Overrun.

Variables (l0 : locals) (m0 : machine).
Hypothesis start_ok : block_ok l0.
Hypothesis tail_left : 0 < bytes_left l0 < SPI_ERASE_SECTOR_SIZE.
Hypothesis below_bound : target_addr l0 < MAX_TARGET_ADDR.
Hypothesis tail_matches : skip_check l0 m0 = true.

Lemma start_facts :
  block_cond l0 = true /\
  target_addr l0 mod SPI_ERASE_SECTOR_SIZE = 0 /\
  0 <= target_addr l0 <= MAX_TARGET_ADDR - SPI_ERASE_SECTOR_SIZE.
Proof.
  assert (Hc : block_cond l0 = true) by (apply block_cond_true; lia).
  destruct (block_ok_aligned l0 start_ok Hc) as (Hal & Hta & _). auto.
Qed.

Lemma overrun_first_step (l' : locals) (m' : machine) :
  block_step l0 m0 l' m' ->
  bytes_left l' = bytes_left l0 + 4294967296 - SPI_ERASE_SECTOR_SIZE /\
  overrun_inv l0 m0 l' m'.
Proof.
  destruct start_facts as (Hc & Hal & Hta).
  intros [Hs -> ->|k evs Hs]; [|congruence].
  assert (Hrange : 0 <= target_addr l0 < 4294967296 - SPI_MAPPED_BASE) by (consts; lia).
  pose proof (proj1 (skip_check_true_iff l0 m0 Hrange) tail_matches) as Hsame.
  assert (Hbl : wrap32 (bytes_left l0 - SPI_ERASE_SECTOR_SIZE)
                = bytes_left l0 + 4294967296 - SPI_ERASE_SECTOR_SIZE).
  { rewrite wrap32_underflow by (consts; lia). lia. }
  split; [exact Hbl|].
  unfold overrun_inv. msimpl.
  split; [consts; lia|].
  split; [consts; Z.div_mod_to_equations; lia|].
  split; [lia|].
  split; [rewrite Hbl; lia|].
  split; [reflexivity|].
  split; [|split].
  - exists [EvCfg4Write 0x80; EvCfg4Write 0x00].
    split; [rewrite <- app_assoc; reflexivity|]. split.
    + replace (target_addr l0 + SPI_ERASE_SECTOR_SIZE - target_addr l0)
        with SPI_ERASE_SECTOR_SIZE by lia.
      reflexivity.
    + intros a Ha Haa _. exfalso. consts. Z.div_mod_to_equations. lia.
  - intros i Hi. specialize (Hsame (i - target_addr l0)).
    replace (target_addr l0 + (i - target_addr l0)) with i in Hsame by lia.
    apply Hsame. lia.
  - reflexivity.
Qed.

Lemma overrun_step (l : locals) (m : machine) (l' : locals) (m' : machine) :
  block_ok l -> block_cond l = true -> overrun_inv l0 m0 l m ->
  block_step l m l' m' -> overrun_inv l0 m0 l' m'.
Proof.
  destruct start_facts as (_ & Hal0 & Hta0).
  intros Hok Hc (Hta & Hal & Hcp & Hbl & Hram & (evs & Htr & Hcnt & Her) & Hbelow & Hframe)
         Hstep.
  destruct (block_ok_aligned l Hok Hc) as (_ & Hta' & Hpos).
  assert (Hrange : 0 <= target_addr l < 4294967296 - SPI_MAPPED_BASE) by (consts; lia).
  assert (Hbig : SPI_ERASE_SECTOR_SIZE < bytes_left l) by (consts; lia).
  destruct Hstep as [Hs -> ->|k pevs Hs Hk Hlast Hbl' Hend Hta2 Hcp2 Hr Htr2 Hev Hnv Hfl].
  - pose proof (proj1 (skip_check_true_iff l m Hrange) Hs) as Hsame.
    unfold overrun_inv. msimpl.
    split; [consts; lia|].
    split; [consts; Z.div_mod_to_equations; lia|].
    split; [lia|].
    split; [rewrite wrap32_small by (consts; lia); lia|].
    split; [exact Hram|].
    split; [|split].
    + exists (evs ++ [EvCfg4Write 0x80; EvCfg4Write 0x00]).
      split; [rewrite Htr, <- !app_assoc; reflexivity|]. split.
      * rewrite count_app, Hcnt, next_sector_index by (assumption || lia).
        cbn. lia.
      * intros a Ha Haa Hd.
        destruct (Z.lt_ge_cases a (target_addr l)) as [Hlt|Hge].
        { apply in_or_app. left. apply Her; [lia|assumption|assumption]. }
        exfalso.
        assert (a = target_addr l) by (consts; Z.div_mod_to_equations; lia).
        subst a. destruct Hd as (j & Hj & Hd). apply Hd.
        rewrite <- Hframe by lia. rewrite Hsame by exact Hj.
        rewrite Hram. f_equal. lia.
    + intros i Hi.
      destruct (Z.lt_ge_cases i (target_addr l)) as [Hlt|Hge].
      * apply Hbelow. lia.
      * specialize (Hsame (i - target_addr l)).
        replace (target_addr l + (i - target_addr l)) with i in Hsame by lia.
        rewrite Hsame by lia. rewrite Hram. f_equal. lia.
    + intros i Hi. apply Hframe. consts. lia.
  - assert (Ek : k = PAGES_PER_SECTOR).
    { destruct Hend as [H|H]; [|exact H].
      unfold PAGES_PER_SECTOR in *. consts. lia. }
    subst k. unfold PAGES_PER_SECTOR in *. destruct Hr as (Hr & _).
    unfold overrun_inv.
    split; [consts; lia|].
    split; [rewrite Hta2; consts; Z.div_mod_to_equations; lia|].
    split; [consts; lia|].
    split; [consts; lia|].
    split; [congruence|].
    split; [|split].
    + exists (evs ++ [EvCfg4Write 0x80; EvCfg4Write 0x00; EvBusyWait;
                      EvErase4 (target_addr l)] ++ pevs).
      split; [rewrite Htr2, Htr, <- !app_assoc; reflexivity|]. split.
      * replace (target_addr l') with (target_addr l + SPI_ERASE_SECTOR_SIZE)
          by (consts; lia).
        rewrite !count_app, Hcnt, (count_page_events pevs Hev),
          next_sector_index by (assumption || lia).
        cbn. lia.
      * intros a Ha Haa Hd. apply in_or_app.
        destruct (Z.lt_ge_cases a (target_addr l)) as [Hlt|Hge].
        { left. apply Her; [lia|assumption|assumption]. }
        right.
        assert (a = target_addr l) by (consts; Z.div_mod_to_equations; lia).
        subst a. cbn. auto.
    + intros i Hi. rewrite Hfl.
      destruct (Z.leb_spec (target_addr l) i);
        destruct (Z.ltb_spec i (target_addr l + SPI_ERASE_SECTOR_SIZE)); cbn [andb];
        try (apply Hbelow; lia); try (exfalso; consts; lia).
      destruct (Z.ltb_spec i (target_addr l + Z.min (SPI_PROGRAM_PAGE_SIZE * Z.of_nat 16)
                                                    (bytes_left l))) as [_|Hge].
      * rewrite Hram. f_equal. lia.
      * exfalso. consts. lia.
    + intros i Hi. rewrite Hfl.
      destruct (Z.leb_spec (target_addr l) i);
        destruct (Z.ltb_spec i (target_addr l + SPI_ERASE_SECTOR_SIZE)); cbn [andb];
        try (exfalso; consts; lia); apply Hframe; lia.
Qed.

Lemma overrun_run (fuel : nat) :
  (32 <= fuel)%nat ->
  exists l' m',
    program_blocks fuel l0 m0 = Some (l', m') /\
    overrun_inv l0 m0 l' m' /\
    target_addr l' = MAX_TARGET_ADDR /\ bytes_left l' <> 0.
Proof.
  intros Hfuel. destruct start_facts as (Hc0 & Hal0 & Hta0).
  destruct (program_blocks_rule
              (fun l m => (l = l0 /\ m = m0) \/ overrun_inv l0 m0 l m))
    with (fuel := fuel) (l := l0) (m := m0) as (l' & m' & Hrun & HP & Hok' & Hc').
  - intros l m l2 m2 Hok Hc [(-> & ->)|Hinv] Hstep; right.
    + apply overrun_first_step. exact Hstep.
    + eapply overrun_step; eassumption.
  - exact start_ok.
  - left. auto.
  - intros _. consts. lia.
  - exists l', m'. split; [exact Hrun|].
    destruct HP as [(-> & ->)|Hinv]; [congruence|].
    split; [exact Hinv|].
    destruct Hinv as (Hta & _ & _ & Hbl & _).
    apply block_cond_false in Hc'. consts. lia.
Qed.

End Overrun.

(** C4.  Take the loop at a sector that matches, with fewer than 4096 bytes
    of image left.  The body skips the sector and [bytes_left] wraps to
    [bytes_left + 2^32 - 4096], which is not zero.  The loop then goes on to
    the bound: it ends with [target_addr = 131072] and [bytes_left] still not
    zero, having made one skip check per sector from the current one up to
    the bound, with [current_ptr] advanced past the end of the image by the
    same distance.  Every later sector that differs from the RAM found there
    is erased, and in the end the flash from the current address up to the
    bound holds that RAM. *)
Theorem tail_skip_runs_to_the_bound (fuel : nat) (l : locals) (m : machine) :
  (32 <= fuel)%nat ->
  block_ok l ->
  0 < bytes_left l < SPI_ERASE_SECTOR_SIZE ->
  target_addr l < MAX_TARGET_ADDR ->
  skip_check l m = true ->
  (exists l1 m1,
      block_body l m = Some (l1, m1) /\
      bytes_left l1 = bytes_left l + 4294967296 - SPI_ERASE_SECTOR_SIZE /\
      bytes_left l1 <> 0) /\
  exists l' m' evs,
    program_blocks fuel l m = Some (l', m') /\
    trace m' = trace m ++ evs /\
    target_addr l' = MAX_TARGET_ADDR /\
    bytes_left l' <> 0 /\
    current_ptr l' = current_ptr l + (MAX_TARGET_ADDR - target_addr l) /\
    count is_skip_read evs
    = Z.to_nat ((MAX_TARGET_ADDR - target_addr l) / SPI_ERASE_SECTOR_SIZE) /\
    (forall a, target_addr l < a < MAX_TARGET_ADDR ->
               a mod SPI_ERASE_SECTOR_SIZE = 0 ->
               sector_differs l m a -> In (EvErase4 a) evs) /\
    (forall i, target_addr l <= i < MAX_TARGET_ADDR ->
               flash m' i = cached_image m (current_ptr l + (i - target_addr l))).
Proof.
  intros Hfuel Hok Htail Hta Hs. split.
  - assert (Hc : block_cond l = true) by (apply block_cond_true; lia).
    destruct (block_body_step l m Hok Hc) as (l1 & m1 & Hbody & Hstep).
    destruct (overrun_first_step l m Hok Htail Hta Hs l1 m1 Hstep) as (Hbl & _).
    exists l1, m1. split; [exact Hbody|]. split; [exact Hbl|]. consts. lia.
  - destruct (overrun_run l m Hok Htail Hta Hs fuel Hfuel)
      as (l' & m' & Hrun & Hinv & Hend & Hne).
    destruct Hinv as (_ & _ & Hcp & _ & _ & (evs & Htr & Hcnt & Her) & Hfl & _).
    exists l', m', evs. rewrite Hend in *.
    split; [exact Hrun|]. split; [exact Htr|]. split; [reflexivity|].
    split; [exact Hne|]. split; [lia|]. split; [exact Hcnt|].
    split; [exact Her | exact Hfl].
Qed.

(** The descriptor alone (64 bytes) over a flash whose sector 0 matches. *)
Lemma tail_skip_runs_to_the_bound_witness :
  let m := pass_machine staged_descriptor 64 padded_flash in
  exists l' m' evs,
    program_blocks 32 (loop_entry m) m = Some (l', m') /\
    trace m' = evs /\
    target_addr l' = 131072 /\
    bytes_left l' <> 0 /\
    count is_skip_read evs = 32%nat.
Proof.
  intros m.
  destruct (tail_skip_runs_to_the_bound 32 (loop_entry m) m)
    as (_ & l' & m' & evs & Hrun & Htr & Hta & Hbl & _ & Hcnt & _).
  - lia.
  - apply loop_entry_ok. cbn. lia.
  - split; reflexivity.
  - reflexivity.
  - vm_compute. reflexivity.
  - exists l', m', evs. rewrite Htr. repeat split; assumption.
Defined.

(** The loop always ends, within 32 passes; it ends with [bytes_left = 0] or
    with [target_addr] at the bound; it issues commands below the bound only
    and leaves the flash from the bound on as it was. *)
Lemma programming_loop_ends (fuel : nat) (m : machine) :
  (32 <= fuel)%nat ->
  0 <= cached_image_length m < 4294967296 ->
  exists l' m' evs,
    program_blocks fuel (loop_entry m) m = Some (l', m') /\
    (bytes_left l' = 0 \/ target_addr l' = MAX_TARGET_ADDR) /\
    trace m' = trace m ++ evs /\
    Forall loop_event evs /\
    (forall i, MAX_TARGET_ADDR <= i -> flash m' i = flash m i).
Proof.
  intros Hfuel Hlen.
  destruct (program_blocks_frame fuel (loop_entry m) m
              (loop_entry_ok m Hlen) (fuel_from_zero fuel m Hfuel))
    as (l' & m' & Hrun & Hc & (_ & Hta & _) & _ & (evs & Htr & Hev) & Hfl).
  exists l', m', evs. split; [exact Hrun|]. split.
  - apply block_cond_false in Hc. destruct Hc as [H|H]; [now left|right; lia].
  - split; [exact Htr|]. split; [exact Hev|]. intros i Hi. apply Hfl. now right.
Qed.

(** C6 at the failing input.  The image is the 64 bytes of the descriptor;
    sector 0 of the flash already holds the staged sector.  The run passes
    all four checks and reboots, but the loop does not end when the 64 bytes
    are done: [bytes_left] goes from 64 to 2^32 - 4032, the loop runs on to
    [target_addr = 131072] and ends there with [bytes_left] not zero, after
    having erased the 31 sectors from 4096 to 126976 and programmed their 496
    pages with the RAM that follows the image. *)
Theorem loop_runs_past_the_image_end :
  let m := power_on padded_flash in
  let run := fobooster_main sum_hash 32 descriptor_only m in
  let pass := programming_pass 32 staged_descriptor 64 padded_flash in
  outcome_of run = Some Rebooted /\
  image_length descriptor_only = 64 /\
  pass_locals pass = Some (mkLocals (4294967296 - 4032 - 31 * 4096) 131072 131072 176) /\
  erase_addrs (pass_ops pass) = map (fun k => 4096 * Z.of_nat k) (seq 1 31) /\
  count is_erase (pass_ops pass) = 31%nat /\
  count is_write (pass_ops pass) = 496%nat /\
  erase_addrs (trace (final_of run m))
  = map (fun k => 4096 * Z.of_nat k) (seq 1 31) ++ [BOOSTER_SECTOR].
Proof. intros m run pass. repeat split; vm_compute; reflexivity. Qed.

(** ** Sectors that already hold the staged bytes *)

(** The skip check only looks at the sector and at the staged bytes. *)
Lemma skip_check_congr (l1 : locals) (m1 : machine) (l2 : locals) (m2 : machine) :
  0 <= target_addr l1 < 4294967296 - SPI_MAPPED_BASE ->
  0 <= target_addr l2 < 4294967296 - SPI_MAPPED_BASE ->
  (forall j, 0 <= j < SPI_ERASE_SECTOR_SIZE ->
             flash m1 (target_addr l1 + j) = flash m2 (target_addr l2 + j)) ->
  (forall j, 0 <= j < SPI_ERASE_SECTOR_SIZE ->
             cached_image m1 (current_ptr l1 + j) = cached_image m2 (current_ptr l2 + j)) ->
  skip_check l1 m1 = skip_check l2 m2.
Proof.
  intros H1 H2 Hf Hr.
  pose proof (skip_check_true_iff l1 m1 H1) as E1.
  pose proof (skip_check_true_iff l2 m2 H2) as E2.
  destruct (skip_check l1 m1) eqn:S1; destruct (skip_check l2 m2) eqn:S2;
    try reflexivity; exfalso.
  - assert (H : false = true); [|discriminate H].
    apply E2. intros j Hj. rewrite <- Hf, <- Hr by exact Hj. now apply E1.
  - assert (H : false = true); [|discriminate H].
    apply E1. intros j Hj. rewrite Hf, Hr by exact Hj. now apply E2.
Qed.

Lemma sector_starts_S (d : nat) :
  sector_starts (S d) = sector_starts d ++ [SPI_ERASE_SECTOR_SIZE * Z.of_nat d].
Proof. unfold sector_starts. rewrite seq_S, map_app. reflexivity. Qed.

Lemma erase_addrs_page_events (img : mem) (ta cp bl : Z) (k : nat) (evs : list event) :
  nv_ops evs = page_writes img ta cp bl k -> erase_addrs evs = [].
Proof.
  intros H. rewrite <- erase_addrs_nv_ops, H. apply erase_addrs_page_writes.
Qed.

Lemma in_erase_addrs (a : Z) (t : list event) :
  In (EvErase4 a) t <-> In a (erase_addrs t).
Proof.
  induction t as [|e t IH]; [reflexivity|].
  destruct e; cbn [erase_addrs In]; rewrite ?IH;
    try (split; [intros [E|E]; [discriminate E|exact E] | intros E; right; exact E]).
  split; intros [E|E]; auto; left; congruence.
Qed.

Lemma sector_same_true_iff (f img : mem) (a : Z) :
  0 <= a < 4294967296 - SPI_MAPPED_BASE ->
  (sector_same f img a = true <->
   forall j, 0 <= j < SPI_ERASE_SECTOR_SIZE -> f (a + j) = img (a + j)).
Proof.
  intros Ha. unfold sector_same.
  apply (skip_check_true_iff (mkLocals 0 a a 0) (pass_machine img 0 f)). exact Ha.
Qed.

(** The program commands of a pass go to sectors the pass has erased. *)
Lemma pass_run_write_in_erased (lo hi : Z) (ops : list event) :
  pass_run lo ops hi ->
  forall b data,
    In (EvWrite b data) ops ->
    exists a, In a (erase_addrs ops) /\
              a mod SPI_ERASE_SECTOR_SIZE = 0 /\
              a <= b < a + SPI_ERASE_SECTOR_SIZE.
Proof.
  induction 1 as [|lo a img cp bl k rest hi Hlo Hal Hk Hrest IH]; intros b data Hin.
  - destruct Hin.
  - cbn [In] in Hin. destruct Hin as [E|Hin]; [discriminate E|].
    apply in_app_or in Hin. destruct Hin as [Hin|Hin].
    + apply page_writes_in in Hin. destruct Hin as (j & Hj & E).
      unfold page_write in E.
      assert (Eb : b = a + SPI_PROGRAM_PAGE_SIZE * Z.of_nat j) by congruence.
      exists a. split; [cbn [erase_addrs]; left; reflexivity|].
      split; [exact Hal|].
      unfold PAGES_PER_SECTOR in Hk. consts. lia.
    + destruct (IH b data Hin) as (a' & Ha' & Hal' & Hb).
      exists a'. split; [|split; assumption].
      cbn [erase_addrs]. right. rewrite erase_addrs_app.
      apply in_or_app. right. exact Ha'.
Qed.

Lemma visit_step (f img : mem) (len : Z)
      (l : locals) (m : machine) (l' : locals) (m' : machine) :
  0 <= len ->
  block_ok l -> block_cond l = true -> visit_inv f img len l m ->
  block_step l m l' m' -> visit_inv f img len l' m'.
Proof.
  intros Hlen0 Hok Hc (Hram & Hcp & d & Her & Hcnt & Hd32 & Hreg) Hstep.
  destruct (block_ok_aligned l Hok Hc) as (Hal & Hta & Hbl).
  destruct Hreg as [(Hb & _)|(Hd & Hfr & Hlen)]; [lia|].
  assert (Hrange : 0 <= target_addr l < 4294967296 - SPI_MAPPED_BASE) by (consts; lia).
  assert (Hsame : skip_check l m = sector_same f img (target_addr l)).
  { unfold sector_same. apply skip_check_congr; cbn [target_addr current_ptr];
      try assumption.
    - intros j Hj. cbn. apply Hfr. lia.
    - intros j Hj. cbn. rewrite Hram, Hcp. reflexivity. }
  destruct Hstep as [Hs -> ->|k evs Hs Hk Hlast Hbl' Hend Hta' Hcp' Hr Htr Hev Hnv Hfl].
  - unfold visit_inv. msimpl.
    split; [exact Hram|]. split; [lia|]. exists (S d).
    split; [|split; [|split]].
    + rewrite <- app_assoc, erase_addrs_app, Her, sector_starts_S, filter_app.
      cbn [erase_addrs filter app]. rewrite <- Hd, <- Hsame, Hs.
      cbn [negb]. reflexivity.
    + rewrite <- app_assoc, count_app, Hcnt. cbn. lia.
    + consts. lia.
    + right. split; [consts; lia|]. split.
      * intros i Hi. apply Hfr. consts. lia.
      * destruct Hlen as [(Eb & Hle)|(Eb & Hlt)].
        -- destruct (Z.lt_ge_cases (bytes_left l) SPI_ERASE_SECTOR_SIZE) as [Hsmall|Hbig].
           ++ right. rewrite wrap32_underflow by (consts; lia). consts. lia.
           ++ left. rewrite wrap32_small by (consts; lia). consts. lia.
        -- right. rewrite wrap32_small by (consts; lia). consts. lia.
  - unfold PAGES_PER_SECTOR in *. destruct Hr as (Hr & _).
    unfold visit_inv.
    split; [congruence|]. split; [lia|]. exists (S d).
    split; [|split; [|split]].
    + rewrite Htr, !erase_addrs_app, Her, sector_starts_S, filter_app.
      rewrite (erase_addrs_page_events _ _ _ _ _ _ Hnv).
      cbn [erase_addrs filter app]. rewrite <- Hd, <- Hsame, Hs.
      cbn [negb]. reflexivity.
    + rewrite Htr, !count_app, Hcnt, (count_page_events evs Hev). cbn. lia.
    + consts. lia.
    + destruct (Z.lt_ge_cases (bytes_left l) SPI_ERASE_SECTOR_SIZE) as [Hsmall|Hbig].
      * left. assert (Hz : bytes_left l' = 0) by (destruct Hend; consts; lia).
        split; [exact Hz|]. consts. lia.
      * right. assert (Ek : k = 16%nat) by (destruct Hend; consts; lia).
        subst k. split; [consts; lia|]. split.
        -- intros i Hi. rewrite Hfl.
           destruct (Z.leb_spec (target_addr l) i);
             destruct (Z.ltb_spec i (target_addr l + SPI_ERASE_SECTOR_SIZE)); cbn [andb];
             try (exfalso; consts; lia); apply Hfr; lia.
        -- consts. lia.
Qed.

(** A pass visits the sectors in order from 0, at least up to the end of the
    image or the bound, and erases exactly the visited sectors that do not
    match the staged bytes. *)
Lemma visit_run (fuel : nat) (f img : mem) (len : Z) :
  (32 <= fuel)%nat ->
  0 <= len < 4294967296 ->
  exists l' m' d,
    programming_pass fuel img len f = Some (l', m') /\
    count is_skip_read (trace m') = d /\
    Z.min len MAX_TARGET_ADDR <= SPI_ERASE_SECTOR_SIZE * Z.of_nat d <= MAX_TARGET_ADDR /\
    erase_addrs (trace m')
    = filter (fun a => negb (sector_same f img a)) (sector_starts d).
Proof.
  intros Hfuel Hlen. unfold programming_pass.
  set (m := pass_machine img len f).
  assert (Hok : block_ok (loop_entry m)) by (apply loop_entry_ok; exact Hlen).
  destruct (program_blocks_rule (visit_inv f img len) (fun l0 m0 l1 m1 => visit_step f img len l0 m0 l1 m1 (proj1 Hlen))
              fuel (loop_entry m) m Hok)
    as (l' & m' & Hrun & (Hram & Hcp & d & Her & Hcnt & Hd32 & Hreg) & Hok' & Hc').
  - unfold visit_inv. split; [reflexivity|]. split; [reflexivity|].
    exists 0%nat. split; [reflexivity|]. split; [reflexivity|].
    change (SPI_ERASE_SECTOR_SIZE * Z.of_nat 0) with 0.
    change (bytes_left (loop_entry m)) with len.
    change (target_addr (loop_entry m)) with 0.
    split; [consts; lia|]. right. split; [reflexivity|].
    split; [reflexivity|]. left. lia.
  - apply fuel_from_zero. exact Hfuel.
  - exists l', m', d. split; [exact Hrun|]. split; [exact Hcnt|].
    split; [|exact Her].
    apply block_cond_false in Hc'. destruct Hok' as (Hblr & Htar & _).
    split; [|exact Hd32].
    destruct Hreg as [(Hb & Hle)|(Hd & _ & Hreg)]; [lia|].
    consts. lia.
Qed.

(** C5, as stated, fails for a partly filled last sector.  The 64-byte image
    is programmed once over an erased target.  On the flash this leaves,
    sector 0 holds every byte of the staged image, byte for byte; all the
    same the body of the loop, run on that sector, erases it and programs the
    64 bytes again: the comparison of main.c:213 runs over the 4096 bytes of
    the sector, and behind the image the flash holds 0xff where
    [cached_image] holds zeros. *)
Lemma sector_holding_the_image_is_rewritten :
  let f0 := flash_with multiboot_reference in
  let f1 := pass_flash (programming_pass 32 staged_descriptor 64 f0) f0 in
  let m := pass_machine staged_descriptor 64 f1 in
  (forall j, 0 <= j < 64 -> f1 j = staged_descriptor j) /\
  f1 64 = xff /\ staged_descriptor 64 = x00 /\
  block_cond (loop_entry m) = true /\
  skip_check (loop_entry m) m = false /\
  option_map (fun r => nv_ops (trace (snd r))) (block_body (loop_entry m) m)
  = Some [EvErase4 0; EvWrite 0 (read_bytes staged_descriptor 0 64)].
Proof.
  intros f0 f1 m.
  split; [|repeat split; vm_compute; reflexivity].
  assert (H : forallb (fun k => Byte.eqb (f1 (Z.of_nat k)) (staged_descriptor (Z.of_nat k)))
                      (seq 0 64) = true) by (vm_compute; reflexivity).
  rewrite forallb_forall in H. intros j Hj.
  specialize (H (Z.to_nat j)). rewrite Z2Nat.id in H by lia.
  apply Byte.byte_dec_bl. apply H. apply in_seq. lia.
Qed.

(** C5, amended.  In any pass over a staged image: (1) the pass makes one
    skip check per sector from address 0 on, at least up to the end of the
    image or the bound, and the sectors it erases are exactly the visited
    ones whose 4096 bytes on the flash, as they were before the pass, differ
    from the 4096 bytes of [cached_image] at the same offset; (2) a sector of
    the target range whose 4096 bytes are equal to those 4096 bytes of
    [cached_image] -- behind the end of the image these are the bytes the
    array holds there -- gets no erase and no program command; (3) the
    commands of the pass are sector rewrites at strictly ascending sector
    addresses, so no sector is erased twice, and each erase is followed at
    once by the program command of the first page of that very sector, then
    by those of its next pages, before anything is done to another sector. *)
Theorem matching_sectors_skipped_and_erase_once
        (fuel : nat) (img : mem) (len : Z) (f : mem) :
  (32 <= fuel)%nat ->
  0 <= len < 4294967296 ->
  exists l' m' d,
    programming_pass fuel img len f = Some (l', m') /\
    (count is_skip_read (trace m') = d /\
     Z.min len MAX_TARGET_ADDR <= SPI_ERASE_SECTOR_SIZE * Z.of_nat d <= MAX_TARGET_ADDR /\
     erase_addrs (trace m')
     = filter (fun a => negb (sector_same f img a)) (sector_starts d)) /\
    (forall a,
        0 <= a < MAX_TARGET_ADDR -> a mod SPI_ERASE_SECTOR_SIZE = 0 ->
        (forall j, 0 <= j < SPI_ERASE_SECTOR_SIZE -> f (a + j) = img (a + j)) ->
        ~ In (EvErase4 a) (trace m') /\
        forall b data, a <= b < a + SPI_ERASE_SECTOR_SIZE ->
                       ~ In (EvWrite b data) (trace m')) /\
    (pass_run 0 (nv_ops (trace m')) MAX_TARGET_ADDR /\
     NoDup (erase_addrs (trace m')) /\
     forall pre a post,
       nv_ops (trace m') = pre ++ EvErase4 a :: post ->
       exists data post', post = EvWrite a data :: post').
Proof.
  intros Hfuel Hlen.
  destruct (visit_run fuel f img len Hfuel Hlen) as (l' & m' & d & Hrun & Hcnt & Hd & Her).
  exists l', m', d. split; [exact Hrun|]. split; [repeat split; try assumption; apply Hd|].
  assert (Hpr : pass_run 0 (nv_ops (trace m')) MAX_TARGET_ADDR).
  { set (m := pass_machine img len f).
    destruct (program_blocks_pass_run fuel (loop_entry m) m)
      as (l2 & m2 & evs & Hrun2 & Htr & Hpr).
    - apply loop_entry_ok. exact Hlen.
    - apply fuel_from_zero. exact Hfuel.
    - unfold programming_pass in Hrun. fold m in Hrun.
      rewrite Hrun in Hrun2. assert (E : m' = m2) by congruence. subst m2.
      rewrite Htr. exact Hpr. }
  assert (Hno : forall a,
             0 <= a < MAX_TARGET_ADDR ->
             (forall j, 0 <= j < SPI_ERASE_SECTOR_SIZE -> f (a + j) = img (a + j)) ->
             ~ In a (erase_addrs (trace m'))).
  { intros a Ha Hsame Hin. rewrite Her in Hin. apply filter_In in Hin.
    destruct Hin as (_ & Hneq).
    apply (sector_same_true_iff f img a) in Hsame; [|consts; lia].
    rewrite Hsame in Hneq. discriminate Hneq. }
  split; [|split; [exact Hpr|split]].
  - intros a Ha Hal Hsame. split.
    + rewrite in_erase_addrs. apply Hno; assumption.
    + intros b data Hb Hin.
      assert (Hin' : In (EvWrite b data) (nv_ops (trace m'))).
      { unfold nv_ops. apply filter_In. split; [exact Hin|reflexivity]. }
      destruct (pass_run_write_in_erased _ _ _ Hpr b data Hin') as (a' & Ha' & Hal' & Hb').
      rewrite erase_addrs_nv_ops in Ha'.
      assert (E : a' = a) by (consts; Z.div_mod_to_equations; lia).
      subst a'. exact (Hno a Ha Hsame Ha').
  - rewrite <- erase_addrs_nv_ops. apply sorted_lt_NoDup.
    apply (pass_run_erase_addrs _ _ _ Hpr).
  - apply (pass_run_erase_then_write _ _ _ Hpr).
Qed.

(** Two sectors staged, the first already in the flash, the second not: the
    first gets no command, the second is erased once and programmed in 16
    pages. *)
Lemma matching_sectors_skipped_and_erase_once_witness :
  let f : mem := fun i => if i <? 4096 then x00 else xff in
  exists l' m',
    programming_pass 32 (fun _ => x00) 8192 f = Some (l', m') /\
    count is_skip_read (trace m') = 2%nat /\
    ~ In (EvErase4 0) (trace m') /\
    (forall data, ~ In (EvWrite 0 data) (trace m')) /\
    erase_addrs (trace m') = [4096] /\
    count is_write (nv_ops (trace m')) = 16%nat /\
    exists data post, nv_ops (trace m') = EvErase4 4096 :: EvWrite 4096 data :: post.
Proof.
  intros f.
  destruct (matching_sectors_skipped_and_erase_once 32 (fun _ => x00) 8192 f)
    as (l' & m' & d & Hrun & (Hcnt & Hd & Her) & Hskip & (_ & _ & Hnext)).
  - lia.
  - lia.
  - assert (Ed : option_map (fun r => count is_skip_read (trace (snd r)))
                            (programming_pass 32 (fun _ => x00) 8192 f)
                 = Some 2%nat) by (vm_compute; reflexivity).
    rewrite Hrun in Ed. cbn [option_map snd] in Ed. subst d.
    assert (Ed2 : count is_skip_read (trace m') = 2%nat) by congruence. clear Ed.
    destruct (Hskip 0) as (Hne & Hnw).
    + unfold MAX_TARGET_ADDR. lia.
    + reflexivity.
    + intros j Hj. unfold f, SPI_ERASE_SECTOR_SIZE in *. cbn [Z.add].
      destruct (Z.ltb_spec j 4096); [reflexivity|lia].
    + assert (Eops : exists post,
                 pass_ops (programming_pass 32 (fun _ => x00) 8192 f)
                 = [] ++ EvErase4 4096 :: post /\
                 count is_write (pass_ops (programming_pass 32 (fun _ => x00) 8192 f))
                 = 16%nat).
      { eexists. split; vm_compute; reflexivity. }
      destruct Eops as (post & Eops & Ecw). rewrite Hrun in Eops, Ecw.
      cbn [pass_ops] in Eops, Ecw.
      exists l', m'. split; [exact Hrun|]. split; [exact Ed2|].
      split; [exact Hne|]. split.
      * intros data. apply Hnw. unfold SPI_ERASE_SECTOR_SIZE. lia.
      * split; [rewrite Her, Ed2; vm_compute; reflexivity|]. split.
        -- exact Ecw.
        -- destruct (Hnext _ _ _ Eops) as (data & post' & ->).
           exists data, post'. exact Eops.
Defined.

(** * Further properties of main.c *)

(** ** The calls of a run, in order *)

Lemma program_pages_calls (fuel : nat) : forall po l m l' m',
  program_pages fuel po l m = Some (l', m') ->
  exists evs, trace m' = trace m ++ evs /\ page_calls evs.
Proof.
  induction fuel as [|fuel IH]; intros po l m l' m' H; cbn [program_pages] in H;
    destruct (page_cond po l).
  - discriminate.
  - injection H as <- <-. exists []. rewrite app_nil_r. split; [reflexivity|constructor].
  - unfold page_body in H. apply IH in H. destruct H as (evs & Htr & Hev).
    msimpl. eexists. split.
    + rewrite Htr, <- !app_assoc. cbn [app]. reflexivity.
    + constructor. exact Hev.
  - injection H as <- <-. exists []. rewrite app_nil_r. split; [reflexivity|constructor].
Qed.

Lemma program_blocks_calls (fuel : nat) : forall l m l' m',
  program_blocks fuel l m = Some (l', m') ->
  exists evs, trace m' = trace m ++ evs /\ pass_calls evs.
Proof.
  induction fuel as [|fuel IH]; intros l m l' m' H; cbn [program_blocks] in H;
    destruct (block_cond l).
  - discriminate.
  - injection H as <- <-. exists []. rewrite app_nil_r. split; [reflexivity|constructor].
  - destruct (block_body l m) as [[l1 m1]|] eqn:Hb; [|discriminate].
    apply IH in H. destruct H as (evs & Htr & Hev).
    unfold block_body in Hb.
    destruct (skip_check l (picorvspi_cfg4_write 128 m)).
    + injection Hb as <- <-. msimpl. eexists. split.
      * rewrite Htr, <- !app_assoc. cbn [app]. reflexivity.
      * constructor. exact Hev.
    + apply program_pages_calls in Hb. destruct Hb as (ps & Htr1 & Hps).
      msimpl. eexists. split.
      * rewrite Htr, Htr1, <- !app_assoc. cbn [app]. reflexivity.
      * constructor; assumption.
  - injection H as <- <-. exists []. rewrite app_nil_r. split; [reflexivity|constructor].
Qed.

Lemma run_has_calls
      (XXH32 : list byte -> Z -> Z) (fuel : nat) (inp : booster_input)
      (m : machine) (out : outcome) (m' : machine) :
  fobooster_main XXH32 fuel inp m = Some (out, m') ->
  exists evs, trace m' = trace m ++ evs /\ run_calls out evs.
Proof.
  unfold fobooster_main. intros H.
  destruct (startup_frame m) as (_ & _ & Ht0).
  pose proof (validate_frame XXH32 inp (startup m)) as Hv.
  destruct (validate XXH32 inp (startup m)) as [m1|code1 m1].
  - destruct Hv as (_ & Ht1).
    pose proof (confirm_identity_frame inp m1) as Hc.
    destruct (confirm_identity inp m1) as [m2|code2 m2].
    + destruct Hc as (_ & _ & _ & Ht2).
      destruct (program_blocks fuel (loop_entry m2) m2) as [[l3 m3]|] eqn:Hloop;
        [|discriminate].
      injection H as <- <-.
      apply program_blocks_calls in Hloop. destruct Hloop as (evs & Ht3 & Hev).
      eexists. split; [|apply run_calls_reboot; exact Hev].
      unfold finish, handoff, startup_calls. msimpl.
      rewrite Ht3, Ht2, Ht1, Ht0, <- !app_assoc. reflexivity.
    + injection H as <- <-. destruct Hc as (_ & _ & Ht2 & _ & ->).
      eexists. split; [|apply run_calls_identity].
      rewrite Ht2, Ht1, Ht0, <- !app_assoc. reflexivity.
  - injection H as <- <-. destruct Hv as (_ & Ht1 & _ & _ & Hne).
    eexists. split; [|apply run_calls_validation; exact Hne].
    rewrite Ht1, Ht0, <- !app_assoc. reflexivity.
Qed.

(** X1.  The calls of a run, whatever the input: the five start-up calls;
    then either the error light (a check of the validation failed), or the
    switch to bit-banged mode, a wait and the identity query followed by the
    error light (identity mismatch), or the same three calls followed by the
    calls of the programming loop, the "writing" light, the delay and the
    hand-off.  The last call is the error light when the run failed and the
    write to the reboot register when it did not. *)
Theorem calls_of_a_run
        (XXH32 : list byte -> Z -> Z) (fuel : nat) (inp : booster_input)
        (m : machine) (out : outcome) (m' : machine) :
  fobooster_main XXH32 fuel inp m = Some (out, m') ->
  exists evs,
    trace m' = trace m ++ evs /\ run_calls out evs /\
    exists before,
      evs = before ++ [match out with
                       | Failed _ => EvRgbModeError
                       | Rebooted => EvRebootCtrlWrite 0xae
                       end].
Proof.
  intros H. destruct (run_has_calls XXH32 fuel inp m out m' H) as (evs & Htr & Hev).
  exists evs. split; [exact Htr|]. split; [exact Hev|].
  destruct Hev as [code Hne| |loop Hloop].
  - exists startup_calls. reflexivity.
  - exists (startup_calls ++ [EvCfg4Write 0; EvBusyWait; EvSpiId]).
    rewrite <- app_assoc. reflexivity.
  - exists (startup_calls ++ [EvCfg4Write 0; EvBusyWait; EvSpiId] ++ loop
              ++ [EvRgbModeWriting; EvMsleep 1000]
              ++ [EvBusyWait; EvWrite BOOT_SELECTOR [x00]; EvBusyWait;
                  EvBusyWait; EvErase4 BOOSTER_SECTOR; EvBusyWait]).
    unfold handoff. rewrite <- !app_assoc. reflexivity.
Qed.

Lemma calls_of_a_run_witness :
  let m := power_on (flash_with multiboot_reference) in
  let r := fobooster_main sum_hash 32 descriptor_only m in
  outcome_of r = Some Rebooted /\
  exists evs, trace (final_of r m) = evs /\ run_calls Rebooted evs.
Proof.
  intros m r.
  assert (Hrun : outcome_of r = Some Rebooted) by (vm_compute; reflexivity).
  split; [exact Hrun|].
  destruct (calls_of_a_run sum_hash 32 descriptor_only m Rebooted (final_of r m)
              (run_result r _ m Hrun)) as (evs & Htr & Hev & _).
  exists evs. split; [exact Htr | exact Hev].
Defined.

(** ** Waits and modes *)

Lemma waits_first_weaken (t : list event) :
  waits_first false t = true -> forall w, waits_first w t = true.
Proof.
  destruct t as [|e t]; [reflexivity|]. cbn [waits_first]. intros H w.
  destruct (is_flash_command e); [discriminate H|exact H].
Qed.

Lemma waits_first_app (s t : list event) : forall w,
  waits_first w s = true -> waits_first false t = true ->
  waits_first w (s ++ t) = true.
Proof.
  induction s as [|e s IH]; intros w Hs Ht.
  - cbn [app]. apply waits_first_weaken. exact Ht.
  - cbn [app waits_first] in *. apply andb_true_iff in Hs. destruct Hs as (H1 & H2).
    rewrite H1. cbn [andb]. apply IH; assumption.
Qed.

Lemma page_calls_wait (ps : list event) :
  page_calls ps -> waits_first false ps = true.
Proof. induction 1 as [|c a d rest _ IH]; [reflexivity|]. cbn. apply waits_first_weaken, IH. Qed.

Lemma pass_calls_wait (evs : list event) :
  pass_calls evs -> waits_first false evs = true.
Proof.
  induction 1 as [|rest _ IH|a ps rest Hps _ IH]; [reflexivity|exact IH|].
  cbn. apply waits_first_app; [|exact IH].
  apply waits_first_weaken, page_calls_wait, Hps.
Qed.

(** What [waits_first] says, call by call. *)
Lemma waits_first_spec (t : list event) : forall w,
  waits_first w t = true ->
  forall pre e post,
    t = pre ++ e :: post -> is_flash_command e = true ->
    (pre = [] /\ w = true) \/ exists pre', pre = pre' ++ [EvBusyWait].
Proof.
  induction t as [|x t IH]; intros w H pre e post E He.
  - destruct pre; discriminate.
  - cbn [waits_first] in H. apply andb_true_iff in H. destruct H as (H1 & H2).
    destruct pre as [|y pre]; cbn [app] in E; injection E as -> E.
    + left. rewrite He in H1. auto.
    + right. destruct (IH _ H2 pre e post E He) as [(-> & Hw)|(pre' & ->)].
      * exists []. destruct y; try discriminate Hw. reflexivity.
      * exists (y :: pre'). reflexivity.
Qed.

(** X2.  In every run, each command sent to the flash chip -- an erase, a
    program or the identity query -- comes directly after a busy wait: the
    call just before it is [ftfl_busy_wait]. *)
Theorem flash_commands_follow_a_wait
        (XXH32 : list byte -> Z -> Z) (fuel : nat) (inp : booster_input)
        (m : machine) (out : outcome) (m' : machine) :
  fobooster_main XXH32 fuel inp m = Some (out, m') ->
  exists evs,
    trace m' = trace m ++ evs /\
    waits_first false evs = true /\
    forall pre e post,
      evs = pre ++ e :: post -> is_flash_command e = true ->
      exists pre', pre = pre' ++ [EvBusyWait].
Proof.
  intros H. destruct (run_has_calls XXH32 fuel inp m out m' H) as (evs & Htr & Hev).
  exists evs. split; [exact Htr|].
  assert (Hw : waits_first false evs = true).
  { destruct Hev as [code Hne| |loop Hloop]; try reflexivity.
    unfold startup_calls. cbn [app waits_first is_flash_command is_busy_wait andb].
    apply waits_first_app; [|reflexivity].
    apply waits_first_weaken, pass_calls_wait, Hloop. }
  split; [exact Hw|]. intros pre e post E He.
  destruct (waits_first_spec evs false Hw pre e post E He) as [(_ & Hf)|Hp];
    [discriminate Hf | exact Hp].
Qed.

Lemma flash_commands_follow_a_wait_witness :
  let m := power_on (flash_with multiboot_reference) in
  let r := fobooster_main sum_hash 32 descriptor_only m in
  outcome_of r = Some Rebooted /\
  waits_first false (trace (final_of r m)) = true.
Proof.
  intros m r.
  assert (Hrun : outcome_of r = Some Rebooted) by (vm_compute; reflexivity).
  split; [exact Hrun|].
  destruct (flash_commands_follow_a_wait sum_hash 32 descriptor_only m Rebooted
              (final_of r m) (run_result r _ m Hrun)) as (evs & Htr & Hw & _).
  rewrite Htr. exact Hw.
Defined.

Lemma page_calls_mode (ps : list event) :
  page_calls ps -> forall t, bitbang_only false (ps ++ t) = bitbang_only false t.
Proof. induction 1 as [|c a d rest _ IH]; intros t; [reflexivity|]. cbn. apply IH. Qed.

Lemma pass_calls_mode (evs : list event) :
  pass_calls evs -> forall t, bitbang_only false (evs ++ t) = bitbang_only false t.
Proof.
  induction 1 as [|rest _ IH|a ps rest Hps _ IH]; intros t; [reflexivity|apply IH|].
  cbn [app bitbang_only is_flash_command].
  change (selects_mapped 128) with true. change (selects_mapped 0) with false.
  cbn [negb andb]. rewrite <- app_assoc, (page_calls_mode ps Hps). apply IH.
Qed.

(** What [bitbang_only] says, call by call. *)
Lemma bitbang_only_spec (t : list event) : forall mapped,
  bitbang_only mapped t = true ->
  forall pre e post,
    t = pre ++ e :: post -> is_flash_command e = true ->
    (mapped = false /\ Forall (fun x => is_cfg4_write x = false) pre) \/
    exists p1 v p2,
      pre = p1 ++ EvCfg4Write v :: p2 /\ selects_mapped v = false /\
      Forall (fun x => is_cfg4_write x = false) p2.
Proof.
  induction t as [|x t IH]; intros mapped H pre e post E He.
  - destruct pre; discriminate.
  - destruct pre as [|y pre]; cbn [app] in E; injection E as -> E.
    + left. split; [|constructor].
      destruct e; try discriminate He; cbn in H; destruct mapped; auto; discriminate.
    + assert (Hcases :
                (exists v, y = EvCfg4Write v /\ bitbang_only (selects_mapped v) t = true) \/
                (is_cfg4_write y = false /\ bitbang_only mapped t = true)).
      { destruct y; cbn [bitbang_only] in H;
          try (right; split; [reflexivity|];
               apply andb_true_iff in H; destruct H as (_ & H); exact H).
        left. eexists. split; [reflexivity|exact H]. }
      destruct Hcases as [(v & -> & Ht)|(Hy & Ht)].
      * right. destruct (IH _ Ht pre e post E He) as [(Hv & Hp)|(p1 & v' & p2 & -> & Hv & Hp)].
        { exists [], v, pre. auto. }
        { exists (EvCfg4Write v :: p1), v', p2. auto. }
      * destruct (IH _ Ht pre e post E He) as [(Hv & Hp)|(p1 & v' & p2 & -> & Hv & Hp)].
        { left. split; [exact Hv|]. constructor; assumption. }
        { right. exists (y :: p1), v', p2. auto. }
Qed.

(** X3.  In every run that starts with the memory-mapped window on, no
    command is sent to the flash chip while the window is on: before each
    erase, program or identity query there is a write to [cfg4], and the
    last one before the command has bit 7 clear (bit-banged mode). *)
Theorem flash_commands_in_bitbang_mode
        (XXH32 : list byte -> Z -> Z) (fuel : nat) (inp : booster_input)
        (m : machine) (out : outcome) (m' : machine) :
  fobooster_main XXH32 fuel inp m = Some (out, m') ->
  exists evs,
    trace m' = trace m ++ evs /\
    bitbang_only true evs = true /\
    forall pre e post,
      evs = pre ++ e :: post -> is_flash_command e = true ->
      exists p1 v p2,
        pre = p1 ++ EvCfg4Write v :: p2 /\ selects_mapped v = false /\
        Forall (fun x => is_cfg4_write x = false) p2.
Proof.
  intros H. destruct (run_has_calls XXH32 fuel inp m out m' H) as (evs & Htr & Hev).
  exists evs. split; [exact Htr|].
  assert (Hb : bitbang_only true evs = true).
  { destruct Hev as [code Hne| |loop Hloop]; try reflexivity.
    unfold startup_calls. cbn [app bitbang_only is_flash_command].
    change (selects_mapped 0) with false. cbn [negb andb].
    rewrite (pass_calls_mode loop Hloop). reflexivity. }
  split; [exact Hb|]. intros pre e post E He.
  destruct (bitbang_only_spec evs true Hb pre e post E He) as [(Hf & _)|Hp];
    [discriminate Hf | exact Hp].
Qed.

Lemma flash_commands_in_bitbang_mode_witness :
  let m := power_on (flash_with multiboot_reference) in
  let r := fobooster_main sum_hash 32 descriptor_only m in
  outcome_of r = Some Rebooted /\
  bitbang_only true (trace (final_of r m)) = true.
Proof.
  intros m r.
  assert (Hrun : outcome_of r = Some Rebooted) by (vm_compute; reflexivity).
  split; [exact Hrun|].
  destruct (flash_commands_in_bitbang_mode sum_hash 32 descriptor_only m Rebooted
              (final_of r m) (run_result r _ m Hrun)) as (evs & Htr & Hb & _).
  rewrite Htr. exact Hb.
Defined.

(** ** Which way a run ends *)

(** X4.  A run always ends, and the first check that fails, in the order
    size, hash, descriptor, identity, decides how: a later check is not even
    made.  The run reboots exactly when none fails.  [error_code] holds the
    code of the failure afterwards and is left alone by a run that reboots. *)
Theorem outcome_is_first_failing_check
        (XXH32 : list byte -> Z -> Z) (fuel : nat) (inp : booster_input)
        (m : machine) :
  (32 <= fuel)%nat ->
  0 <= image_length inp ->
  let r := fobooster_main XXH32 fuel inp m in
  outcome_of r =
  Some (if image_length inp >? sizeof_cached_image then Failed INVALID_IMAGE_SIZE
        else if negb (hash_of_source XXH32 inp m =? xxhash inp) then Failed HASH_MISMATCH
        else if negb (multiboot_ok (staged_copy inp m)) then Failed MISSING_MULTIBOOT
        else if negb (spi_id inp =? spiId_answer inp) then Failed SPI_MISMATCH
        else Rebooted) /\
  error_code_var (final_of r m) =
  match outcome_of r with
  | Some (Failed code) => code
  | _ => error_code_var m
  end.
Proof.
  intros Hfuel Hlen r. subst r. unfold fobooster_main.
  change (staged_copy inp m) with (staged_copy inp (startup m)).
  change (hash_of_source XXH32 inp m) with (hash_of_source XXH32 inp (startup m)).
  destruct (validate_cases XXH32 inp (startup m))
    as [(Hsz & ->)|[(Hsz & Hh & ->)|[(Hsz & Hh & Hmb & ->)|(Hsz & Hh & Hmb & ->)]]].
  - apply Z.gt_lt, Z.gtb_lt in Hsz. rewrite Hsz. split; reflexivity.
  - assert (E : (image_length inp >? sizeof_cached_image) = false)
      by (rewrite Z.gtb_ltb; apply Z.ltb_ge; exact Hsz).
    rewrite E. apply Z.eqb_neq in Hh. rewrite Hh. split; reflexivity.
  - assert (E : (image_length inp >? sizeof_cached_image) = false)
      by (rewrite Z.gtb_ltb; apply Z.ltb_ge; exact Hsz).
    rewrite E. apply Z.eqb_eq in Hh. rewrite Hh, Hmb. split; reflexivity.
  - assert (E : (image_length inp >? sizeof_cached_image) = false)
      by (rewrite Z.gtb_ltb; apply Z.ltb_ge; exact Hsz).
    rewrite E. apply Z.eqb_eq in Hh. rewrite Hh, Hmb. cbn [negb].
    match goal with
    | |- context [confirm_identity inp ?m1] =>
        destruct (confirm_identity_cases inp m1) as [(Hid & ->)|(Hid & ->)]
    end.
    + apply Z.eqb_neq in Hid. rewrite Hid. split; reflexivity.
    + apply Z.eqb_eq in Hid. rewrite Hid. cbn [negb].
      match goal with
      | |- context [program_blocks fuel (loop_entry ?m2) ?m2] =>
          assert (Hok : block_ok (loop_entry m2))
            by (apply loop_entry_ok; msimpl; consts; lia);
          destruct (program_blocks_frame fuel (loop_entry m2) m2 Hok
                      (fuel_from_zero fuel m2 Hfuel))
            as (l3 & m3 & -> & _ & _ & (_ & He & _) & _ & _)
      end.
      cbn [outcome_of option_map fst final_of]. split; [reflexivity|].
      destruct (finish_effect m3) as (_ & (_ & He4 & _) & _).
      rewrite He4, He. reflexivity.
Qed.

(** Two checks would fail: the length is above the capacity and the hash is
    wrong.  The size check, the first, decides. *)
Lemma outcome_is_first_failing_check_witness :
  let inp := mkInput 0x1a001 64 0 0xc2152815 (sum_hash multiboot_reference 0 + 1)
                     0xc2152815 in
  let m := power_on (flash_with multiboot_reference) in
  outcome_of (fobooster_main sum_hash 32 inp m) = Some (Failed INVALID_IMAGE_SIZE) /\
  error_code_var (final_of (fobooster_main sum_hash 32 inp m) m) = INVALID_IMAGE_SIZE.
Proof.
  intros inp m.
  destruct (outcome_is_first_failing_check sum_hash 32 inp m) as (H1 & H2).
  - lia.
  - cbn. lia.
  - split; [exact H1|]. rewrite H2, H1. reflexivity.
Defined.

(** ** What a programming pass leaves in the flash *)

Section Written.

Variables (img : mem) (len : Z).
Hypothesis len_range : 0 <= len < 4294967296.

Lemma written_step (l : locals) (m : machine) (l' : locals) (m' : machine) :
  block_ok l -> block_cond l = true -> written_inv img len l m ->
  block_step l m l' m' -> written_inv img len l' m'.
Proof.
  intros Hok Hc (Hram & Hcp & Hpre & Hreg) Hstep.
  destruct (block_ok_aligned l Hok Hc) as (Hal & Hta & Hbl).
  destruct Hok as (Hblr & _ & _).
  assert (Hrange : 0 <= target_addr l < 4294967296 - SPI_MAPPED_BASE) by (consts; lia).
  destruct Hstep as [Hs -> ->|k evs Hs Hk Hlast Hbl' Hend Hta' Hcp' Hr Htr Hev Hnv Hfl].
  - pose proof (proj1 (skip_check_true_iff l m Hrange) Hs) as Hsame.
    unfold written_inv. msimpl.
    split; [exact Hram|]. split; [lia|]. split.
    + intros i Hi. destruct (Z.lt_ge_cases i (target_addr l)) as [Hlt|Hge].
      * apply Hpre. lia.
      * specialize (Hsame (i - target_addr l)).
        replace (target_addr l + (i - target_addr l)) with i in Hsame by lia.
        rewrite Hsame by (consts; lia). rewrite Hram, Hcp. f_equal. lia.
    + destruct Hreg as [(Hb & Hle)|[(Hb & Hle)|(Hb & Hlt)]]; [| lia |].
      * destruct (Z.lt_ge_cases (bytes_left l) SPI_ERASE_SECTOR_SIZE) as [Hsmall|Hbig].
        { right. right. rewrite wrap32_underflow by (consts; lia). consts. lia. }
        { left. rewrite wrap32_small by (consts; lia). consts. lia. }
      * right. right. rewrite wrap32_small by (consts; lia). consts. lia.
  - unfold PAGES_PER_SECTOR in *. destruct Hr as (Hr & _).
    unfold written_inv.
    split; [congruence|]. split; [lia|]. split.
    + intros i Hi. rewrite Hfl.
      destruct (Z.leb_spec (target_addr l) i);
        destruct (Z.ltb_spec i (target_addr l + SPI_ERASE_SECTOR_SIZE)); cbn [andb];
        try (apply Hpre; lia); try (exfalso; consts; lia).
      destruct (Z.ltb_spec i (target_addr l + Z.min (SPI_PROGRAM_PAGE_SIZE * Z.of_nat k)
                                                    (bytes_left l))) as [_|Hge].
      * rewrite Hram, Hcp. f_equal. lia.
      * exfalso. consts. lia.
    + destruct Hreg as [(Hb & Hle)|[(Hb & Hle)|(Hb & Hlt)]]; [| lia |].
      * destruct (Z.lt_ge_cases (bytes_left l) (SPI_PROGRAM_PAGE_SIZE * Z.of_nat k))
          as [Hshort|Hfull].
        { right. left. consts. lia. }
        { left. consts. lia. }
      * right. right. consts. lia.
Qed.

Lemma written_exit (l : locals) (m : machine) :
  block_ok l -> block_cond l = false -> written_inv img len l m ->
  forall i, 0 <= i < Z.min len MAX_TARGET_ADDR -> flash m i = img i.
Proof.
  intros (Hbl & Hta & _) Hc (_ & _ & Hpre & Hreg) i Hi.
  apply block_cond_false in Hc. apply Hpre. consts. lia.
Qed.

(** The result of a loop that ended, with any fuel. *)
Lemma written_result (fuel : nat) (l : locals) (m : machine)
      (l' : locals) (m' : machine) :
  block_ok l -> written_inv img len l m ->
  program_blocks fuel l m = Some (l', m') ->
  forall i, 0 <= i < Z.min len MAX_TARGET_ADDR -> flash m' i = img i.
Proof.
  intros Hok Hinv Hrun.
  destruct (program_blocks_rule (written_inv img len) written_step
              (fuel + 32) l m Hok Hinv)
    as (l1 & m1 & Hrun1 & Hinv1 & Hok1 & Hc1).
  - intros _. destruct Hok as (_ & Hta & _). consts. lia.
  - apply program_blocks_fuel_mono with (fuel' := (fuel + 32)%nat) in Hrun; [|lia].
    rewrite Hrun in Hrun1. injection Hrun1 as <- <-.
    eapply written_exit; eassumption.
Qed.

End Written.

Lemma written_at_entry (m : machine) :
  0 <= cached_image_length m ->
  written_inv (cached_image m) (cached_image_length m) (loop_entry m) m.
Proof.
  intros H. unfold written_inv, loop_entry. cbn [bytes_left target_addr current_ptr].
  split; [reflexivity|]. split; [reflexivity|]. split; [intros i Hi; lia|].
  left. lia.
Qed.

(** X5.  A programming pass over a staged image of any length ends and
    leaves the image in the flash: every offset below the length (and below
    the bound 131072) reads as the staged byte, whatever the flash held
    before and whichever sectors were skipped; the flash from the bound on is
    as it was. *)
Theorem pass_writes_the_image (fuel : nat) (img : mem) (len : Z) (f : mem) :
  (32 <= fuel)%nat ->
  0 <= len < 4294967296 ->
  exists l' m',
    programming_pass fuel img len f = Some (l', m') /\
    (forall i, 0 <= i < Z.min len MAX_TARGET_ADDR -> flash m' i = img i) /\
    (forall i, MAX_TARGET_ADDR <= i -> flash m' i = f i).
Proof.
  intros Hfuel Hlen. unfold programming_pass.
  set (m := pass_machine img len f).
  assert (Hok : block_ok (loop_entry m)) by (apply loop_entry_ok; exact Hlen).
  destruct (program_blocks_frame fuel (loop_entry m) m Hok (fuel_from_zero fuel m Hfuel))
    as (l' & m' & Hrun & _ & _ & _ & _ & Hfl).
  exists l', m'. split; [exact Hrun|]. split.
  - apply (written_result img len Hlen fuel (loop_entry m) m l' m' Hok);
      [|exact Hrun].
    apply (written_at_entry m). cbn. lia.
  - intros i Hi. apply Hfl. now right.
Qed.

(** A 64-byte image over an erased flash. *)
Lemma pass_writes_the_image_witness :
  exists l' m',
    programming_pass 32 staged_descriptor 64 (flash_with multiboot_reference)
    = Some (l', m') /\
    flash m' 9 = x04.
Proof.
  destruct (pass_writes_the_image 32 staged_descriptor 64 (flash_with multiboot_reference))
    as (l' & m' & Hrun & Himg & _).
  - lia.
  - lia.
  - exists l', m'. split; [exact Hrun|]. rewrite Himg; [reflexivity|]. cbn. lia.
Defined.

(** X6.  After a run that reboots, the flash holds the install image: every
    offset below [image_length] other than 9 reads as the byte the loader
    found at 0x20040000 plus that offset; offset 9 reads 0x00; the sector at
    0x5a000 reads erased; and from 131072 on, outside that sector, the flash
    is as it was. *)
Theorem reboot_leaves_image_in_flash
        (XXH32 : list byte -> Z -> Z) (fuel : nat) (inp : booster_input)
        (m m' : machine) :
  0 <= image_length inp ->
  fobooster_main XXH32 fuel inp m = Some (Rebooted, m') ->
  (forall i, 0 <= i < image_length inp -> i <> BOOT_SELECTOR ->
             flash m' i = mapped (flash m) (IMAGE_SOURCE + i)) /\
  flash m' BOOT_SELECTOR = x00 /\
  (forall i, BOOSTER_SECTOR <= i < BOOSTER_SECTOR + SPI_ERASE_SECTOR_SIZE ->
             flash m' i = xff) /\
  (forall i, MAX_TARGET_ADDR <= i ->
             ~ BOOSTER_SECTOR <= i < BOOSTER_SECTOR + SPI_ERASE_SECTOR_SIZE ->
             flash m' i = flash m i).
Proof.
  intros Hlen H.
  destruct (rebooted_run XXH32 fuel inp m m' H)
    as ((Hsz & _) & m2 & l3 & m3 & (Hf2 & Hr2 & Hl2 & _ & _) & Hloop & ->).
  assert (Hrange : 0 <= cached_image_length m2 < 4294967296)
    by (rewrite Hl2; consts; lia).
  assert (Hok : block_ok (loop_entry m2)) by (apply loop_entry_ok; exact Hrange).
  pose proof (written_result (cached_image m2) (cached_image_length m2) Hrange
                fuel (loop_entry m2) m2 l3 m3 Hok
                (written_at_entry m2 (proj1 Hrange)) Hloop) as Himg.
  destruct (program_blocks_result fuel _ _ _ _ Hok Hloop) as (_ & _ & _ & _ & Hf3).
  destruct (finish_effect m3) as (_ & _ & Hsel & Hsec & Hf4).
  split; [|split; [exact Hsel|split; [exact Hsec|]]].
  - intros i Hi Hne. rewrite Hf4 by (consts; lia).
    rewrite Himg by (rewrite Hl2; consts; lia).
    rewrite Hr2. unfold store, staged_copy, memcpy.
    destruct (Z.eqb_spec i BOOT_SELECTOR); [contradiction|].
    destruct (Z.leb_spec 0 i); [|lia].
    destruct (Z.ltb_spec i (0 + image_length inp)); [|lia].
    cbn [andb]. f_equal. lia.
  - intros i Hi Hns. rewrite Hf4 by (consts; lia).
    rewrite Hf3 by (right; exact Hi). rewrite Hf2. reflexivity.
Qed.

Lemma reboot_leaves_image_in_flash_witness :
  let m := power_on (flash_with multiboot_reference) in
  let r := fobooster_main sum_hash 32 descriptor_only m in
  outcome_of r = Some Rebooted /\
  flash (final_of r m) 0 = x7e /\
  flash (final_of r m) BOOT_SELECTOR = x00.
Proof.
  intros m r.
  assert (Hrun : outcome_of r = Some Rebooted) by (vm_compute; reflexivity).
  split; [exact Hrun|].
  assert (Hlen : 0 <= image_length descriptor_only) by (cbn; lia).
  destruct (reboot_leaves_image_in_flash sum_hash 32 descriptor_only m (final_of r m)
              Hlen (run_result r _ m Hrun)) as (Himg & Hsel & _).
  split; [|exact Hsel].
  rewrite Himg; [reflexivity | cbn; lia | discriminate].
Defined.

(** ** A pass in which the last sector of the image does not match *)

Section CleanPass.

Variables (f img : mem) (len : Z).
Hypothesis len_range : 0 <= len <= MAX_TARGET_ADDR.
Hypothesis tail : tail_differs f img len.

Lemma clean_step (l : locals) (m : machine) (l' : locals) (m' : machine) :
  block_ok l -> block_cond l = true -> clean_pass_inv f img len l m ->
  block_step l m l' m' -> clean_pass_inv f img len l' m'.
Proof.
  intros Hok Hc (Hram & Hcp & d & Her & Hcnt & Hreg) Hstep.
  destruct (block_ok_aligned l Hok Hc) as (Hal & Hta & Hbl).
  destruct Hreg as [(Hd & Hle & Hb & Hfr)|(_ & Hb & _)]; [|lia].
  assert (Hrange : 0 <= target_addr l < 4294967296 - SPI_MAPPED_BASE) by (consts; lia).
  assert (Hsame : skip_check l m = sector_same f img (target_addr l)).
  { unfold sector_same. apply skip_check_congr; cbn [target_addr current_ptr];
      try assumption.
    - intros j Hj. cbn. apply Hfr. lia.
    - intros j Hj. cbn. rewrite Hram, Hcp. reflexivity. }
  destruct Hstep as [Hs -> ->|k evs Hs Hk Hlast Hbl' Hend Hta' Hcp' Hr Htr Hev Hnv Hfl].
  - (* the sector matches: it is not the partly filled last one *)
    assert (Hfull : SPI_ERASE_SECTOR_SIZE <= bytes_left l).
    { destruct (Z.lt_ge_cases (bytes_left l) SPI_ERASE_SECTOR_SIZE) as [Hsmall|]; [|assumption].
      exfalso. destruct tail as [Hw|Hdiff].
      - consts. Z.div_mod_to_equations. lia.
      - replace (len - len mod SPI_ERASE_SECTOR_SIZE) with (target_addr l) in Hdiff
          by (consts; Z.div_mod_to_equations; lia).
        congruence. }
    unfold clean_pass_inv. msimpl.
    split; [exact Hram|]. split; [lia|]. exists (S d).
    split; [|split].
    + rewrite <- app_assoc, erase_addrs_app, Her, sector_starts_S, filter_app.
      cbn [erase_addrs filter app]. rewrite <- Hd, <- Hsame, Hs.
      cbn [negb]. reflexivity.
    + rewrite <- app_assoc, count_app, Hcnt. cbn. lia.
    + left. rewrite wrap32_small by (consts; lia).
      split; [consts; lia|]. split; [consts; lia|]. split; [consts; lia|].
      intros i Hi. apply Hfr. consts. lia.
  - unfold PAGES_PER_SECTOR in *. destruct Hr as (Hr & _).
    unfold clean_pass_inv.
    split; [congruence|]. split; [lia|]. exists (S d).
    split; [|split].
    + rewrite Htr, !erase_addrs_app, Her, sector_starts_S, filter_app.
      rewrite (erase_addrs_page_events _ _ _ _ _ _ Hnv).
      cbn [erase_addrs filter app]. rewrite <- Hd, <- Hsame, Hs.
      cbn [negb]. reflexivity.
    + rewrite Htr, !count_app, Hcnt, (count_page_events evs Hev). cbn. lia.
    + destruct (Z.lt_ge_cases (bytes_left l) SPI_ERASE_SECTOR_SIZE) as [Hsmall|Hbig].
      * right. assert (Hz : bytes_left l' = 0) by (destruct Hend; consts; lia).
        split; [|split; [exact Hz|consts; lia]].
        unfold sectors_of. consts.
        replace ((len + (4096 - 1)) / 4096) with (Z.of_nat d + 1)
          by (Z.div_mod_to_equations; lia).
        lia.
      * left. assert (Ek : k = 16%nat) by (destruct Hend; consts; lia).
        subst k. split; [consts; lia|]. split; [consts; lia|]. split; [consts; lia|].
        intros i Hi. rewrite Hfl.
        destruct (Z.leb_spec (target_addr l) i);
          destruct (Z.ltb_spec i (target_addr l + SPI_ERASE_SECTOR_SIZE)); cbn [andb];
          try (exfalso; consts; lia); apply Hfr; lia.
Qed.

Lemma clean_pass_run (fuel : nat) :
  (32 <= fuel)%nat ->
  exists l' m',
    programming_pass fuel img len f = Some (l', m') /\
    bytes_left l' = 0 /\
    len <= target_addr l' < len + SPI_PROGRAM_PAGE_SIZE /\
    current_ptr l' = target_addr l' /\
    count is_skip_read (trace m') = sectors_of len /\
    erase_addrs (trace m')
    = filter (fun a => negb (sector_same f img a)) (sector_starts (sectors_of len)).
Proof.
  intros Hfuel. unfold programming_pass.
  set (m := pass_machine img len f).
  assert (Hok : block_ok (loop_entry m))
    by (apply loop_entry_ok; cbn; consts; lia).
  destruct (program_blocks_rule (clean_pass_inv f img len) clean_step
              fuel (loop_entry m) m Hok)
    as (l' & m' & Hrun & (Hram & Hcp & d & Her & Hcnt & Hreg) & Hok' & Hc').
  - unfold clean_pass_inv. cbn. split; [reflexivity|]. split; [reflexivity|].
    exists 0%nat. split; [reflexivity|]. split; [reflexivity|].
    left. repeat split; try lia; consts; lia.
  - apply fuel_from_zero. exact Hfuel.
  - exists l', m'. split; [exact Hrun|].
    apply block_cond_false in Hc'. destruct Hok' as (Hblr & Htar & _).
    destruct Hreg as [(Hd & Hle & Hb & _)|(Hd & Hb & Hta)].
    + assert (Hend : target_addr l' = len) by (consts; lia).
      assert (Ed : d = sectors_of len).
      { unfold sectors_of. consts.
        replace ((len + (4096 - 1)) / 4096) with (Z.of_nat d)
          by (Z.div_mod_to_equations; lia).
        lia. }
      rewrite <- Ed. repeat split; try assumption; consts; lia.
    + rewrite <- Hd. repeat split; try assumption; lia.
Qed.

End CleanPass.

Lemma sector_starts_below (len : Z) (a : Z) :
  In a (sector_starts (sectors_of len)) -> 0 <= a < len.
Proof.
  unfold sector_starts, sectors_of. rewrite in_map_iff. intros (k & <- & Hk).
  apply in_seq in Hk. consts.
  assert (Z.of_nat k < (len + (4096 - 1)) / 4096) by lia.
  Z.div_mod_to_equations. lia.
Qed.

(** X7.  When the image fits below the bound and its last sector, if only
    partly filled, does not already match the flash, the loop stops at the end
    of the image: it ends with [bytes_left = 0] and [target_addr] at the
    length rounded up to the page just programmed (less than 256 above the
    length), it has made one skip check per sector of the image and none
    beyond, and every sector it erased lies below the length. *)
Theorem loop_stops_at_image_end (fuel : nat) (f img : mem) (len : Z) :
  (32 <= fuel)%nat ->
  0 <= len <= MAX_TARGET_ADDR ->
  tail_differs f img len ->
  exists l' m',
    programming_pass fuel img len f = Some (l', m') /\
    bytes_left l' = 0 /\
    len <= target_addr l' < len + SPI_PROGRAM_PAGE_SIZE /\
    current_ptr l' = target_addr l' /\
    count is_skip_read (trace m') = sectors_of len /\
    Forall (fun a => 0 <= a < len) (erase_addrs (trace m')).
Proof.
  intros Hfuel Hlen Htail.
  destruct (clean_pass_run f img len Hlen Htail fuel Hfuel)
    as (l' & m' & Hrun & Hbl & Hta & Hcp & Hcnt & Her).
  exists l', m'. repeat split; try assumption; try lia.
  rewrite Her. apply Forall_forall. intros a Ha.
  apply filter_In in Ha. destruct Ha as (Ha & _).
  apply sector_starts_below. exact Ha.
Qed.

(** The 64-byte image over an erased target: one skip check, one erase. *)
Lemma loop_stops_at_image_end_witness :
  exists l' m',
    programming_pass 32 staged_descriptor 64 (flash_with multiboot_reference)
    = Some (l', m') /\
    bytes_left l' = 0 /\
    count is_skip_read (trace m') = 1%nat.
Proof.
  destruct (loop_stops_at_image_end 32 (flash_with multiboot_reference)
              staged_descriptor 64)
    as (l' & m' & Hrun & Hbl & _ & _ & Hcnt & _).
  - lia.
  - unfold MAX_TARGET_ADDR. lia.
  - right. vm_compute. reflexivity.
  - exists l', m'. split; [exact Hrun|]. split; [exact Hbl | exact Hcnt].
Defined.

(** X8.  Under the same conditions the sectors the pass erases are exactly
    the sectors of the image whose 4096 bytes on the flash, as they were
    before the pass, differ from the staged bytes, in ascending order: a
    sector that matches is never erased and one that differs always is. *)
Theorem erases_exactly_the_changed_sectors (fuel : nat) (f img : mem) (len : Z) :
  (32 <= fuel)%nat ->
  0 <= len <= MAX_TARGET_ADDR ->
  tail_differs f img len ->
  exists l' m',
    programming_pass fuel img len f = Some (l', m') /\
    erase_addrs (trace m')
    = filter (fun a => negb (sector_same f img a)) (sector_starts (sectors_of len)) /\
    (forall a, In a (sector_starts (sectors_of len)) ->
               (In (EvErase4 a) (trace m') <-> sector_same f img a = false)).
Proof.
  intros Hfuel Hlen Htail.
  destruct (clean_pass_run f img len Hlen Htail fuel Hfuel)
    as (l' & m' & Hrun & _ & _ & _ & _ & Her).
  exists l', m'. split; [exact Hrun|]. split; [exact Her|].
  intros a Ha.
  assert (Hin : forall t, In (EvErase4 a) t <-> In a (erase_addrs t)).
  { induction t as [|e t IH]; [reflexivity|].
    destruct e; cbn [erase_addrs In]; rewrite ?IH;
      try (split; [intros [E|E]; [discriminate E|exact E] | intros E; right; exact E]).
    split; intros [E|E]; auto; left; congruence. }
  rewrite Hin, Her, filter_In, negb_true_iff. tauto.
Qed.

(** Two sectors staged, the first already in the flash, the second not. *)
Lemma erases_exactly_the_changed_sectors_witness :
  let f : mem := fun i => if i <? 4096 then x00 else xff in
  exists l' m',
    programming_pass 32 (fun _ => x00) 8192 f = Some (l', m') /\
    erase_addrs (trace m') = [4096].
Proof.
  intros f.
  destruct (erases_exactly_the_changed_sectors 32 f (fun _ => x00) 8192)
    as (l' & m' & Hrun & Her & _).
  - lia.
  - unfold MAX_TARGET_ADDR. lia.
  - left. reflexivity.
  - exists l', m'. split; [exact Hrun|]. rewrite Her. vm_compute. reflexivity.
Defined.

(** ** How many commands a pass can issue *)

Lemma count_nv_ops (p : event -> bool) (t : list event) :
  (forall e, p e = true -> is_nv_op e = true) ->
  count p (nv_ops t) = count p t.
Proof.
  intros Hp. unfold count, nv_ops. induction t as [|e t IH]; [reflexivity|].
  cbn [filter]. destruct (is_nv_op e) eqn:En; cbn [filter].
  - destruct (p e); cbn [length]; rewrite IH; reflexivity.
  - destruct (p e) eqn:Ep; [|exact IH].
    apply Hp in Ep. congruence.
Qed.

Lemma count_page_writes (img : mem) (ta cp bl : Z) (k : nat) :
  count is_write (page_writes img ta cp bl k) = k /\
  count is_erase (page_writes img ta cp bl k) = 0%nat.
Proof.
  assert (H : forall js,
             count is_write (map (page_write img ta cp bl) js) = length js /\
             count is_erase (map (page_write img ta cp bl) js) = 0%nat).
  { unfold count. induction js as [|j js (IH1 & IH2)]; [split; reflexivity|].
    cbn [map filter page_write is_write is_erase length].
    split; [now rewrite IH1|exact IH2]. }
  unfold page_writes. destruct (H (seq 0 k)) as (H1 & H2).
  rewrite length_seq in H1. split; assumption.
Qed.

Lemma pass_run_counts (lo hi : Z) (ops : list event) :
  pass_run lo ops hi ->
  SPI_ERASE_SECTOR_SIZE * Z.of_nat (count is_erase ops) <= hi - lo /\
  (count is_write ops <= PAGES_PER_SECTOR * count is_erase ops)%nat.
Proof.
  induction 1 as [lo hi Hle|lo a img cp bl k rest hi Hlo Hal Hk Hrest (IH1 & IH2)].
  - cbn. lia.
  - change (EvErase4 a :: page_writes img a cp bl k ++ rest)
      with ([EvErase4 a] ++ page_writes img a cp bl k ++ rest).
    rewrite !count_app.
    destruct (count_page_writes img a cp bl k) as (-> & ->).
    change (count is_erase [EvErase4 a]) with 1%nat.
    change (count is_write [EvErase4 a]) with 0%nat.
    unfold PAGES_PER_SECTOR in *. consts. lia.
Qed.

(** X9.  Whatever the image and the flash, one programming pass issues at
    most 32 erase commands and at most 512 program commands.  Each erase is at
    a sector boundary below 131072.  Each program command starts at a page
    boundary, carries at most 256 bytes, so it stays inside one page, and ends
    at or below 131072. *)
Theorem pass_command_budget (fuel : nat) (m : machine) :
  (32 <= fuel)%nat ->
  0 <= cached_image_length m < 4294967296 ->
  exists l' m' evs,
    program_blocks fuel (loop_entry m) m = Some (l', m') /\
    trace m' = trace m ++ evs /\
    (count is_erase evs <= 32)%nat /\
    (count is_write evs <= 512)%nat /\
    (forall a, In (EvErase4 a) evs ->
               0 <= a < MAX_TARGET_ADDR /\ a mod SPI_ERASE_SECTOR_SIZE = 0) /\
    (forall a d, In (EvWrite a d) evs ->
                 0 <= a /\ a mod SPI_PROGRAM_PAGE_SIZE = 0 /\
                 Z.of_nat (length d) <= SPI_PROGRAM_PAGE_SIZE /\
                 a + Z.of_nat (length d) <= MAX_TARGET_ADDR).
Proof.
  intros Hfuel Hlen.
  pose proof (loop_entry_ok m Hlen) as Hok.
  pose proof (fuel_from_zero fuel m Hfuel) as Hf.
  destruct (program_blocks_pass_run fuel (loop_entry m) m Hok Hf)
    as (l' & m' & evs & Hrun & Htr & Hpr).
  destruct (program_blocks_frame fuel (loop_entry m) m Hok Hf)
    as (l1 & m1 & Hrun1 & _ & _ & _ & (evs1 & Htr1 & Hev) & _).
  rewrite Hrun in Hrun1. injection Hrun1 as <- <-.
  rewrite Htr in Htr1. apply app_inv_head in Htr1. subst evs1.
  exists l', m', evs. split; [exact Hrun|]. split; [exact Htr|].
  cbn [loop_entry target_addr] in Hpr.
  destruct (pass_run_counts _ _ _ Hpr) as (Hce & Hcw).
  rewrite !count_nv_ops in Hce by (intros e; destruct e; auto).
  rewrite !count_nv_ops in Hcw by (intros e; destruct e; auto).
  unfold PAGES_PER_SECTOR in Hcw.
  split; [consts; lia|]. split; [consts; lia|].
  rewrite Forall_forall in Hev. split.
  - intros a Ha. exact (Hev _ Ha).
  - intros a d Ha. destruct (Hev _ Ha) as (H1 & H2 & H3).
    split; [lia|]. split; [exact H2|].
    assert (Z.of_nat (length d) <= SPI_PROGRAM_PAGE_SIZE) by (consts; lia).
    split; [assumption|]. consts. Z.div_mod_to_equations. lia.
Qed.

Lemma pass_command_budget_witness :
  let m := pass_machine staged_descriptor 64 padded_flash in
  exists l' m' evs,
    program_blocks 32 (loop_entry m) m = Some (l', m') /\
    trace m' = evs /\
    (count is_erase evs <= 32)%nat /\ (count is_write evs <= 512)%nat.
Proof.
  intros m.
  destruct (pass_command_budget 32 m) as (l' & m' & evs & Hrun & Htr & He & Hw & _).
  - lia.
  - cbn. lia.
  - exists l', m', evs. split; [exact Hrun|]. split; [exact Htr|]. split; assumption.
Defined.

(** ** The interrupt handler *)

Lemma land_bit_zero (x n : Z) :
  0 <= n -> (Z.land x (Z.shiftl 1 n) =? 0) = negb (Z.testbit x n).
Proof.
  intros Hn. rewrite Z.shiftl_1_l.
  destruct (Z.testbit x n) eqn:Hb; cbn [negb].
  - apply Z.eqb_neq. intros E.
    assert (H : Z.testbit (Z.land x (2 ^ n)) n = true)
      by (rewrite Z.land_spec, Hb, Z.pow2_bits_true by exact Hn; reflexivity).
    rewrite E, Z.bits_0 in H. discriminate H.
  - apply Z.eqb_eq. apply Z.bits_inj'. intros k Hk.
    rewrite Z.land_spec, Z.bits_0, Z.pow2_bits_eqb by exact Hn.
    destruct (Z.eqb_spec n k) as [->|_]; [rewrite Hb; reflexivity|apply andb_false_r].
Qed.

(** X10.  [isr] calls [usb_isr], once, exactly when bit [USB_INTERRUPT] is
    set both in the pending interrupts and in the mask; whatever else is
    pending is ignored.  Under the mask that [fobooster_main] installs first,
    [irq_setmask (0)], it calls nothing. *)
Theorem isr_dispatches_enabled_usb_only (USB_INTERRUPT pending mask : Z) :
  0 <= USB_INTERRUPT ->
  (isr USB_INTERRUPT pending mask = [CallUsbIsr] <->
   Z.testbit pending USB_INTERRUPT = true /\ Z.testbit mask USB_INTERRUPT = true) /\
  (isr USB_INTERRUPT pending mask = [] <->
   Z.testbit pending USB_INTERRUPT = false \/ Z.testbit mask USB_INTERRUPT = false) /\
  isr USB_INTERRUPT pending 0 = [].
Proof.
  intros Hn. unfold isr. rewrite !land_bit_zero by exact Hn.
  rewrite !Z.land_spec, Z.bits_0, negb_involutive, andb_false_r.
  destruct (Z.testbit pending USB_INTERRUPT), (Z.testbit mask USB_INTERRUPT);
    cbn [andb]; repeat split; intros; auto; try discriminate;
    try (destruct H; discriminate).
Qed.

(** USB pending and enabled, next to another pending interrupt. *)
Lemma isr_dispatches_enabled_usb_only_witness :
  isr 3 0x0a 0x08 = [CallUsbIsr] /\ isr 3 0x0a 0 = [].
Proof.
  destruct (isr_dispatches_enabled_usb_only 3 0x0a 0x08) as (H & _ & _); [lia|].
  destruct (isr_dispatches_enabled_usb_only 3 0x0a 0) as (_ & _ & H0); [lia|].
  split; [apply H; split; reflexivity | exact H0].
Defined.

(** ** The loops that poll a register *)

(** X11.  [ftfl_busy_wait] returns exactly when the controller answers "not
    busy": it has then polled [spiIsBusy] through any number of "busy"
    answers up to and including the first "not busy" one, and nothing after
    it.  As long as every answer is "busy" it does not return. *)
Theorem busy_wait_returns_at_first_idle (answers : list bool) :
  (forall rest,
      Polled.ftfl_busy_wait answers = Some rest <->
      exists k, answers = repeat true k ++ false :: rest) /\
  (Polled.ftfl_busy_wait answers = None <-> Forall (fun a => a = true) answers).
Proof.
  induction answers as [|a answers (IH1 & IH2)].
  - split.
    + intros rest. split; [discriminate|]. intros (k & E). destruct k; discriminate E.
    + split; [constructor|reflexivity].
  - cbn [Polled.ftfl_busy_wait]. unfold ftfl_busy. destruct a.
    + split.
      * intros rest. rewrite IH1. split.
        { intros (k & ->). exists (S k). reflexivity. }
        { intros (k & E). destruct k as [|k]; [discriminate E|].
          cbn in E. injection E as E. exists k. exact E. }
      * rewrite IH2. split; [intros H; constructor; [reflexivity|exact H]|].
        intros H. inversion H. assumption.
    + split.
      * intros rest. split.
        { intros E. injection E as ->. exists 0%nat. reflexivity. }
        { intros (k & E). destruct k as [|k]; [|discriminate E].
          cbn in E. injection E as ->. reflexivity. }
      * split; [discriminate|]. intros H. inversion H. discriminate.
Qed.

Lemma wait_for_zero_spec (reads : list Z) : forall ws rest,
  Polled.wait_for_zero reads = Some (ws, rest) <->
  exists nz,
    Forall (fun v => v <> 0) nz /\ reads = nz ++ 0 :: rest /\
    ws = repeat (Polled.UpdateValue 1) (length nz).
Proof.
  induction reads as [|v reads IH]; intros ws rest.
  - split; [discriminate|]. intros (nz & _ & E & _). destruct nz; discriminate E.
  - cbn [Polled.wait_for_zero]. destruct (Z.eqb_spec v 0) as [->|Hv]; cbn [negb].
    + split.
      * intros E. injection E as <- <-. exists []. repeat split. constructor.
      * intros (nz & Hnz & E & ->). destruct nz as [|x nz].
        { cbn in E. injection E as ->. reflexivity. }
        { cbn in E. injection E as <- _. inversion Hnz. contradiction. }
    + destruct (Polled.wait_for_zero reads) as [[ws1 rest1]|].
      * split.
        { intros E. injection E as <- <-.
          destruct (proj1 (IH ws1 rest1) eq_refl) as (nz & Hnz & -> & ->).
          exists (v :: nz). repeat split. constructor; assumption. }
        { intros (nz & Hnz & E & ->). destruct nz as [|x nz].
          - cbn in E. injection E as E _. contradiction.
          - cbn in E. injection E as <- E. inversion Hnz as [|? ? _ Hnz']. subst.
            assert (H : Some (ws1, rest1)
                        = Some (repeat (Polled.UpdateValue 1) (length nz), rest)).
            { apply IH. exists nz. auto. }
            injection H as -> ->. reflexivity. }
      * split; [discriminate|].
        intros (nz & Hnz & E & ->). destruct nz as [|x nz].
        { cbn in E. injection E as E _. contradiction. }
        { cbn in E. injection E as <- E. inversion Hnz as [|? ? _ Hnz']. subst.
          assert (H : None = Some (repeat (Polled.UpdateValue 1) (length nz), rest)).
          { apply IH. exists nz. auto. }
          discriminate H. }
Qed.

(** X12.  [msleep] stops the timer, clears the reload value, loads
    [SYSTEM_CLOCK_FREQUENCY / 1000 * ms] ticks and starts the timer; it then
    latches the counter once and once more after every non-zero reading, and
    returns at the first reading of zero, not before.  Because the division
    comes first, the ticks loaded never exceed the exact
    [SYSTEM_CLOCK_FREQUENCY * ms / 1000] and fall short of it by at most
    [999 * ms / 1000]. *)
Theorem msleep_loads_and_waits (F ms : Z) (reads : list Z) :
  0 <= F -> 0 <= ms -> F / 1000 * ms < 4294967296 ->
  (forall ws rest,
      Polled.msleep F ms reads = Some (ws, rest) <->
      exists nz,
        Forall (fun v => v <> 0) nz /\ reads = nz ++ 0 :: rest /\
        ws = [Polled.En 0; Polled.Reload 0; Polled.Load (F / 1000 * ms);
              Polled.En 1; Polled.UpdateValue 1]
               ++ repeat (Polled.UpdateValue 1) (length nz)) /\
  1000 * (F / 1000 * ms) <= F * ms <= 1000 * (F / 1000 * ms) + 999 * ms.
Proof.
  intros HF Hms Hfit.
  assert (Hload : Polled.load_value F ms = F / 1000 * ms).
  { unfold Polled.load_value. rewrite Z.quot_div_nonneg by lia.
    apply wrap32_small. split; [|exact Hfit].
    apply Z.mul_nonneg_nonneg; [apply Z.div_pos; lia|exact Hms]. }
  split.
  - intros ws rest. unfold Polled.msleep. rewrite Hload.
    destruct (Polled.wait_for_zero reads) as [[ws1 rest1]|] eqn:E.
    + split.
      * intros H. injection H as <- <-.
        apply wait_for_zero_spec in E. destruct E as (nz & Hnz & -> & ->).
        exists nz. auto.
      * intros (nz & Hnz & Er & ->).
        assert (H : Polled.wait_for_zero reads
                    = Some (repeat (Polled.UpdateValue 1) (length nz), rest))
          by (apply wait_for_zero_spec; exists nz; auto).
        rewrite E in H. injection H as -> ->. reflexivity.
    + split; [discriminate|].
      intros (nz & Hnz & Er & ->).
      assert (H : Polled.wait_for_zero reads
                  = Some (repeat (Polled.UpdateValue 1) (length nz), rest))
        by (apply wait_for_zero_spec; exists nz; auto).
      rewrite E in H. discriminate H.
  - pose proof (Z.div_mod F 1000 ltac:(lia)) as Hd.
    pose proof (Z.mod_pos_bound F 1000 ltac:(lia)) as Hm.
    nia.
Qed.

(** A 12 MHz clock, one second, a timer read twice before it reaches zero. *)
Lemma msleep_loads_and_waits_witness :
  Polled.msleep 12000000 1000 [7000000; 2000000; 0; 5]
  = Some ([Polled.En 0; Polled.Reload 0; Polled.Load 12000000; Polled.En 1;
           Polled.UpdateValue 1; Polled.UpdateValue 1; Polled.UpdateValue 1], [5]).
Proof.
  destruct (msleep_loads_and_waits 12000000 1000 [7000000; 2000000; 0; 5])
    as (H & _); [lia | lia | reflexivity |].
  apply H. exists [7000000; 2000000]. repeat split.
  repeat constructor; discriminate.
Defined.

(** ** What a run leaves in the variables of main.c *)

(** X13.  After a run, the variables of main.c tell how far it got.  A run
    stopped by the size check has written none of them.  One stopped by the
    hash check has left the hash it computed, different from the expected
    one, in [calculated_hash].  From the descriptor check on,
    [calculated_hash] holds the expected hash.  [cached_spi_id],
    [read_spi_id] and [cached_image_length] are written only once the
    validation has passed: after an identity mismatch they hold the recorded
    identity, the different one the chip answered, and the image length;
    after a reboot the two identities are equal. *)
Theorem variables_after_a_run
        (XXH32 : list byte -> Z -> Z) (fuel : nat) (inp : booster_input)
        (m : machine) (out : outcome) (m' : machine) :
  0 <= image_length inp ->
  fobooster_main XXH32 fuel inp m = Some (out, m') ->
  match out with
  | Failed NO_ERROR => False
  | Failed INVALID_IMAGE_SIZE =>
      calculated_hash m' = calculated_hash m /\ identity_untouched m m'
  | Failed HASH_MISMATCH =>
      calculated_hash m' = hash_of_source XXH32 inp m /\
      calculated_hash m' <> xxhash inp /\ identity_untouched m m'
  | Failed MISSING_MULTIBOOT =>
      calculated_hash m' = xxhash inp /\ identity_untouched m m'
  | Failed SPI_MISMATCH =>
      calculated_hash m' = xxhash inp /\
      cached_spi_id m' = spi_id inp /\ read_spi_id m' = spiId_answer inp /\
      cached_spi_id m' <> read_spi_id m' /\
      cached_image_length m' = image_length inp
  | Rebooted =>
      calculated_hash m' = xxhash inp /\
      cached_spi_id m' = spi_id inp /\ read_spi_id m' = spi_id inp /\
      cached_image_length m' = image_length inp
  end.
Proof.
  intros Hlen H. unfold fobooster_main in H.
  change (hash_of_source XXH32 inp m) with (hash_of_source XXH32 inp (startup m)).
  destruct (validate_cases XXH32 inp (startup m))
    as [(Hsz & E)|[(Hsz & Hh & E)|[(Hsz & Hh & Hmb & E)|(Hsz & Hh & Hmb & E)]]];
    rewrite E in H.
  - injection H as <- <-. repeat split.
  - injection H as <- <-. msimpl. repeat split. exact Hh.
  - injection H as <- <-. msimpl. split; [exact Hh|]. repeat split.
  - match type of H with
    | context [confirm_identity inp ?m1] =>
        destruct (confirm_identity_cases inp m1) as [(Hid & E')|(Hid & E')];
        rewrite E' in H
    end.
    + injection H as <- <-. msimpl. repeat split; assumption.
    + match type of H with
      | context [program_blocks fuel (loop_entry ?m2) ?m2] =>
          assert (Hok : block_ok (loop_entry m2))
            by (apply loop_entry_ok; msimpl; consts; lia);
          destruct (program_blocks fuel (loop_entry m2) m2) as [[l3 m3]|] eqn:Hloop;
          [|discriminate]
      end.
      injection H as <- <-.
      destruct (program_blocks_result fuel _ _ _ _ Hok Hloop)
        as (_ & _ & (_ & _ & Hc3 & Hr3 & Hs3 & Hl3) & _).
      destruct (finish_effect m3) as (_ & (_ & _ & Hc4 & Hr4 & Hs4 & Hl4) & _).
      msimpl. rewrite Hc4, Hr4, Hs4, Hl4, Hc3, Hr3, Hs3, Hl3. msimpl.
      repeat split; congruence.
Qed.

Lemma variables_after_a_run_witness :
  let m := power_on (flash_with multiboot_reference) in
  let r := fobooster_main sum_hash 32 foreign_chip m in
  outcome_of r = Some (Failed SPI_MISMATCH) /\
  cached_spi_id (final_of r m) = 0xc2152815 /\
  read_spi_id (final_of r m) = 0xef401500.
Proof.
  intros m r.
  assert (Hrun : outcome_of r = Some (Failed SPI_MISMATCH)) by (vm_compute; reflexivity).
  split; [exact Hrun|].
  assert (Hlen : 0 <= image_length foreign_chip) by (cbn; lia).
  pose proof (variables_after_a_run sum_hash 32 foreign_chip m (Failed SPI_MISMATCH)
                (final_of r m) Hlen (run_result r _ m Hrun)) as H.
  destruct H as (_ & Hc & Hr & _). split; [exact Hc | exact Hr].
Defined.

(** ** One pass of the loop on a sector that differs *)

(** X14.  When the skip check fails, the body erases the sector and programs
    the bytes of the image that fall into it, no more: with [n] the smaller
    of [bytes_left] and 4096, it issues the erase and then one program
    command per page for the first [n] bytes (256 bytes each, the last one
    the remainder), [bytes_left] goes down by [n], and afterwards the first
    [n] bytes of the sector read as the staged bytes, the rest of the sector
    reads erased, and the flash outside the sector is as it was. *)
Theorem rewrite_programs_image_bytes_only (l : locals) (m : machine) :
  block_ok l -> block_cond l = true -> skip_check l m = false ->
  let n := Z.min (bytes_left l) SPI_ERASE_SECTOR_SIZE in
  let k := Z.to_nat ((n + (SPI_PROGRAM_PAGE_SIZE - 1)) / SPI_PROGRAM_PAGE_SIZE) in
  exists l' m' evs,
    block_body l m = Some (l', m') /\
    trace m' = trace m ++ evs /\
    nv_ops evs = EvErase4 (target_addr l)
                   :: page_writes (cached_image m) (target_addr l) (current_ptr l)
                                  (bytes_left l) k /\
    bytes_left l' = bytes_left l - n /\
    target_addr l' = target_addr l + SPI_PROGRAM_PAGE_SIZE * Z.of_nat k /\
    current_ptr l' = current_ptr l + SPI_PROGRAM_PAGE_SIZE * Z.of_nat k /\
    (forall i, target_addr l <= i < target_addr l + n ->
               flash m' i = cached_image m (current_ptr l + (i - target_addr l))) /\
    (forall i, target_addr l + n <= i < target_addr l + SPI_ERASE_SECTOR_SIZE ->
               flash m' i = xff) /\
    (forall i, i < target_addr l \/ target_addr l + SPI_ERASE_SECTOR_SIZE <= i ->
               flash m' i = flash m i).
Proof.
  intros Hok Hc Hs n k.
  destruct (block_ok_aligned l Hok Hc) as (Hal & Hta & Hbl).
  destruct (block_body_step l m Hok Hc) as (l' & m' & Hbody & Hstep).
  destruct Hstep as [Hs' _ _|k' evs _ Hk Hlast Hbl' Hend Hta' Hcp' Hr Htr Hev Hnv Hfl];
    [congruence|].
  unfold PAGES_PER_SECTOR in *.
  assert (Hmin : Z.min (SPI_PROGRAM_PAGE_SIZE * Z.of_nat k') (bytes_left l) = n)
    by (subst n; destruct Hend; consts; lia).
  assert (Ek : k' = k).
  { subst k n. consts.
    assert (Z.of_nat k' = (Z.min (bytes_left l) 4096 + (256 - 1)) / 256)
      by (destruct Hend; Z.div_mod_to_equations; lia).
    lia. }
  subst k'.
  exists l', m', ([EvCfg4Write 0x80; EvCfg4Write 0x00; EvBusyWait;
                   EvErase4 (target_addr l)] ++ evs).
  split; [exact Hbody|]. split; [exact Htr|].
  split; [rewrite nv_ops_app, Hnv; reflexivity|].
  split; [subst n; destruct Hend; consts; lia|].
  split; [exact Hta'|]. split; [exact Hcp'|].
  rewrite Hmin in Hfl.
  assert (Hn : 0 <= n <= SPI_ERASE_SECTOR_SIZE) by (subst n; consts; lia).
  split; [|split]; intros i Hi; rewrite Hfl;
    destruct (Z.leb_spec (target_addr l) i);
    destruct (Z.ltb_spec i (target_addr l + SPI_ERASE_SECTOR_SIZE)); cbn [andb];
    destruct (Z.ltb_spec i (target_addr l + n));
    try reflexivity; exfalso; lia.
Qed.

(** The 64-byte image at an erased sector 0: one page of 64 bytes. *)
Lemma rewrite_programs_image_bytes_only_witness :
  let m := pass_machine staged_descriptor 64 (flash_with multiboot_reference) in
  exists l' m' evs,
    block_body (loop_entry m) m = Some (l', m') /\
    trace m' = evs /\
    nv_ops evs = [EvErase4 0; EvWrite 0 (read_bytes staged_descriptor 0 64)] /\
    bytes_left l' = 0 /\
    flash m' 64 = xff.
Proof.
  intros m.
  destruct (rewrite_programs_image_bytes_only (loop_entry m) m)
    as (l' & m' & evs & Hb & Htr & Hnv & Hbl & _ & _ & _ & Hff & _).
  - apply loop_entry_ok. cbn. lia.
  - reflexivity.
  - vm_compute. reflexivity.
  - exists l', m', evs. split; [exact Hb|]. split; [exact Htr|].
    split; [exact Hnv|]. split; [exact Hbl|]. apply Hff.
    vm_compute. split; [discriminate | reflexivity].
Defined.
